(** * FruitsSearchAutomata: the automation orchestration engine of [app.py]

    A shallow embedding of the worker of [app.py] and of what it relies on:
    the query sequencer [_build_queries], the pacing helpers
    [_wait_if_paused] and [sleep_with_pause], the shared [state] dictionary
    with the stop, pause and resume endpoints, the progress store
    [profile_info.json], run start, and [automation_worker] itself.

    How the program is modelled:
    - the [state] dictionary is a record, its per-profile dictionaries are
      finite maps; the worker's local variables are a record of their own;
    - worker code is a function from a world to an outcome and a world; an
      outcome is a value, an exception, or "blocked for ever" (a worker
      paused and never resumed nor stopped);
    - time is a clock in milliseconds that only [time.sleep] advances, by
      exactly its duration;
    - the other threads are a list of time-stamped stop, pause and resume
      requests; each [with state_lock:] block of the worker first sees the
      handlers of the requests that are due;
    - the collaborators (the native input actions, browser launches, the
      mobile automation runtime, file writes, process handles, the random
      generator) answer as an environment says; what the worker does to them
      is recorded in a trace;
    - the progress percentage is an exact rational. *)

From Stdlib Require Import ZArith List String Lia QArith Qround.
From Equations Require Import Equations.
From stdpp Require Import base gmap strings list fin_maps.

Local Open Scope string_scope.
Local Open Scope list_scope.
Local Open Scope Z_scope.

(** ** Query sequencer: [_build_queries] *)

Module Query.

(** [out[:count]] for a Python list: a negative bound counts from the end. *)
Definition py_slice_to {A} (out : list A) (count : Z) : list A :=
  if 0 <=? count then take (Z.to_nat count) out
  else take (Z.to_nat (Z.of_nat (length out) + count)) out.

(** [base[i % len(base)]]: [hd] is the first element of the non-empty [base],
    the index is always in range. *)
Definition cyc (hd : string) (base : list string) (i : nat) : string :=
  nth (i mod length base) base hd.

(** The [while len(out) < count] loop, on the loop variables [out] and [i]. *)
Equations? build_loop (hd : string) (base : list string) (count : Z)
    (out : list string) (i : nat) : list string
    by wf (Z.to_nat (count - Z.of_nat (length out))) lt :=
  build_loop hd base count out i with Z_lt_dec (Z.of_nat (length out)) count := {
    | left _ => build_loop hd base count (out ++ [cyc hd base i]) (S i);
    | right _ => out }.
Proof. rewrite length_app. simpl. lia. Qed.

Definition _build_queries (base : list string) (count : Z) : list string :=
  match base with
  | [] => []
  | hd :: _ => py_slice_to (build_loop hd base count [] 0) count
  end.

End Query.

(** ** Shared run state: the [state] dictionary *)

(** A [{done, total}] progress entry. *)
Record Entry := mkEntry { e_done : Z; e_total : Z }.

(** A [profile_points] entry. *)
Record Points := mkPoints { pt_points : option Z; pt_level : Z; pt_last_updated : Z }.

(** A [profile_eligibility] entry; [el_mobile = None] is a missing key. *)
Record Elig := mkElig { el_mobile : option bool; el_reason : string }.

Record State := mkState {
  is_running : bool;
  status : string;
  progress : Q;
  current_search : string;
  current_profile : string;
  completed : Z;
  total : Z;
  is_paused : bool;
  profile_progress : gmap string Entry;
  profile_points : gmap string Points;
  profile_eligibility : gmap string Elig;
  mobile_enabled : bool;
  mobile_progress : gmap string Entry }.

(** The module-level initial value of [state]. *)
Definition initial_state : State :=
  mkState false "Ready" 0%Q "" "" 0 0 false ∅ ∅ ∅ false ∅.

Definition set_is_running (b : bool) (s : State) : State :=
  mkState b (status s) (progress s) (current_search s) (current_profile s)
    (completed s) (total s) (is_paused s) (profile_progress s) (profile_points s)
    (profile_eligibility s) (mobile_enabled s) (mobile_progress s).

Definition set_status (x : string) (s : State) : State :=
  mkState (is_running s) x (progress s) (current_search s) (current_profile s)
    (completed s) (total s) (is_paused s) (profile_progress s) (profile_points s)
    (profile_eligibility s) (mobile_enabled s) (mobile_progress s).

Definition set_progress (x : Q) (s : State) : State :=
  mkState (is_running s) (status s) x (current_search s) (current_profile s)
    (completed s) (total s) (is_paused s) (profile_progress s) (profile_points s)
    (profile_eligibility s) (mobile_enabled s) (mobile_progress s).

Definition set_current_search (x : string) (s : State) : State :=
  mkState (is_running s) (status s) (progress s) x (current_profile s)
    (completed s) (total s) (is_paused s) (profile_progress s) (profile_points s)
    (profile_eligibility s) (mobile_enabled s) (mobile_progress s).

Definition set_current_profile (x : string) (s : State) : State :=
  mkState (is_running s) (status s) (progress s) (current_search s) x
    (completed s) (total s) (is_paused s) (profile_progress s) (profile_points s)
    (profile_eligibility s) (mobile_enabled s) (mobile_progress s).

Definition set_completed (x : Z) (s : State) : State :=
  mkState (is_running s) (status s) (progress s) (current_search s) (current_profile s)
    x (total s) (is_paused s) (profile_progress s) (profile_points s)
    (profile_eligibility s) (mobile_enabled s) (mobile_progress s).

Definition set_is_paused (b : bool) (s : State) : State :=
  mkState (is_running s) (status s) (progress s) (current_search s) (current_profile s)
    (completed s) (total s) b (profile_progress s) (profile_points s)
    (profile_eligibility s) (mobile_enabled s) (mobile_progress s).

Definition set_profile_progress (x : gmap string Entry) (s : State) : State :=
  mkState (is_running s) (status s) (progress s) (current_search s) (current_profile s)
    (completed s) (total s) (is_paused s) x (profile_points s)
    (profile_eligibility s) (mobile_enabled s) (mobile_progress s).

Definition set_mobile_progress (x : gmap string Entry) (s : State) : State :=
  mkState (is_running s) (status s) (progress s) (current_search s) (current_profile s)
    (completed s) (total s) (is_paused s) (profile_progress s) (profile_points s)
    (profile_eligibility s) (mobile_enabled s) x.

(** ** Control endpoints: [/api/stop], [/api/pause], [/api/resume]

    Each handler returns the new state and the message of its JSON reply. *)

Definition stop_automation (s : State) : State * string :=
  (if is_running s
   then set_status "Stopping automation..." (set_is_running false s)
   else s,
   "Stopping").

Definition pause_automation (s : State) : State * string :=
  (if is_running s
   then set_status "Paused" (set_is_paused true s)
   else s,
   "Paused").

Definition resume_automation (s : State) : State * string :=
  (if is_running s
   then set_status "Resuming..." (set_is_paused false s)
   else s,
   "Resumed").

(** A control request of a caller, and the handler serving it. *)
Inductive Request := Stop | Pause | Resume.

Definition handle (r : Request) (s : State) : State :=
  match r with
  | Stop => fst (stop_automation s)
  | Pause => fst (pause_automation s)
  | Resume => fst (resume_automation s)
  end.

(** ** Progress accounting under the lock *)

(** [e["done"] = min(e["done"] + 1, e["total"])]. *)
Definition bump_done (e : Entry) : Entry :=
  mkEntry (Z.min (e_done e + 1) (e_total e)) (e_total e).

(** [(completed / total) * 100.0], as an exact rational. *)
Definition percent (completed total : Z) : Q :=
  (inject_Z completed / inject_Z total * 100)%Q.

(** The locked block after a desktop query (the local [completed] was
    incremented just before):
    [state["completed"] = completed; total = max(1, state.get("total", 1));
     state["progress"] = (completed / total) * 100.0;
     if name in pp: pp[name]["done"] = min(pp[name]["done"] + 1, pp[name]["total"])]. *)
Definition desktop_progress_update (name : string) (completed : Z) (s : State) : State :=
  let s1 := set_completed completed s in
  let total := Z.max 1 (total s1) in
  let s2 := set_progress (percent completed total) s1 in
  match profile_progress s2 !! name with
  | Some e => set_profile_progress (<[name := bump_done e]> (profile_progress s2)) s2
  | None => s2
  end.

(** The locked block after a mobile query:
    [mp = state.setdefault("mobile_progress", {}).setdefault(name,
            {"done": 0, "total": MOBILE_SEARCH_COUNT});
     mp["done"] = min(mp["done"] + 1, mp["total"])]. *)
Definition mobile_progress_update (mobile_search_count : Z) (name : string)
    (s : State) : State :=
  let e := default (mkEntry 0 mobile_search_count) (mobile_progress s !! name) in
  set_mobile_progress (<[name := bump_done e]> (mobile_progress s)) s.

(** ** Profile progress store: [profile_info.json]

    The file content is a map from profile names to entries; a key missing
    from an entry is [None]. Stored numbers are integers, as this program
    writes them. *)

Record InfoEntry := mkInfo {
  i_date : option string;
  i_level : option Z;
  i_pc : option Z;
  i_mobile : option Z;
  i_error : option string }.

Definition empty_entry : InfoEntry := mkInfo None None None None None.

(** [2 if level == 2 else 1]. *)
Definition norm_level (level : Z) : Z := if level =? 2 then 2 else 1.

Definition get_or_init_profile (today : string) (info : gmap string InfoEntry)
    (profile : string) : InfoEntry * gmap string InfoEntry :=
  let entry := default empty_entry (info !! profile) in
  let level := default 1 (i_level entry) in
  let entry' :=
    if decide (i_date entry = Some today)
    then mkInfo (Some today) (Some (norm_level level))
           (Some (default 0 (i_pc entry))) (Some (default 0 (i_mobile entry)))
           (i_error entry)
    else mkInfo (Some today) (Some (norm_level level)) (Some 0) (Some 0)
           (i_error entry) in
  (entry', <[profile := entry']> info).

(** [bump_profile_progress], as a function on the file content. *)
Definition bump_profile_progress (today : string) (profile : string) (is_pc : bool)
    (delta : Z) (info : gmap string InfoEntry) : gmap string InfoEntry :=
  let '(entry, info1) := get_or_init_profile today info profile in
  let entry' :=
    if is_pc
    then mkInfo (i_date entry) (i_level entry) (Some (default 0 (i_pc entry) + delta))
           (i_mobile entry) (i_error entry)
    else mkInfo (i_date entry) (i_level entry) (i_pc entry)
           (Some (default 0 (i_mobile entry) + delta)) (i_error entry) in
  <[profile := entry']> info1.

(** ** The worker's world

    The worker runs against the shared state, the progress store, its own
    local variables, a clock, and an environment that decides what the
    external collaborators do. *)

(** Exceptions; every one is an instance of Python's [Exception]. *)
Inductive exn :=
| FailSafeException
| PyException (what : string).

Inductive GuiAction :=
| HotkeyCtrlT
| HotkeyCtrlL
| Typewrite (text : string)
| PressEnter.

(** What the worker did to the outside world, in order (most recent first). *)
Inductive Event :=
| EvLaunch (browser : string) (directory : option string) (launched : bool)
| EvLaunchMobileUA (browser : string) (directory : option string) (launched : bool)
| EvGui (a : GuiAction)
| EvCloseWindows (browser : string)
| EvTerminate (pid : nat)
| EvKill (pid : nat)
| EvMobileOpen (profile : string) (opened : bool)
| EvMobileSearch (query : string)
| EvMobileClose (profile : string)
| EvPrint (msg : string).

(** The environment: the answer of each external collaborator at the n-th
    consultation, and the module-level configuration. *)
Record Env := mkEnv {
  gui_raises : nat -> option exn;
  launch_ok : nat -> bool;
  pw_open_ok : nat -> bool;
  pw_search_ok : nat -> bool;
  io_ok : nat -> bool;
  terminate_ok : nat -> bool;
  poll_alive : nat -> bool;
  uniform : nat -> Z;
  today : string;
  MOBILE_SEARCH_COUNT : Z;
  _HAVE_PLAYWRIGHT : bool }.

(** The local variables of [automation_worker]. A process handle is the
    number of the launch that created it. *)
Record Locals := mkLocals {
  l_completed : Z;
  browser_processes : list (nat * string);
  completed_profiles : list string }.

Record World := mkWorld {
  st : State;
  info : gmap string InfoEntry;
  lv : Locals;
  pending : list (Z * Request);
  now : Z;
  tick : nat;
  trace : list Event }.

Definition with_st (x : State) (w : World) : World :=
  mkWorld x (info w) (lv w) (pending w) (now w) (tick w) (trace w).
Definition with_info (x : gmap string InfoEntry) (w : World) : World :=
  mkWorld (st w) x (lv w) (pending w) (now w) (tick w) (trace w).
Definition with_lv (x : Locals) (w : World) : World :=
  mkWorld (st w) (info w) x (pending w) (now w) (tick w) (trace w).
Definition with_pending (x : list (Z * Request)) (w : World) : World :=
  mkWorld (st w) (info w) (lv w) x (now w) (tick w) (trace w).
Definition with_now (x : Z) (w : World) : World :=
  mkWorld (st w) (info w) (lv w) (pending w) x (tick w) (trace w).
Definition with_tick (x : nat) (w : World) : World :=
  mkWorld (st w) (info w) (lv w) (pending w) (now w) x (trace w).
Definition with_trace (x : list Event) (w : World) : World :=
  mkWorld (st w) (info w) (lv w) (pending w) (now w) (tick w) x.

(** The outcome of a computation: a value, an exception, or blocked forever. *)
Inductive Result (A : Type) :=
| Ret (a : A)
| Raise (e : exn)
| Hang.
Arguments Ret {A} a.
Arguments Raise {A} e.
Arguments Hang {A}.

Definition M (A : Type) : Type := World -> Result A * World.

Definition ret {A} (a : A) : M A := fun w => (Ret a, w).
Definition raise {A} (e : exn) : M A := fun w => (Raise e, w).

Definition bind {A B} (m : M A) (k : A -> M B) : M B := fun w =>
  match m w with
  | (Ret a, w1) => k a w1
  | (Raise e, w1) => (Raise e, w1)
  | (Hang, w1) => (Hang, w1)
  end.

Notation "x <- m ;; k" := (bind m (fun x => k))
  (at level 100, m at next level, right associativity).
Notation "m ;;; k" := (bind m (fun _ => k))
  (at level 100, right associativity).

(** [try: body except Exception as e: handler(e)] (also the bare [except:]). *)
Definition try_except {A} (body : M A) (handler : exn -> M A) : M A := fun w =>
  match body w with
  | (Raise e, w1) => handler e w1
  | other => other
  end.

(** [try: body finally: fin]. A body that never returns never reaches [fin];
    an exception of [fin] replaces the outcome of the body. *)
Definition try_finally {A} (body : M A) (fin : M unit) : M A := fun w =>
  match body w with
  | (Hang, w1) => (Hang, w1)
  | (r, w1) =>
      match fin w1 with
      | (Ret _, w2) => (r, w2)
      | (Raise e, w2) => (Raise e, w2)
      | (Hang, w2) => (Hang, w2)
      end
  end.

Inductive LoopCtl := Continue | Break.

(** [for x in l: body(x)], where the body says whether it ended in [break]. *)
Fixpoint for_each {A} (l : list A) (body : A -> M LoopCtl) : M unit :=
  match l with
  | [] => ret tt
  | x :: rest =>
      c <- body x ;;
      match c with
      | Break => ret tt
      | Continue => for_each rest body
      end
  end.

(** Requests are served in order, each no earlier than its time stamp. *)
Fixpoint deliver (t : Z) (reqs : list (Z * Request)) (s : State)
    : list (Z * Request) * State :=
  match reqs with
  | [] => ([], s)
  | (u, r) :: rest =>
      if u <=? t then deliver t rest (handle r s) else (reqs, s)
  end.

(** [with state_lock: ...]: the handlers that ran since the last acquisition
    have taken effect, then the block runs on the state. *)
Definition locked {A} (f : State -> A * State) : M A := fun w =>
  let '(p, s) := deliver (now w) (pending w) (st w) in
  let '(a, s') := f s in
  (Ret a, with_pending p (with_st s' w)).

Definition read_running : M bool := locked (fun s => (is_running s, s)).
Definition update (f : State -> State) : M unit := locked (fun s => (tt, f s)).

(** [time.sleep(ms)]: the clock advances by the duration (in milliseconds). *)
Definition time_sleep (ms : Z) : M unit := fun w =>
  (Ret tt, with_now (now w + Z.max 0 ms) w).

Definition emit (e : Event) : M unit := fun w =>
  (Ret tt, with_trace (e :: trace w) w).

Definition print (msg : string) : M unit := emit (EvPrint msg).

(** Ask the environment; every consultation has its own number. *)
Definition consult {A} (f : nat -> A) : M A := fun w =>
  (Ret (f (tick w)), with_tick (S (tick w)) w).

Definition get_lv : M Locals := fun w => (Ret (lv w), w).
Definition put_lv (x : Locals) : M unit := fun w => (Ret tt, with_lv x w).

Definition hang {A} : M A := fun w => (Hang, w).

(** ** Pacing helpers *)

(** The worker is held while both flags are set. *)
Definition blocked (s : State) : bool := is_paused s && is_running s.

(** The polling quantum of [time.sleep(0.1)], in milliseconds. *)
Definition QUANTUM : Z := 100.

(** The loop of [_wait_if_paused]. The fuel counts the polls left before the
    last pending request has been served; a worker still held at that point
    is held for ever. *)
Fixpoint wait_loop (fuel : nat) : M unit :=
  flags <- locked (fun s => ((is_paused s, is_running s), s)) ;;
  if negb (snd flags) || negb (fst flags) then ret tt
  else match fuel with
       | O => hang
       | S f => time_sleep QUANTUM ;;; wait_loop f
       end.

Definition last_stamp (reqs : list (Z * Request)) (t0 : Z) : Z :=
  fold_right (fun ur acc => Z.max (fst ur) acc) t0 reqs.

Definition poll_bound (w : World) : nat :=
  Z.to_nat ((last_stamp (pending w) (now w) - now w + 99) / QUANTUM).

Definition _wait_if_paused : M unit := fun w => wait_loop (poll_bound w) w.

(** The loop of [sleep_with_pause]; [end_] is the deadline. Every round
    advances the clock, so a fuel of the milliseconds left is never used up. *)
Fixpoint sleep_loop (fuel : nat) (end_ : Z) : M unit := fun w =>
  if now w <? end_ then
    match fuel with
    | O => (Ret tt, w)
    | S f =>
        (running <- read_running ;;
         if negb running then ret tt
         else
           _wait_if_paused ;;;
           (fun w1 => time_sleep (Z.min QUANTUM (Z.max 0 (end_ - now w1))) w1) ;;;
           sleep_loop f end_) w
    end
  else (Ret tt, w).

Definition sleep_with_pause (ms : Z) : M unit := fun w =>
  let end_ := now w + Z.max 0 ms in
  sleep_loop (Z.to_nat (end_ - now w)) end_ w.

(** ** The worker *)

Record ProfileTask := mkProfile {
  p_name : option string;
  p_directory : option string;
  p_path : option string }.

Definition MAX_ACTIVE_BROWSERS : nat := 2.

Definition default_mqueries : list string :=
  ["weather today"; "top news"; "sports scores"; "nearby restaurants"; "time now"].

Section Worker.

Variable E : Env.

(** [random.uniform(lo, hi)], in milliseconds. *)
Definition random_uniform (lo hi : Z) : M Z :=
  x <- consult (uniform E) ;;
  ret (Z.max lo (Z.min hi x)).

(** One [pyautogui] call: it raises, or the action is performed. *)
Definition gui (a : GuiAction) : M unit :=
  r <- consult (gui_raises E) ;;
  match r with
  | Some e => raise e
  | None => emit (EvGui a)
  end.

(** [launch_browser]: a handle, or [None] when nothing could be launched. *)
Definition launch_browser (browser : string) (directory : option string)
    : M (option nat) := fun w =>
  (ok <- consult (launch_ok E) ;;
   emit (EvLaunch browser directory ok) ;;;
   ret (if ok then Some (tick w) else None)) w.

Definition launch_mobile_browser (browser : string) (directory : option string)
    : M (option nat) := fun w =>
  (ok <- consult (launch_ok E) ;;
   emit (EvLaunchMobileUA browser directory ok) ;;;
   ret (if ok then Some (tick w) else None)) w.

(** [bump_profile_progress] with its file access, which may fail. *)
Definition bump_profile_progress_io (name : string) (is_pc : bool) (delta : Z)
    : M unit :=
  ok <- consult (io_ok E) ;;
  if ok
  then fun w => (Ret tt, with_info
                   (bump_profile_progress (today E) name is_pc delta (info w)) w)
  else raise (PyException "OSError").

(** [try: p.terminate(); sleep_with_pause(0.5);
         if p.poll() is None: p.kill()
     except: pass]. *)
Definition terminate_process (pid : nat) : M unit :=
  try_except
    (ok <- consult (terminate_ok E) ;;
     (if ok then emit (EvTerminate pid) else raise (PyException "OSError")) ;;;
     sleep_with_pause 500 ;;;
     alive <- consult (poll_alive E) ;;
     if alive then emit (EvKill pid) else ret tt)
    (fun _ => ret tt).

(** The four native input actions of one search. *)
Definition native_search (q : string) : M unit :=
  gui HotkeyCtrlT ;;; sleep_with_pause 500 ;;;
  gui HotkeyCtrlL ;;; sleep_with_pause 300 ;;;
  gui (Typewrite q) ;;; sleep_with_pause 200 ;;;
  gui PressEnter.

Definition set_l_completed (c : Z) (l : Locals) : Locals :=
  mkLocals c (browser_processes l) (completed_profiles l).
Definition set_browser_processes (x : list (nat * string)) (l : Locals) : Locals :=
  mkLocals (l_completed l) x (completed_profiles l).
Definition set_completed_profiles (x : list string) (l : Locals) : Locals :=
  mkLocals (l_completed l) (browser_processes l) x.

(** One round of the desktop query loop. *)
Definition desktop_query (delay : Z) (name q : string) : M LoopCtl :=
  _wait_if_paused ;;;
  running <- read_running ;;
  if negb running then ret Break
  else
    update (fun s => set_status ("Searching for: " +:+ q) (set_current_search q s)) ;;;
    try_except (native_search q) (fun _ => print "pyautogui error:") ;;;
    l <- get_lv ;;
    put_lv (set_l_completed (l_completed l + 1) l) ;;;
    update (desktop_progress_update name (l_completed l + 1)) ;;;
    try_except (bump_profile_progress_io name true 1) (fun _ => ret tt) ;;;
    j <- random_uniform 150 600 ;;
    sleep_with_pause (Z.max 100 (delay + j)) ;;;
    ret Continue.

(** [close_browser_windows]: best effort, it never raises. *)
Definition close_browser_windows (browser : string) : M unit :=
  emit (EvCloseWindows browser).

(** The window cap applied after a profile's desktop pass. *)
Definition cap_policy (browser name : string) : M unit :=
  l <- get_lv ;;
  if (MAX_ACTIVE_BROWSERS <? length (completed_profiles l))%nat then
    try_except
      (close_browser_windows browser ;;;
       (l1 <- get_lv ;;
        match browser_processes l1 with
        | (oldest_process, _) :: rest =>
            put_lv (set_browser_processes rest l1) ;;;
            terminate_process oldest_process
        | [] => ret tt
        end) ;;;
       (l2 <- get_lv ;;
        match completed_profiles l2 with
        | _ :: rest => put_lv (set_completed_profiles rest l2)
        | [] => raise (PyException "IndexError")
        end) ;;;
       sleep_with_pause 2000 ;;;
       update (set_status ("Freed memory, continuing with " +:+ name)))
      (fun _ => print "Memory mgmt error:")
  else ret tt.

(** [mobile_enabled and bool(elig.get("mobile")) and MOBILE_SEARCH_COUNT > 0]. *)
Definition mobile_ok (s : State) (name : string) : bool :=
  mobile_enabled s
  && default false (profile_eligibility s !! name ≫= el_mobile)
  && (0 <? MOBILE_SEARCH_COUNT E).

(** One round of the mobile query loop; [search] is the strategy in use. *)
Definition mobile_query (search : string -> M unit) (on_error : string)
    (lo hi : Z) (delay : Z) (name mq : string) : M LoopCtl :=
  _wait_if_paused ;;;
  running <- read_running ;;
  if negb running then ret Break
  else
    update (fun s => set_status ("Mobile searching: " +:+ mq)
                       (set_current_search (mq +:+ " [m]") s)) ;;;
    try_except (search mq) (fun _ => print on_error) ;;;
    update (mobile_progress_update (MOBILE_SEARCH_COUNT E) name) ;;;
    try_except (bump_profile_progress_io name false 1) (fun _ => ret tt) ;;;
    j <- random_uniform lo hi ;;
    sleep_with_pause (Z.max 100 (delay + j)) ;;;
    ret Continue.

(** [mobile.search(mq, click_probability=0.4)]: done, or an exception. *)
Definition playwright_search (mq : string) : M unit :=
  ok <- consult (pw_search_ok E) ;;
  if ok then emit (EvMobileSearch mq) else raise (PyException "PlaywrightError").

(** The [with MobileSearcher(profile=name) as mobile: ...] block. *)
Definition playwright_pass (delay : Z) (name : string) (mqueries : list string)
    : M unit :=
  update (set_status ("Opening Playwright mobile for: " +:+ name)) ;;;
  ok <- consult (pw_open_ok E) ;;
  emit (EvMobileOpen name ok) ;;;
  if ok then
    try_finally
      (for_each mqueries
         (mobile_query playwright_search "Playwright mobile error:" 300 900 delay name))
      (emit (EvMobileClose name))
  else raise (PyException "PlaywrightError").

(** The mobile UA window fallback. *)
Definition fallback_pass (delay : Z) (browser name : string)
    (directory : option string) (mqueries : list string) : M unit :=
  update (set_status ("Opening " +:+ browser +:+ " (mobile UA) for profile: " +:+ name)) ;;;
  mproc <- launch_mobile_browser browser directory ;;
  match mproc with
  | Some h =>
      l <- get_lv ;;
      put_lv (set_browser_processes
                (browser_processes l ++ [(h, name +:+ " (mobile)")]) l)
  | None => ret tt
  end ;;;
  sleep_with_pause 3000 ;;;
  for_each mqueries
    (mobile_query native_search "pyautogui error (mobile fallback):" 150 600 delay name).

(** The mobile part of a profile's round, from the eligibility check on. *)
Definition mobile_phase (fruits : list string) (delay : Z) (browser name : string)
    (directory : option string) : M unit :=
  r <- locked (fun s => ((mobile_ok s name, mobile_progress s !! name), s)) ;;
  if negb (fst r) then ret tt
  else
    update (fun s =>
              match snd r with
              | None => set_mobile_progress
                          (<[name := mkEntry 0 (MOBILE_SEARCH_COUNT E)]> (mobile_progress s)) s
              | Some _ => s
              end) ;;;
    let mqueries :=
      match Query._build_queries fruits (MOBILE_SEARCH_COUNT E) with
      | [] => default_mqueries
      | qs => qs
      end in
    finished <-
      (if _HAVE_PLAYWRIGHT E then
         try_except (playwright_pass delay name mqueries ;;; ret true)
           (fun _ => print "Playwright init/runtime failed, fallback:" ;;; ret false)
       else ret false) ;;
    if finished : bool then ret tt
    else fallback_pass delay browser name directory mqueries.

(** One round of the profile loop. *)
Definition run_profile (fruits : list string) (delay : Z) (browser : string)
    (profile : ProfileTask) : M LoopCtl :=
  running <- read_running ;;
  if negb running then ret Break
  else
    name <- match p_name profile with
            | Some n => ret n
            | None => raise (PyException "KeyError")
            end ;;
    let directory := p_directory profile in
    desktop_total <-
      locked (fun s =>
                let s' := set_status ("Opening " +:+ browser +:+ " for profile: " +:+ name)
                            (set_current_profile name s) in
                (match profile_progress s' !! name with
                 | Some e => e_total e
                 | None => Z.of_nat (length fruits)
                 end, s')) ;;
    proc <- launch_browser browser directory ;;
    match proc with
    | Some h =>
        l <- get_lv ;;
        put_lv (set_browser_processes (browser_processes l ++ [(h, name)]) l)
    | None => ret tt
    end ;;;
    sleep_with_pause 3000 ;;;
    for_each (Query._build_queries fruits desktop_total) (desktop_query delay name) ;;;
    (l <- get_lv ;;
     put_lv (set_completed_profiles (completed_profiles l ++ [name]) l)) ;;;
    cap_policy browser name ;;;
    mobile_phase fruits delay browser name directory ;;;
    ret Continue.

(** The last block of the teardown, under the lock. *)
Definition final_reset (s : State) : State :=
  let s1 := set_is_running false s in
  let s2 := set_status (if completed s1 >=? total s1
                        then "Automation completed" else "Automation stopped") s1 in
  set_is_paused false (set_current_profile "" (set_current_search "" s2)).

(** The [finally] block of the worker. *)
Definition teardown : M unit :=
  try_finally
    (l <- get_lv ;;
     for_each (browser_processes l)
       (fun p => terminate_process (fst p) ;;; ret Continue))
    (update final_reset).

Definition default_profile : ProfileTask := mkProfile (Some "Default") None None.

Definition automation_worker (fruits : list string) (delay : Z) (browser : string)
    (profiles : list ProfileTask) : M unit :=
  let profiles := match profiles with [] => [default_profile] | _ => profiles end in
  put_lv (mkLocals 0 [] []) ;;;
  try_finally
    (try_except
       (for_each profiles (run_profile fruits delay browser))
       (fun e =>
          match e with
          | FailSafeException => print "Failsafe: mouse moved to top-left. Stopping."
          | PyException _ => print "Automation error:"
          end))
    teardown.

(** The thread body [worker] that [start_automation] spawns. *)
Definition worker (fruits : list string) (delay : Z) (browser : string)
    (profiles : list ProfileTask) : M unit :=
  try_finally (automation_worker fruits delay browser profiles)
    (update (set_is_running false)).

End Worker.

(** ** Run start: [/api/start] *)

(** The body of the request, with the defaults of [data.get] filled in;
    the delay is in milliseconds. *)
Record StartRequest := mkStartRequest {
  r_fruits : list string;
  r_delay : Z;
  r_browser : string;
  r_selectedProfiles : list ProfileTask;
  r_useDefaultIfNoProfile : bool;
  r_mobileEnabled : bool }.

(** Python truthiness of an optional string: [None] and [""] are false. *)
Definition truthy (o : option string) : option string :=
  match o with
  | Some "" => None
  | other => other
  end.

(** [p.get("name") or p.get("directory") or "Default"]. *)
Definition profile_key (p : ProfileTask) : string :=
  match truthy (p_name p) with
  | Some n => n
  | None => default "Default" (truthy (p_directory p))
  end.

(** The "Resolve profiles" block; the second component is the new
    [selected_profiles_memory]. *)
Definition resolve_profiles (memory : gmap string (list ProfileTask)) (req : StartRequest)
    : list ProfileTask * gmap string (list ProfileTask) :=
  let browser := r_browser req in
  let '(profiles, memory') :=
    if bool_decide (browser = "chrome") || bool_decide (browser = "edge") then
      match r_selectedProfiles req with
      | _ :: _ => (r_selectedProfiles req, <[browser := r_selectedProfiles req]> memory)
      | [] =>
          match memory !! browser with
          | Some (q :: qs) => (q :: qs, memory)
          | _ => if r_useDefaultIfNoProfile req
                 then ([mkProfile (Some "Default") (Some "Default") (Some "Default")], memory)
                 else ([], memory)
          end
      end
    else ([], memory) in
  (match profiles with
   | [] => [mkProfile (Some "Default") None None]
   | _ => profiles
   end, memory').

(** The values accumulated by the "Totals by Level" loop. *)
Record Seed := mkSeed {
  sd_profile_progress : gmap string Entry;
  sd_profile_points : gmap string Points;
  sd_profile_eligibility : gmap string Elig;
  sd_mobile_progress : gmap string Entry;
  sd_total_searches : Z;
  sd_info : gmap string InfoEntry }.

(** The desktop quota of a level: [10 if lvl == 1 else 32]. *)
Definition desktop_quota (lvl : Z) : Z := if lvl =? 1 then 10 else 32.

(** One round of the "Totals by Level" loop; [clock] is [int(time.time())]. *)
Definition seed_step (E : Env) (mobile_enabled : bool) (clock : Z)
    (acc : Seed) (p : ProfileTask) : Seed :=
  let name := profile_key p in
  let '(entry, info') := get_or_init_profile (today E) (sd_info acc) name in
  let lvl := default 1 (i_level entry) in
  let desktop_total := desktop_quota lvl in
  let mobile_ok := lvl =? 2 in
  mkSeed
    (<[name := mkEntry 0 desktop_total]> (sd_profile_progress acc))
    (<[name := mkPoints None lvl clock]> (sd_profile_points acc))
    (<[name := mkElig (Some mobile_ok) (if mobile_ok then "" else "level < 2")]>
       (sd_profile_eligibility acc))
    (if mobile_enabled && mobile_ok && (0 <? MOBILE_SEARCH_COUNT E)
     then <[name := mkEntry 0 (MOBILE_SEARCH_COUNT E)]> (sd_mobile_progress acc)
     else sd_mobile_progress acc)
    (sd_total_searches acc + desktop_total)
    info'.

Definition seed (E : Env) (mobile_enabled : bool) (clock : Z)
    (info : gmap string InfoEntry) (profiles : list ProfileTask) : Seed :=
  fold_left (seed_step E mobile_enabled clock) profiles (mkSeed ∅ ∅ ∅ ∅ 0 info).

(** What a successful start leaves behind: the seeded state, the store, the
    profile memory, and the arguments of the worker it spawns. *)
Record Started := mkStarted {
  sr_state : State;
  sr_info : gmap string InfoEntry;
  sr_memory : gmap string (list ProfileTask);
  sr_profiles : list ProfileTask;
  sr_delay : Z }.

Definition start_automation (E : Env) (clock : Z) (req : StartRequest)
    (s : State) (info : gmap string InfoEntry)
    (memory : gmap string (list ProfileTask)) : string + Started :=
  if is_running s then inl "Automation is already running"
  else
    match r_fruits req with
    | [] => inl "No fruits provided"
    | _ :: _ =>
        let delay := if r_delay req <? 500 then 3000 else r_delay req in
        let '(profiles, memory') := resolve_profiles memory req in
        let sd := seed E (r_mobileEnabled req) clock info profiles in
        inr (mkStarted
               (mkState true "Starting automation..." 0%Q
                  (current_search s) (current_profile s)
                  0 (sd_total_searches sd) false
                  (sd_profile_progress sd)
                  (sd_profile_points sd ∪ profile_points s)
                  (sd_profile_eligibility sd)
                  (r_mobileEnabled req)
                  (sd_mobile_progress sd))
               (sd_info sd) memory' profiles delay)
    end.

(** A run from start to the end of the worker: the requests in [reqs] arrive
    at their time stamps while the worker is running. *)
Definition run (E : Env) (clock : Z) (req : StartRequest) (s : State)
    (info : gmap string InfoEntry) (memory : gmap string (list ProfileTask))
    (reqs : list (Z * Request)) : string + Result unit * World :=
  match start_automation E clock req s info memory with
  | inl err => inl err
  | inr sr =>
      inr (worker E (r_fruits req) (sr_delay sr) (r_browser req)
             (sr_profiles sr)
             (mkWorld (sr_state sr) (sr_info sr) (mkLocals 0 [] []) reqs 0 0 []))
  end.

(** ** Notions used to state the properties *)

(** The state a lock acquisition at time [t] would see. *)
Definition snapshot (w : World) (t : Z) : State := snd (deliver t (pending w) (st w)).

(** What links a world to a later one in which only time has passed and
    requests have been served. *)
Record later (w w' : World) : Prop := mkLater {
  later_now : now w <= now w';
  later_served : exists u, u <= now w' /\ deliver u (pending w) (st w) = (pending w', st w');
  later_info : info w' = info w;
  later_lv : lv w' = lv w;
  later_tick : tick w' = tick w;
  later_trace : trace w' = trace w }.

(** [keeps R m]: running [m] takes every world to one related to it by [R],
    whatever the outcome. *)
Definition keeps {A} (R : World -> World -> Prop) (m : M A) : Prop :=
  forall w, R w (m w).2.

(** [safe I m]: from a world in [I], [m] ends in [I] and does not block. *)
Definition safe {A} (I : World -> Prop) (m : M A) : Prop :=
  forall w, I w -> I (m w).2 /\ (m w).1 <> Hang.

(** [quiet m]: [m] lets no exception escape. *)
Definition quiet {A} (m : M A) : Prop := forall w e, (m w).1 <> Raise e.

(** A worker that is not paused and will not be. *)
Definition unpausable (w : World) : Prop :=
  is_paused (st w) = false /\ Forall (fun ur => ur.2 <> Pause) (pending w).

(** The state the teardown leaves behind. *)
Definition torn_down (s : State) : Prop :=
  is_running s = false /\ is_paused s = false /\
  current_search s = "" /\ current_profile s = "" /\
  status s = if completed s >=? total s
             then "Automation completed" else "Automation stopped".

(** The fields of the state that only the worker writes. *)
Definition data_eq (s s' : State) : Prop :=
  progress s' = progress s /\ completed s' = completed s /\ total s' = total s /\
  profile_progress s' = profile_progress s /\ profile_points s' = profile_points s /\
  profile_eligibility s' = profile_eligibility s /\
  mobile_enabled s' = mobile_enabled s /\ mobile_progress s' = mobile_progress s.

(** Nothing but the control fields of the state, the clock and the
    environment has changed. *)
Definition steady (w w' : World) : Prop :=
  data_eq (st w) (st w') /\ info w' = info w /\ lv w' = lv w.

(** The trace has only been extended. *)
Definition grows (w w' : World) : Prop := exists l, trace w' = l ++ trace w.



(** Every entry is within its total. *)
Definition entries_ok (m : gmap string Entry) : Prop :=
  forall name e, m !! name = Some e -> e_done e <= e_total e.

(** Every entry is still there, with the same total and no less done. *)
Definition entries_le (m m' : gmap string Entry) : Prop :=
  forall name e, m !! name = Some e ->
    exists e', m' !! name = Some e' /\ e_total e' = e_total e /\ e_done e <= e_done e'.

Definition advances (s s' : State) : Prop :=
  entries_ok (profile_progress s) /\ entries_ok (mobile_progress s) ->
  (entries_ok (profile_progress s') /\ entries_ok (mobile_progress s')) /\
  entries_le (profile_progress s) (profile_progress s') /\
  entries_le (mobile_progress s) (mobile_progress s').

Definition progress_mono (w w' : World) : Prop := advances (st w) (st w').

(** The level a profile counts with: the stored one (1 when none is stored),
    normalised as [get_or_init_profile] does. *)
Definition stored_level (info : gmap string InfoEntry) (name : string) : Z :=
  default 1 (i_level (default empty_entry (info !! name))).

Definition lvl_of (info : gmap string InfoEntry) (name : string) : Z :=
  norm_level (stored_level info name).

Definition Zsum (l : list Z) : Z := foldr Z.add 0 l.

Definition seeded_entry (info : gmap string InfoEntry) (name : string) : Entry :=
  mkEntry 0 (desktop_quota (lvl_of info name)).

Definition seeded_elig (info : gmap string InfoEntry) (name : string) : Elig :=
  let ok := lvl_of info name =? 2 in
  mkElig (Some ok) (if ok then "" else "level < 2").

Definition seeds_mobile (E : Env) (mobile_enabled : bool)
    (info : gmap string InfoEntry) (name : string) : bool :=
  mobile_enabled && (lvl_of info name =? 2) && (0 <? MOBILE_SEARCH_COUNT E).

(** The desktop counter of a profile as stored, and as it counts today. *)
Definition stored_pc (info : gmap string InfoEntry) (name : string) : option Z :=
  info !! name ≫= i_pc.


(** ** Counting queries against the total *)

(** The run is within its budget: with the total [T] and the seeded entries
    [pp0], [B] more queries may still be counted. *)
Definition within_budget (T : Z) (pp0 : gmap string Entry) (B : Z) (w : World) : Prop :=
  total (st w) = T /\
  (forall name, e_total <$> profile_progress (st w) !! name = e_total <$> pp0 !! name) /\
  0 <= completed (st w) <= l_completed (lv w) /\
  l_completed (lv w) + B <= T /\
  (0 <= progress (st w) <= 100)%Q.

(** [m] counts at most [n] queries. *)
Definition spends_budget (T : Z) (pp0 : gmap string Entry) {A} (n : Z) (m : M A) : Prop :=
  forall B w, 0 <= B -> within_budget T pp0 (B + n) w -> within_budget T pp0 B (m w).2.

(** The queries a profile may count: its seeded total, or one per topic
    when it was not seeded. *)
Definition query_cost (pp0 : gmap string Entry) (fruits : list string) (p : ProfileTask) : Z :=
  match p_name p with
  | Some n => Z.max 0 (default (Z.of_nat (length fruits)) (e_total <$> pp0 !! n))
  | None => 0
  end.

(** A profile that carries a non-empty name. *)
Definition well_named (p : ProfileTask) : Prop :=
  exists n, p_name p = Some n /\ n <> "".

(** ** Sample inputs *)

(** An environment in which every collaborator succeeds, the mobile
    automation runtime is not installed and 20 mobile searches are configured. *)
Definition E0 : Env :=
  mkEnv (fun _ => None) (fun _ => true) (fun _ => true) (fun _ => true)
    (fun _ => true) (fun _ => true) (fun _ => false) (fun _ => 150)
    "2025-01-01" 20 false.

(** The same, with every native input action raising the fail-safe. *)
Definition E_failsafe : Env :=
  mkEnv (fun _ => Some FailSafeException) (fun _ => true) (fun _ => true) (fun _ => true)
    (fun _ => true) (fun _ => true) (fun _ => false) (fun _ => 150)
    "2025-01-01" 20 false.

Definition profile_named (n : string) : ProfileTask := mkProfile (Some n) (Some n) None.

(** A store with three level-2 profiles. *)
Definition info_level2 : gmap string InfoEntry :=
  <["A" := mkInfo None (Some 2) None None None]>
    (<["B" := mkInfo None (Some 2) None None None]>
       (<["C" := mkInfo None (Some 2) None None None]> ∅)).

(** Three level-2 profiles, mobile enabled. *)
Definition req_mobile : StartRequest :=
  mkStartRequest ["apple"] 500 "chrome"
    [profile_named "A"; profile_named "B"; profile_named "C"] false true.

(** Four level-1 profiles, mobile disabled. *)
Definition req_desktop : StartRequest :=
  mkStartRequest ["apple"] 500 "chrome"
    [profile_named "A"; profile_named "B"; profile_named "C"; profile_named "D"]
    false false.

(** One profile that has a directory but an empty name, eleven topics. *)
Definition req_unnamed : StartRequest :=
  mkStartRequest ["a"; "b"; "c"; "d"; "e"; "f"; "g"; "h"; "i"; "j"; "k"] 500 "chrome"
    [mkProfile (Some "") (Some "Profile 1") None] false false.

(** A running state seeded for one level-1 profile. *)
Definition seeded_state : State :=
  mkState true "Starting automation..." 0%Q "" "" 0 10 false
    {["Default" := mkEntry 0 10]} ∅ {["Default" := mkElig (Some false) "level < 2"]}
    false ∅.

Definition seeded_world : World :=
  mkWorld seeded_state ∅ (mkLocals 0 [] []) [] 0 0 [].

(** A paused worker, stopped a quarter of a second later. *)
Definition paused_world : World :=
  mkWorld (mkState true "Paused" 0%Q "" "" 0 10 true ∅ ∅ ∅ false ∅)
    ∅ (mkLocals 0 [] []) [(250, Stop)] 0 0 [].

(** A state seeded for a level-2 profile with mobile enabled. *)
Definition mobile_world : World :=
  mkWorld (mkState true "Starting automation..." 0%Q "" "" 0 32 false
             {["A" := mkEntry 0 32]} ∅ {["A" := mkElig (Some true) ""]}
             true {["A" := mkEntry 0 20]})
    ∅ (mkLocals 0 [] []) [] 0 0 [].

(** ** Notions used to state the further properties *)

(** The handlers of a sequence of control requests, served in order. *)
Definition serve (rs : list Request) (s : State) : State :=
  fold_left (fun s r => handle r s) rs s.

(** Events of a trace: a launch that produced a process, a successful
    [terminate()], a forced close of the browser's windows. *)
Definition is_launch (ev : Event) : bool :=
  match ev with
  | EvLaunch _ _ ok => ok
  | EvLaunchMobileUA _ _ ok => ok
  | _ => false
  end.

Definition is_terminate (ev : Event) : bool :=
  match ev with
  | EvTerminate _ => true
  | _ => false
  end.

Definition is_close (ev : Event) : bool :=
  match ev with
  | EvCloseWindows _ => true
  | _ => false
  end.

Definition launches (tr : list Event) : nat := length (List.filter is_launch tr).
Definition terminations (tr : list Event) : nat := length (List.filter is_terminate tr).
Definition closes (tr : list Event) : nat := length (List.filter is_close tr).

(** Neither the trace nor the worker's local variables have changed. *)
Definition untouched (w w' : World) : Prop :=
  trace w' = trace w /\ lv w' = lv w.

(** Every process launched between [w] and [w'] is still tracked in
    [browser_processes] or has been sent [terminate()]. *)
Definition accounted (w w' : World) : Prop :=
  (launches (trace w') + terminations (trace w) + length (browser_processes (lv w))
   = launches (trace w) + terminations (trace w') + length (browser_processes (lv w')))%nat.

(** No window has been force-closed and no profile has been completed. *)
Definition calm (w w' : World) : Prop :=
  closes (trace w') = closes (trace w) /\
  completed_profiles (lv w') = completed_profiles (lv w).

(** At most [k] profiles are completed and [c] forced closes have happened. *)
Definition at_most (c k : nat) (w : World) : Prop :=
  closes (trace w) = c /\ (length (completed_profiles (lv w)) <= k)%nat.

(** [preserves I J m]: from a world in [I], [m] ends in [J], whatever the
    outcome. *)
Definition preserves {A} (I J : World -> Prop) (m : M A) : Prop :=
  forall w, I w -> J (m w).2.

(** ** Levels: [set_level], [/api/levels] and [/api/profile-info]

    As [bump_profile_progress], these are functions on the content of
    [profile_info.json]. *)

Definition set_level (today : string) (profile : string) (level : Z)
    (info : gmap string InfoEntry) : gmap string InfoEntry :=
  let '(entry, info1) := get_or_init_profile today info profile in
  <[profile := mkInfo (i_date entry) (Some (norm_level level)) (i_pc entry)
                 (i_mobile entry) (i_error entry)]> info1.

(** The body of [POST /api/levels]; a missing key is [None], a level is an
    integer. *)
Record LevelRequest := mkLevelRequest {
  lr_profile : option string;
  lr_level : option Z }.

(** The reply is an error message with its status code, or the profile and
    level that were set. *)
Definition api_set_level (today : string) (req : LevelRequest)
    (info : gmap string InfoEntry)
    : (string * Z + string * Z) * gmap string InfoEntry :=
  let level := default 1 (lr_level req) in
  match truthy (lr_profile req) with
  | None => (inl ("missing profile", 400), info)
  | Some profile =>
      if negb ((level =? 1) || (level =? 2))
      then (inl ("level must be 1 or 2", 400), info)
      else (inr (profile, level), set_level today profile level info)
  end.

(** A dictionary object: its identity and its content. [GET /api/levels]
    compares entries with [is not], so its model tracks which object is
    stored under a key. *)
Record Obj := mkObj { o_id : string + nat; o_val : InfoEntry }.

(** The loaded store; [ob_next] numbers the next object made after the load. *)
Record ObjStore := mkObjStore { ob_next : nat; ob_info : gmap string Obj }.

(** [load_profile_info()]: every entry of the file becomes an object of its
    own, identified by the key it was loaded under. *)
Definition load_objects (info : gmap string InfoEntry) : ObjStore :=
  mkObjStore 0 (map_imap (fun k e => Some (mkObj (inl k) e)) info).

(** [get_or_init_profile] on objects: [info.get(profile, {})] makes a new
    object for a missing key, the reset branch makes a new object, the other
    branch updates the entry in place; the object returned is the one
    stored. *)
Definition get_or_init_profile_obj (today : string) (s : ObjStore) (profile : string)
    : Obj * ObjStore :=
  let '(entry, next1) :=
    match ob_info s !! profile with
    | Some o => (o, ob_next s)
    | None => (mkObj (inr (ob_next s)) empty_entry, S (ob_next s))
    end in
  let level := default 1 (i_level (o_val entry)) in
  let '(entry', next2) :=
    if decide (i_date (o_val entry) = Some today)
    then (mkObj (o_id entry)
            (mkInfo (Some today) (Some (norm_level level))
               (Some (default 0 (i_pc (o_val entry))))
               (Some (default 0 (i_mobile (o_val entry))))
               (i_error (o_val entry))), next1)
    else (mkObj (inr next1)
            (mkInfo (Some today) (Some (norm_level level)) (Some 0) (Some 0)
               (i_error (o_val entry))), S next1) in
  (entry', mkObjStore next2 (<[profile := entry']> (ob_info s))).

(** One round of the loop of [api_get_levels]:
    [norm = get_or_init_profile(info, k); if norm is not info[k]: changed = True]. *)
Definition levels_step (today : string) (acc : ObjStore * bool) (k : string)
    : ObjStore * bool :=
  let '(norm, s') := get_or_init_profile_obj today acc.1 k in
  (s', if decide (o_id <$> ob_info s' !! k = Some (o_id norm)) then acc.2 else true).

(** [GET /api/levels]: the levels reported and the content of the file
    afterwards. *)
Definition api_get_levels (today : string) (file : gmap string InfoEntry)
    : gmap string Z * gmap string InfoEntry :=
  let s0 := load_objects file in
  let keys := (map_to_list (ob_info s0)).*1 in
  let '(s, changed) := fold_left (levels_step today) keys (s0, false) in
  ((fun o => default 1 (i_level (o_val o))) <$> ob_info s,
   if changed : bool then o_val <$> ob_info s else file).

(** [GET /api/profile-info]: the reply and the content of the file
    afterwards. *)
Definition api_profile_info (today : string) (file : gmap string InfoEntry)
    : gmap string InfoEntry * gmap string InfoEntry :=
  let keys := (map_to_list file).*1 in
  let info := fold_left (fun acc k => (get_or_init_profile today acc k).2) keys file in
  (info, info).

(** ** Profile discovery: [BrowserProfileManager] and [/api/profiles/<browser>] *)

(** [platform.system()]. *)
Inductive Platform := Windows | Darwin | Linux | OtherSystem.

(** A path, as the list of its components from the anchor on; [p / name]
    appends a component. *)
Definition Path : Type := list string.

(** What discovery reads of the host: the platform, [Path.home()], the path
    of [%LOCALAPPDATA%] (the empty path when the variable is not set), the
    file system tests, the names of the children of a directory ([None]
    when listing it raises), and the text of a path. *)
Record Host := mkHost {
  h_system : Platform;
  h_home : Path;
  h_localappdata : Path;
  h_exists : Path -> bool;
  h_is_dir : Path -> bool;
  h_iterdir : Path -> option (list string);
  h_str : Path -> string }.

(** [for name in names: p = home / ".config" / name; if p.exists(): return p]. *)
Fixpoint first_config_dir (H : Host) (names : list string) : option Path :=
  match names with
  | [] => None
  | name :: rest =>
      let p := h_home H ++ [".config"; name] in
      if h_exists H p then Some p else first_config_dir H rest
  end.

Definition existing (H : Host) (p : Path) : option Path :=
  if h_exists H p then Some p else None.

Module ChromeProfileManager.
Definition _get_user_data_dir (H : Host) : option Path :=
  match h_system H with
  | Windows => existing H (h_localappdata H ++ ["Google"; "Chrome"; "User Data"])
  | Darwin => existing H (h_home H ++ ["Library"; "Application Support"; "Google"; "Chrome"])
  | Linux =>
      first_config_dir H
        ["google-chrome"; "google-chrome-stable"; "chromium"; "chromium-browser"]
  | OtherSystem => None
  end.
End ChromeProfileManager.

Module EdgeProfileManager.
Definition _get_user_data_dir (H : Host) : option Path :=
  match h_system H with
  | Windows => existing H (h_localappdata H ++ ["Microsoft"; "Edge"; "User Data"])
  | Darwin => existing H (h_home H ++ ["Library"; "Application Support"; "Microsoft Edge"])
  | Linux => first_config_dir H ["microsoft-edge"; "microsoft-edge-stable"]
  | OtherSystem => None
  end.
End EdgeProfileManager.

Module BrowserProfileManager.
(** The directory names collected in [out]; [None] when listing the
    directory raises. *)
Definition profile_dirs (H : Host) (dir : Path) : option (list string) :=
  let default_dir := dir ++ ["Default"] in
  let out := if h_exists H default_dir && h_is_dir H default_dir then ["Default"] else [] in
  match h_iterdir H dir with
  | None => None
  | Some items =>
      Some (out ++ List.filter
                     (fun name => h_is_dir H (dir ++ [name]) && String.prefix "Profile " name)
                     items)
  end.

Definition get_available_profiles (H : Host) (user_data_dir : option Path)
    : option (list ProfileTask) :=
  match user_data_dir with
  | None => Some []
  | Some dir =>
      if negb (h_exists H dir) then Some []
      else
        match profile_dirs H dir with
        | None => None
        | Some out =>
            Some (map (fun d => mkProfile (Some d) (Some d) (Some (h_str H (dir ++ [d])))) out)
        end
  end.
End BrowserProfileManager.

(** [str.lower()] on ASCII letters. The endpoints compare the lowered text
    with ASCII words in which no letter is the lower case of a character
    outside ASCII, so the comparison comes out as in Python for every
    UTF-8 text. *)
Definition lower_ascii (c : Ascii.ascii) : Ascii.ascii :=
  let n := Ascii.nat_of_ascii c in
  if (65 <=? n)%nat && (n <=? 90)%nat then Ascii.ascii_of_nat (n + 32) else c.

Fixpoint py_lower (s : string) : string :=
  match s with
  | EmptyString => EmptyString
  | String c rest => String (lower_ascii c) (py_lower rest)
  end.

(** [GET /api/profiles/<browser>]: the profiles of the reply. *)
Definition get_browser_profiles (H : Host) (browser : string) : option (list ProfileTask) :=
  let b := py_lower browser in
  if bool_decide (b = "chrome") then
    BrowserProfileManager.get_available_profiles H (ChromeProfileManager._get_user_data_dir H)
  else if bool_decide (b = "edge") then
    BrowserProfileManager.get_available_profiles H (EdgeProfileManager._get_user_data_dir H)
  else Some [].

(** [GET /api/profiles]. *)
Definition get_profiles (H : Host) : option (list ProfileTask) :=
  BrowserProfileManager.get_available_profiles H (ChromeProfileManager._get_user_data_dir H).

(** ** Launch commands: [launch_browser], [launch_mobile_browser],
    [close_browser_windows]

    The launchers of the worker above answer as the environment says; here
    they are given with the commands they build. *)

Module Launcher.

(** A call of [subprocess.Popen]: its argument list and its [shell] flag. *)
Record Command := mkCommand { c_argv : list string; c_shell : bool }.

(** What the call does: the process is started, the program is not found,
    or another error is raised. *)
Inductive PopenResult := Started | NotFound | OtherError.

(** [if profile_dir: cmd += [f"--profile-directory={profile_dir}"]]. *)
Definition profile_arg (profile_dir : option string) : list string :=
  match truthy profile_dir with
  | Some d => ["--profile-directory=" +:+ d]
  | None => []
  end.

(** One call inside the outer [try]: the handle, or [None] when it raises.
    The second component lists the calls made. *)
Definition once (popen : Command -> PopenResult) (cmd : Command)
    : option Command * list Command :=
  match popen cmd with
  | Started => (Some cmd, [cmd])
  | _ => (None, [cmd])
  end.

(** [for c in candidates: try: return Popen(cmd(c)) except FileNotFoundError: pass];
    any other error leaves the loop for the outer handler. *)
Fixpoint try_each (popen : Command -> PopenResult) (cmd : string -> Command)
    (candidates : list string) : option Command * list Command :=
  match candidates with
  | [] => (None, [])
  | c :: rest =>
      match popen (cmd c) with
      | Started => (Some (cmd c), [cmd c])
      | NotFound =>
          let '(r, tried) := try_each popen cmd rest in (r, cmd c :: tried)
      | OtherError => (None, [cmd c])
      end
  end.

Definition app_map (browser : string) : option string :=
  if bool_decide (browser = "chrome") then Some "Google Chrome"
  else if bool_decide (browser = "edge") then Some "Microsoft Edge"
  else if bool_decide (browser = "firefox") then Some "Firefox"
  else if bool_decide (browser = "brave") then Some "Brave Browser"
  else None.

Definition launch_browser (system : Platform) (popen : Command -> PopenResult)
    (browser : string) (profile_dir : option string) : option Command * list Command :=
  match system with
  | Windows =>
      if bool_decide (browser = "chrome")
      then once popen (mkCommand (["start"; "chrome"] ++ profile_arg profile_dir) true)
      else if bool_decide (browser = "edge")
      then once popen (mkCommand (["start"; "msedge"] ++ profile_arg profile_dir) true)
      else if bool_decide (browser = "firefox")
      then once popen (mkCommand ["start"; "firefox"] true)
      else if bool_decide (browser = "brave")
      then once popen (mkCommand ["start"; "brave"] true)
      else (None, [])
  | Darwin =>
      match app_map browser with
      | Some app =>
          once popen (mkCommand (["open"; "-a"; app; "--args"] ++ profile_arg profile_dir) false)
      | None => (None, [])
      end
  | _ =>
      if bool_decide (browser = "chrome")
      then try_each popen (fun c => mkCommand ([c] ++ profile_arg profile_dir) false)
             ["google-chrome"; "google-chrome-stable"; "chromium-browser"; "chromium"]
      else if bool_decide (browser = "edge")
      then try_each popen (fun c => mkCommand ([c] ++ profile_arg profile_dir) false)
             ["microsoft-edge"; "microsoft-edge-stable"]
      else if bool_decide (browser = "firefox")
      then once popen (mkCommand ["firefox"] false)
      else if bool_decide (browser = "brave")
      then once popen (mkCommand ["brave-browser"] false)
      else (None, [])
  end.

Definition mobile_app_map (browser : string) : option string :=
  if bool_decide (browser = "chrome") then Some "Google Chrome"
  else if bool_decide (browser = "edge") then Some "Microsoft Edge"
  else None.

(** [MOBILE_UA] and [MOBILE_WINDOW_SIZE] are read from the process
    environment; they are arguments here. *)
Definition launch_mobile_browser (MOBILE_UA MOBILE_WINDOW_SIZE : string)
    (system : Platform) (popen : Command -> PopenResult)
    (browser : string) (profile_dir : option string) : option Command * list Command :=
  let size_flag := "--window-size=" +:+ MOBILE_WINDOW_SIZE in
  let ua_flag := "--user-agent=" +:+ MOBILE_UA in
  match system with
  | Windows =>
      if bool_decide (browser = "chrome")
      then once popen (mkCommand (["start"; "chrome"] ++ profile_arg profile_dir
                                    ++ [ua_flag; size_flag]) true)
      else if bool_decide (browser = "edge")
      then once popen (mkCommand (["start"; "msedge"] ++ profile_arg profile_dir
                                    ++ [ua_flag; size_flag]) true)
      else (None, [])
  | Darwin =>
      match mobile_app_map browser with
      | Some app =>
          once popen (mkCommand (["open"; "-a"; app; "--args"] ++ profile_arg profile_dir
                                   ++ [ua_flag; size_flag]) false)
      | None => (None, [])
      end
  | _ =>
      if bool_decide (browser = "chrome")
      then try_each popen
             (fun c => mkCommand ([c] ++ profile_arg profile_dir ++ [ua_flag; size_flag]) false)
             ["google-chrome"; "google-chrome-stable"; "chromium-browser"; "chromium"]
      else if bool_decide (browser = "edge")
      then try_each popen
             (fun c => mkCommand ([c] ++ profile_arg profile_dir ++ [ua_flag; size_flag]) false)
             ["microsoft-edge"; "microsoft-edge-stable"]
      else (None, [])
  end.

(** [close_browser_windows]: the commands it runs; its errors are
    swallowed. *)
Definition close_browser_windows (system : Platform) (browser : string) : list (list string) :=
  match system with
  | Windows =>
      let exe := if bool_decide (browser = "chrome") then "chrome.exe" else "msedge.exe" in
      [["taskkill"; "/IM"; exe; "/F"]]
  | _ => []
  end.

End Launcher.

(** Whether [launch_browser] passes the profile directory on: for chrome
    and edge everywhere, and on macOS for every browser it knows. *)
Definition passes_profile (system : Platform) (browser : string) : bool :=
  bool_decide (browser = "chrome") || bool_decide (browser = "edge")
  || match system with Darwin => true | _ => false end.

(** What the calls of a launcher have to satisfy: the handle returned is
    the last call made, and it started; without a handle no call started;
    every call but the last did not find its program. *)
Definition launch_outcome (popen : Launcher.Command -> Launcher.PopenResult)
    (out : option Launcher.Command * list Launcher.Command) : Prop :=
  (forall cmd, out.1 = Some cmd -> popen cmd = Launcher.Started /\ last out.2 = Some cmd) /\
  (out.1 = None -> forall cmd, cmd ∈ out.2 -> popen cmd <> Launcher.Started) /\
  (forall (i : nat) cmd, out.2 !! i = Some cmd -> (S i < length out.2)%nat ->
     popen cmd = Launcher.NotFound).

(** A host with a Chrome user data directory holding two profiles. *)
Definition sample_host : Host :=
  mkHost Linux ["home"; "user"] []
    (fun p => bool_decide (p = ["home"; "user"; ".config"; "google-chrome"])
              || bool_decide (p = ["home"; "user"; ".config"; "google-chrome"; "Default"]))
    (fun p => negb (bool_decide (p = ["home"; "user"; ".config"; "google-chrome"; "Local State"])))
    (fun p => Some ["Local State"; "Profile 1"; "Default"; "Profile 2"])
    (String.concat "/").

(** A request for the second of the discovered profiles. *)
Definition req_discovered : StartRequest :=
  mkStartRequest ["apple"; "pear"] 500 "chrome"
    [mkProfile (Some "Profile 2") (Some "Profile 2")
       (Some "home/user/.config/google-chrome/Profile 2")] false false.

(** ** Typing a query: [MobileSearcher._type]

    The method is given by the calls it makes on the page and the clock, in
    order, when none of them raises (an error of a call ends the method at
    that call). [random.random()] is a stream of draws, each call taking
    the next one. *)

Module MobileSearcher.
Section Typing.

(** The characters of the text. *)
Variable Ch : Type.

Inductive PageCall :=
| CallClick (sel : string)
| CallPressBackspace
| CallType (ch : Ch) (delay : Q)
| CallSleep (seconds : Q).

(** [random.uniform(a, b)], from the draw it takes. *)
Definition uniform (a b draw : Q) : Q := (a + (b - a) * draw)%Q.

(** [draw < threshold]. *)
Definition below (draw threshold : Q) : bool := negb (Qle_bool threshold draw).

(** The loop variables: [typed], the number of draws taken, and the calls
    made so far. *)
Record Typing := mkTyping {
  t_typed : list Ch;
  t_draws : nat;
  t_calls : list PageCall }.

(** One round of [for ch in text]. *)
Definition type_char (rnd : nat -> Q) (s : Typing) (ch : Ch) : Typing :=
  let s1 :=
    match t_typed s with
    | [] => s
    | _ :: _ =>
        if below (rnd (t_draws s)) (6 # 100)
        then mkTyping (removelast (t_typed s)) (t_draws s + 2)
               (t_calls s ++ [CallPressBackspace;
                              CallSleep (uniform (4 # 100) (12 # 100) (rnd (t_draws s + 1)%nat))])
        else mkTyping (t_typed s) (t_draws s + 1) (t_calls s)
    end in
  let s2 := mkTyping (t_typed s1 ++ [ch]) (t_draws s1 + 1)
              (t_calls s1 ++ [CallType ch (uniform 35 120 (rnd (t_draws s1)))]) in
  if below (rnd (t_draws s2)) (7 # 100)
  then mkTyping (t_typed s2) (t_draws s2 + 2)
         (t_calls s2 ++ [CallSleep (uniform (8 # 100) (25 # 100) (rnd (t_draws s2 + 1)%nat))])
  else mkTyping (t_typed s2) (t_draws s2 + 1) (t_calls s2).

Definition _type (rnd : nat -> Q) (draws : nat) (sel : string) (text : list Ch) : Typing :=
  let s := fold_left (type_char rnd) text (mkTyping [] draws [CallClick sel]) in
  mkTyping (t_typed s) (t_draws s + 1)
    (t_calls s ++ [CallSleep (uniform (15 # 100) (6 # 10) (rnd (t_draws s)))]).

(** What a call does to the content of the focused box: a character is
    appended, Backspace removes the last one. *)
Definition key_effect (box : list Ch) (c : PageCall) : list Ch :=
  match c with
  | CallPressBackspace => removelast box
  | CallType ch _ => box ++ [ch]
  | _ => box
  end.

Definition box_after (calls : list PageCall) (box : list Ch) : list Ch :=
  fold_left key_effect calls box.

(** The characters sent, in order, and the number of Backspace presses. *)
Definition keys_typed (calls : list PageCall) : list Ch :=
  flat_map (fun c => match c with CallType ch _ => [ch] | _ => [] end) calls.

Definition backspaces (calls : list PageCall) : nat :=
  length (List.filter (fun c => match c with CallPressBackspace => true | _ => false end) calls).

End Typing.

Arguments CallClick {Ch}.
Arguments CallPressBackspace {Ch}.
Arguments CallType {Ch}.
Arguments CallSleep {Ch}.
Arguments mkTyping {Ch}.
Arguments t_typed {Ch}.
Arguments t_draws {Ch}.
Arguments t_calls {Ch}.
Arguments type_char {Ch}.
Arguments _type {Ch}.
Arguments key_effect {Ch}.
Arguments box_after {Ch}.
Arguments keys_typed {Ch}.
Arguments backspaces {Ch}.

End MobileSearcher.

(** What the loop of [_type] keeps, for the part [done] of the text behind
    it. *)
Definition typing_inv {Ch : Type} (pre done : list Ch) (rnd : nat -> Q)
    (s : MobileSearcher.Typing Ch) : Prop :=
  MobileSearcher.box_after (MobileSearcher.t_calls s) pre = pre ++ MobileSearcher.t_typed s /\
  MobileSearcher.keys_typed (MobileSearcher.t_calls s) = done /\
  sublist (MobileSearcher.t_typed s) done /\
  (length (MobileSearcher.t_typed s) + MobileSearcher.backspaces (MobileSearcher.t_calls s)
   = length done)%nat /\
  last (MobileSearcher.t_typed s) = last done /\
  ((forall n, MobileSearcher.below (rnd n) (6 # 100) = false) ->
   MobileSearcher.backspaces (MobileSearcher.t_calls s) = 0%nat) /\
  ((forall n, MobileSearcher.below (rnd n) (6 # 100) = true) ->
   (length (MobileSearcher.t_typed s) <= 1)%nat).


(** ** Query generation without a provider: [_fallback_generate_queries]

    Strings are taken as ASCII text: on it [str.strip], [str.lower],
    [str.replace], [str.split] and [str.format] are the functions below. *)

Module Generate.
Import Stdlib.Strings.Ascii.

(** [c.isspace()]. *)
Definition is_space (c : Ascii.ascii) : bool :=
  let n := Ascii.nat_of_ascii c in
  ((9 <=? n)%nat && (n <=? 13)%nat) || ((28 <=? n)%nat && (n <=? 32)%nat).

Fixpoint lstrip (s : string) : string :=
  match s with
  | EmptyString => EmptyString
  | String c rest => if is_space c then lstrip rest else s
  end.

Fixpoint rstrip (s : string) : string :=
  match s with
  | EmptyString => EmptyString
  | String c rest =>
      match rstrip rest with
      | EmptyString => if is_space c then EmptyString else String c EmptyString
      | kept => String c kept
      end
  end.

(** [s.strip()]. *)
Definition strip (s : string) : string := rstrip (lstrip s).

(** [s.replace(old, new)] for a non-empty [old]: the occurrences are taken
    from the left and do not overlap; [skip] counts the characters of an
    occurrence still to be passed over. *)
Fixpoint replace_from (old new : string) (skip : nat) (s : string) : string :=
  match s with
  | EmptyString => EmptyString
  | String c rest =>
      match skip with
      | S k => replace_from old new k rest
      | O =>
          if String.prefix old s
          then new +:+ replace_from old new (String.length old - 1) rest
          else String c (replace_from old new 0 rest)
      end
  end.

Definition replace (old new s : string) : string := replace_from old new 0 s.

(** [s.split(sep)] for a separator of one character. *)
Fixpoint split (sep : Ascii.ascii) (s : string) : list string :=
  match s with
  | EmptyString => [EmptyString]
  | String c rest =>
      if Ascii.eqb c sep then EmptyString :: split sep rest
      else match split sep rest with
           | piece :: pieces => String c piece :: pieces
           | [] => [String c EmptyString]
           end
  end.

(** [t.format(arg)] for a template with one replacement field. *)
Fixpoint format (t arg : string) : string :=
  match t with
  | EmptyString => EmptyString
  | String c rest =>
      match rest with
      | String d rest' =>
          if Ascii.eqb c "{"%char && Ascii.eqb d "}"%char then arg +:+ rest'
          else String c (format rest arg)
      | EmptyString => t
      end
  end.

Definition templates : list string :=
  [ "what is {}"; "how to {}"; "best {} tips"; "latest {} news"; "{} 2025";
    "is {} worth it"; "{} near me"; "{} vs alternatives"; "beginner guide to {}";
    "advanced {} techniques"; "cheap {} ideas"; "top {} mistakes"; "can you {}";
    "why is {} important"; "where to learn {}"; "fast way to {}"; "{} for beginners";
    "{} for experts"; "common {} questions"; "{} step by step"; "simple {} tricks";
    "pro {} settings"; "daily {} routine"; "safe way to {}"; "local {} updates";
    "{} examples"; "explain {} like I'm five"; "best free {} tools";
    "{} troubleshooting"; "{} tutorial" ].

(** [(seed or "interesting topics").strip()]. *)
Definition seed_of (seed : string) : string :=
  strip (if bool_decide (seed = "") then "interesting topics" else seed).

(** [parts], for the stripped seed. *)
Definition parts_of (seed : string) : list string :=
  match List.filter (fun p => negb (bool_decide (p = "")))
          (map strip (split ","%char (replace " and " "," seed))) with
  | [] => [seed]
  | parts => parts
  end.

(** The query of index [i]: [templates[i % len(templates)]] filled with
    [parts[i % len(parts)]]. *)
Definition query_at (parts : list string) (i : nat) : string :=
  format (nth (i mod length templates) templates "")
         (nth (i mod length parts) parts "").

(** The [while len(out) < max(1, count)] loop, on [out] and [i]. *)
Equations? fill (parts : list string) (n : Z) (out : list string) (i : nat)
    : list string by wf (Z.to_nat (n - Z.of_nat (length out))) lt :=
  fill parts n out i with Z_lt_dec (Z.of_nat (length out)) n := {
    | left _ => fill parts n (out ++ [query_at parts i]) (S i);
    | right _ => out }.
Proof. rewrite length_app. simpl. lia. Qed.

(** One round of the loop that drops the queries already seen, ignoring
    case. *)
Definition dedup_step (st : gset string * list string) (q : string)
    : gset string * list string :=
  let lk := py_lower q in
  if bool_decide (lk ∈ st.1) then st else ({[ lk ]} ∪ st.1, st.2 ++ [q]).

Definition _fallback_generate_queries (seed : string) (count : Z) : list string :=
  let seed := seed_of seed in
  let parts := parts_of seed in
  let out := fill parts (Z.max 1 count) [] 0 in
  let dedup := (fold_left dedup_step out (∅, [])).2 in
  Query.py_slice_to dedup count.

End Generate.

(** What the loop over [out] keeps: [dedup] has no two entries equal up to
    case, and [seen] holds exactly their lower-case forms. *)
Definition dedup_inv (st : gset string * list string) : Prop :=
  NoDup (py_lower <$> st.2) /\ (forall x, x ∈ st.1 <-> x ∈ py_lower <$> st.2).


(** ** Provider configuration and query generation: [/api/ai-config] and
    [/api/ai-generate]

    The configuration file holds what this program writes to it: strings
    under the keys it uses, any of which may be missing. *)

Module AiConfig.

(** The settings of one vendor, as the file has them. *)
Record Vendor := mkVendor { api_key : option string; model : option string }.

(** [_load_json(AI_CONFIG_FILE)]: the content of the file; [{}] when the
    file is missing or cannot be read. *)
Record FileConfig := mkFile {
  f_provider : option string;
  f_gemini : option Vendor;
  f_openai : option Vendor }.

(** The configuration after the three [setdefault] calls: the three keys
    exist. *)
Record Config := mkConfig { provider : string; gemini : Vendor; openai : Vendor }.

(** The environment variables read. *)
Record OsEnv := mkOsEnv {
  GEMINI_API_KEY : option string;
  OPENAI_API_KEY : option string;
  GEMINI_MODEL : option string;
  OPENAI_MODEL : option string;
  AI_PROVIDER : option string }.

Definition _load_ai_config (file : FileConfig) : Config :=
  mkConfig (default "auto" (f_provider file))
    (default (mkVendor (Some "") (Some "gemini-1.5-flash")) (f_gemini file))
    (default (mkVendor (Some "") (Some "gpt-4o-mini")) (f_openai file)).

(** The content of the file after [_save_ai_config(cfg)]. *)
Definition _save_ai_config (cfg : Config) : FileConfig :=
  mkFile (Some (provider cfg)) (Some (gemini cfg)) (Some (openai cfg)).

(** [a or b] on strings, [a] possibly [None]. *)
Definition or_else (a : option string) (b : string) : string := default b (truthy a).

(** [os.getenv(...) or cfg.get(vendor, {}).get("api_key", "")] and the same
    for the model; a missing key counts as the empty string, also where the
    code reads it without a default and tests the result. *)
Definition gem_key (env : OsEnv) (cfg : Config) : string :=
  or_else (GEMINI_API_KEY env) (default "" (api_key (gemini cfg))).
Definition gem_model (env : OsEnv) (cfg : Config) : string :=
  or_else (GEMINI_MODEL env) (default "gemini-1.5-flash" (model (gemini cfg))).
Definition oa_key (env : OsEnv) (cfg : Config) : string :=
  or_else (OPENAI_API_KEY env) (default "" (api_key (openai cfg))).
Definition oa_model (env : OsEnv) (cfg : Config) : string :=
  or_else (OPENAI_MODEL env) (default "gpt-4o-mini" (model (openai cfg))).

(** The reply of [GET /api/ai-config]. *)
Record ConfigReply := mkConfigReply {
  cr_provider : string;
  cr_gemini_has_key : bool;
  cr_gemini_model : string;
  cr_openai_has_key : bool;
  cr_openai_model : string }.

Definition api_get_ai_config (env : OsEnv) (file : FileConfig) : ConfigReply :=
  let cfg := _load_ai_config file in
  let has_gemini := bool_decide (gem_key env cfg <> "") in
  let has_openai := bool_decide (oa_key env cfg <> "") in
  mkConfigReply (provider cfg)
    has_gemini (default "gemini-1.5-flash" (model (gemini cfg)))
    has_openai (default "gpt-4o-mini" (model (openai cfg))).

(** The body of [POST /api/ai-config], as [data.get] reads it. *)
Record SetRequest := mkSetRequest {
  s_provider : option string;
  s_vendor : option string;
  s_apiKey : option string;
  s_model : option string;
  s_clear : bool }.

(** The three statements under [if vendor in ("gemini", "openai")], on
    [cfg[vendor]]. *)
Definition set_vendor (new_key new_model : string) (clear : bool) (v : Vendor) : Vendor :=
  let v1 :=
    if clear then mkVendor (Some "") (model v)
    else if bool_decide (new_key <> "") then mkVendor (Some new_key) (model v)
    else v in
  if bool_decide (new_model <> "") then mkVendor (api_key v1) (Some new_model) else v1.

(** [POST /api/ai-config]: the configuration handed to [_save_ai_config]. *)
Definition api_set_ai_config (data : SetRequest) (file : FileConfig) : Config :=
  let cfg := _load_ai_config file in
  let vendor := py_lower (or_else (s_vendor data) "") in
  let new_key := Generate.strip (or_else (s_apiKey data) "") in
  let new_model := Generate.strip (or_else (s_model data) "") in
  let cfg1 :=
    match s_provider data with
    | Some p =>
        if bool_decide (p ∈ ["auto"; "gemini"; "openai"])
        then mkConfig p (gemini cfg) (openai cfg) else cfg
    | None => cfg
    end in
  if bool_decide (vendor = "gemini") then
    mkConfig (provider cfg1) (set_vendor new_key new_model (s_clear data) (gemini cfg1))
      (openai cfg1)
  else if bool_decide (vendor = "openai") then
    mkConfig (provider cfg1) (gemini cfg1)
      (set_vendor new_key new_model (s_clear data) (openai cfg1))
  else cfg1.

(** What a provider call comes to: its package cannot be imported, the
    client or the request raises, or an answer arrives; the answer is taken
    as [lines], its non-blank lines after their cleaning. *)
Inductive Answer :=
| ImportFails
| CallRaises
| Lines (lines : list string).

(** One round of the loop over [lines]. *)
Definition uniq_step (st : list string * gset string) (q : string)
    : list string * gset string :=
  let lk := py_lower q in
  if bool_decide (lk <> "") && negb (bool_decide (lk ∈ st.2))
  then (st.1 ++ [q], {[ lk ]} ∪ st.2) else st.

(** From [uniq, seen = [], set()] to the [return] of the [try] block, which
    reads the same in both provider functions. *)
Definition queries_of_lines (seed : string) (count : Z) (lines : list string)
    : list string :=
  let uniq := (fold_left uniq_step lines ([], ∅)).1 in
  match uniq with
  | [] => Generate._fallback_generate_queries seed count
  | _ :: _ =>
      let uniq :=
        if Z.of_nat (length uniq) <? count
        then uniq ++ Generate._fallback_generate_queries seed (count - Z.of_nat (length uniq))
        else uniq in
      Query.py_slice_to uniq count
  end.

Section Providers.

(** The answers of the two services, for the key, the model, the seed and
    the count of a call. *)
Variable openai_answer gemini_answer : string -> string -> string -> Z -> Answer.
Variable env : OsEnv.

Definition _openai_generate_queries (seed : string) (count : Z) (key model : string)
    : list string :=
  let use_model := or_else (Some model) (default "gpt-4o-mini" (OPENAI_MODEL env)) in
  match openai_answer key use_model seed count with
  | ImportFails => Generate._fallback_generate_queries seed count
  | CallRaises => Generate._fallback_generate_queries seed count
  | Lines lines => queries_of_lines seed count lines
  end.

Definition _gemini_generate_queries (seed : string) (count : Z) (key model : string)
    : list string :=
  let use_key := or_else (Some key) (or_else (GEMINI_API_KEY env) "") in
  let use_model := or_else (Some model) (default "gemini-1.5-flash" (GEMINI_MODEL env)) in
  match gemini_answer use_key use_model seed count with
  | ImportFails => Generate._fallback_generate_queries seed count
  | answer =>
      if bool_decide (use_key = "") then Generate._fallback_generate_queries seed count
      else match answer with
           | Lines lines => queries_of_lines seed count lines
           | _ => Generate._fallback_generate_queries seed count
           end
  end.

(** The provider asked for: the request's, if it is one of the three
    names, else the configured one, else the environment's. *)
Definition provider_of (cfg : Config) (preferred : option string) : string :=
  let preferred :=
    match preferred with
    | Some p => if bool_decide (p ∈ ["gemini"; "openai"; "auto"]) then Some p else None
    | None => None
    end in
  py_lower (or_else preferred
              (or_else (Some (provider cfg)) (default "auto" (AI_PROVIDER env)))).

Definition _choose_provider_and_generate (file : FileConfig) (prompt : string)
    (count : Z) (preferred : option string) : list string * string :=
  let cfg := _load_ai_config file in
  let provider := provider_of cfg preferred in
  let gem_key := gem_key env cfg in
  let gem_model := gem_model env cfg in
  let oa_key := oa_key env cfg in
  let oa_model := oa_model env cfg in
  if bool_decide (provider = "gemini") && bool_decide (gem_key <> "") then
    (_gemini_generate_queries prompt count gem_key gem_model, "gemini")
  else if bool_decide (provider = "openai") && bool_decide (oa_key <> "") then
    (_openai_generate_queries prompt count oa_key oa_model, "openai")
  else if bool_decide (gem_key <> "") then
    (_gemini_generate_queries prompt count gem_key gem_model, "gemini")
  else if bool_decide (oa_key <> "") then
    (_openai_generate_queries prompt count oa_key oa_model, "openai")
  else (Generate._fallback_generate_queries prompt count, "fallback").

(** The body of [POST /api/ai-generate] and its reply. *)
Record GenerateRequest := mkGenerateRequest {
  g_prompt : option string;
  g_count : option Z;
  g_save : bool;
  g_provider : option string }.

Record GenerateReply := mkGenerateReply {
  gr_fruits : list string;
  gr_saved : bool;
  gr_provider : string }.

(** [max(1, min(200, int(data.get("count") or 30)))]. *)
Definition count_of (data : GenerateRequest) : Z :=
  Z.max 1 (Z.min 200 (match g_count data with
                      | Some c => if c =? 0 then 30 else c
                      | None => 30
                      end)).

Definition api_ai_generate (file : FileConfig) (data : GenerateRequest) : GenerateReply :=
  let prompt := Generate.strip (or_else (g_prompt data) "") in
  let count := count_of data in
  let provider := truthy (Some (py_lower (or_else (g_provider data) ""))) in
  let '(fruits, used) := _choose_provider_and_generate file prompt count provider in
  mkGenerateReply fruits (g_save data) used.

End Providers.

End AiConfig.

(** ** Mobile sessions over a run *)

(** The automation sessions opened (the opening succeeded) and closed. *)
Definition is_session_open (e : Event) : bool :=
  match e with EvMobileOpen _ opened => opened | _ => false end.
Definition is_session_close (e : Event) : bool :=
  match e with EvMobileClose _ => true | _ => false end.

Definition sessions_opened (tr : list Event) : nat := length (List.filter is_session_open tr).
Definition sessions_closed (tr : list Event) : nat := length (List.filter is_session_close tr).

(** From [w] to [w'] as many sessions were closed as were opened. *)
Definition settled (w w' : World) : Prop :=
  (sessions_opened (trace w') + sessions_closed (trace w)
   = sessions_opened (trace w) + sessions_closed (trace w'))%nat.

(** [R] relates the world before to the world after whenever [m] comes to an
    end, normally or by an exception. *)
Definition returns {A} (R : World -> World -> Prop) (m : M A) : Prop :=
  forall w, (m w).1 <> Hang -> R w (m w).2.

(** The environment [E0] with the mobile automation runtime installed. *)
Definition E_playwright : Env :=
  mkEnv (fun _ => None) (fun _ => true) (fun _ => true) (fun _ => true)
    (fun _ => true) (fun _ => true) (fun _ => false) (fun _ => 150)
    "2025-01-01" 20 true.

(** ** Further sample inputs *)

(** A paused worker, resumed at 0.12 s and paused again at 0.15 s. *)
Definition flip_world : World :=
  mkWorld (mkState true "Paused" 0%Q "" "" 0 10 true ∅ ∅ ∅ false ∅)
    ∅ (mkLocals 0 [] []) [(120, Resume); (150, Pause)] 0 0 [].

(** The same, stopped after 100 s. *)
Definition flip_world_late : World :=
  mkWorld (mkState true "Paused" 0%Q "" "" 0 10 true ∅ ∅ ∅ false ∅)
    ∅ (mkLocals 0 [] []) [(120, Resume); (150, Pause); (100000, Stop)] 0 0 [].



(** ** What a mobile pass does *)









(** Notions for the trace of a pass in any run. *)



(** * Properties *)

(** ** Requests, polls and the clock *)

Lemma handle_not_running r s : is_running s = false -> is_running (handle r s) = false.
Proof. intros H. destruct r; simpl; rewrite H; done. Qed.

Lemma handle_stopped r s : is_running s = false -> handle r s = s.
Proof. intros H. destruct r; simpl; rewrite H; done. Qed.

Lemma deliver_stopped t p s : is_running s = false -> snd (deliver t p s) = s.
Proof.
  revert s. induction p as [| [u r] p IH]; intros s H; simpl; [done |].
  destruct (u <=? t); [| done]. rewrite handle_stopped by done. by apply IH.
Qed.

Lemma deliver_mono t1 t2 p s :
  t1 <= t2 ->
  deliver t2 (fst (deliver t1 p s)) (snd (deliver t1 p s)) = deliver t2 p s.
Proof.
  intros Ht. revert s. induction p as [| [u r] p IH]; intros s; simpl; [done |].
  destruct (Z.leb_spec u t1) as [H1 | H1].
  - destruct (Z.leb_spec u t2); [apply IH | lia].
  - simpl. done.
Qed.

Lemma deliver_all t p s : last_stamp p t <= t -> fst (deliver t p s) = [].
Proof.
  revert s. induction p as [| [u r] p IH]; intros s H; simpl in *; [done |].
  destruct (Z.leb_spec u t); [apply IH; lia | lia].
Qed.

Lemma last_stamp_ge p t : t <= last_stamp p t.
Proof. induction p as [| [u r] p IH]; simpl; lia. Qed.

Lemma last_stamp_mono p t t' : t <= t' -> last_stamp p t <= last_stamp p t'.
Proof. intros H. induction p as [| [u r] p IH]; simpl; lia. Qed.

Lemma deliver_nil t s : deliver t [] s = ([], s).
Proof. done. Qed.

Lemma wait_loop_unfold fuel w :
  wait_loop fuel w =
  let w1 := with_pending (fst (deliver (now w) (pending w) (st w)))
              (with_st (snapshot w (now w)) w) in
  if negb (blocked (st w1)) then (Ret tt, w1)
  else match fuel with
       | O => (Hang, w1)
       | S f => wait_loop f (with_now (now w1 + QUANTUM) w1)
       end.
Proof.
  unfold snapshot.
  destruct fuel; simpl; unfold bind, locked, blocked; simpl;
    destruct (deliver (now w) (pending w) (st w)) as [p s]; simpl;
    destruct (is_running s), (is_paused s); simpl; reflexivity.
Qed.

Lemma deliver_idem t p s :
  deliver t (fst (deliver t p s)) (snd (deliver t p s)) = deliver t p s.
Proof.
  revert s. induction p as [| [u r] p IH]; intros s; simpl; [done |].
  destruct (Z.leb_spec u t) as [H1 | H1]; [apply IH |].
  simpl. destruct (Z.leb_spec u t); [lia | done].
Qed.

Lemma deliver_back t1 t2 p s :
  t2 <= t1 ->
  deliver t2 (fst (deliver t1 p s)) (snd (deliver t1 p s)) = deliver t1 p s.
Proof.
  intros Ht. revert s. induction p as [| [u r] p IH]; intros s; simpl; [done |].
  destruct (Z.leb_spec u t1) as [H1 | H1]; [apply IH |].
  simpl. destruct (Z.leb_spec u t2); [lia | done].
Qed.

Lemma deliver_deliver t1 t2 p s :
  deliver t2 (fst (deliver t1 p s)) (snd (deliver t1 p s)) = deliver (Z.max t1 t2) p s.
Proof.
  destruct (Z.le_gt_cases t1 t2).
  - rewrite Z.max_r by done. by apply deliver_mono.
  - rewrite Z.max_l by lia. apply deliver_back. lia.
Qed.

Lemma deliver_before p : forall s, exists u, forall t, t <= u -> deliver t p s = (p, s).
Proof.
  destruct p as [| [u r] p]; intros s.
  - exists 0. done.
  - exists (u - 1). intros t Ht. simpl. destruct (Z.leb_spec u t); [lia | done].
Qed.

Lemma later_refl w : later w w.
Proof.
  constructor; try done.
  destruct (deliver_before (pending w) (st w)) as [u Hu].
  exists (Z.min u (now w)). split; [lia |]. apply Hu. lia.
Qed.

Lemma later_deliver w w' t :
  later w w' -> now w' <= t ->
  deliver t (pending w') (st w') = deliver t (pending w) (st w).
Proof.
  intros [_ (u & Hu & Hd) _ _ _ _] Ht.
  replace (pending w') with (fst (deliver u (pending w) (st w))) by (by rewrite Hd).
  replace (st w') with (snd (deliver u (pending w) (st w))) by (by rewrite Hd).
  rewrite deliver_deliver. f_equal. lia.
Qed.

Lemma later_snapshot w w' t : later w w' -> now w' <= t -> snapshot w' t = snapshot w t.
Proof. intros L Ht. unfold snapshot. by rewrite (later_deliver w w' t). Qed.

Lemma later_trans w1 w2 w3 : later w1 w2 -> later w2 w3 -> later w1 w3.
Proof.
  intros H12 H23. pose proof H12 as [? (u1 & Hu1 & Hd1) ? ? ? ?].
  pose proof H23 as [? (u2 & Hu2 & Hd2) ? ? ? ?].
  constructor; try congruence; try lia.
  exists (Z.max u1 u2). split; [lia |].
  rewrite <- deliver_deliver, Hd1. simpl. done.
Qed.

Lemma later_lock w :
  later w (with_pending (fst (deliver (now w) (pending w) (st w)))
             (with_st (snapshot w (now w)) w)).
Proof.
  constructor; simpl; try done; try lia.
  exists (now w). split; [lia |]. unfold snapshot. by destruct deliver.
Qed.

Lemma later_sleep w d : 0 <= d -> later w (with_now (now w + d) w).
Proof.
  intros Hd. destruct (later_refl w) as [? (u & Hu & Hdl) ? ? ? ?].
  constructor; simpl; try done; try lia.
  exists u. split; [lia | done].
Qed.

Lemma wait_loop_spec fuel : forall w,
  match wait_loop fuel w with
  | (Ret _, w') =>
      later w w' /\ st w' = snapshot w (now w') /\ blocked (st w') = false /\
      exists k : nat, (k <= fuel)%nat /\ now w' = now w + QUANTUM * Z.of_nat k /\
        forall j : nat, (j < k)%nat -> blocked (snapshot w (now w + QUANTUM * Z.of_nat j)) = true
  | (Hang, w') =>
      later w w' /\ st w' = snapshot w (now w') /\
      pending w' = fst (deliver (now w') (pending w) (st w)) /\
      now w' = now w + QUANTUM * Z.of_nat fuel /\
      forall j : nat, (j <= fuel)%nat -> blocked (snapshot w (now w + QUANTUM * Z.of_nat j)) = true
  | (Raise _, _) => False
  end.
Proof.
  induction fuel as [| f IH]; intros w; rewrite wait_loop_unfold; cbn zeta.
  all: pose proof (later_lock w) as L1.
  all: set (w1 := with_pending _ _) in *.
  all: destruct (blocked (st w1)) eqn:Hb; simpl.
  - split; [done |]. split; [done |]. split; [done |]. split; [lia |].
    intros j Hj. replace j with 0%nat by lia.
    rewrite Z.mul_0_r, Z.add_0_r. exact Hb.
  - split; [done |]. split; [done |]. split; [done |]. exists 0%nat.
    split; [lia |]. split; [simpl; lia |]. intros j Hj; lia.
  - assert (L2 : later w (with_now (now w1 + QUANTUM) w1)).
    { eapply later_trans; [exact L1 |]. apply later_sleep. unfold QUANTUM; lia. }
    set (w2 := with_now _ w1) in *.
    assert (Hn2 : now w2 = now w + QUANTUM) by done.
    specialize (IH w2).
    destruct (wait_loop f w2) as [[[] | e |] w'].
    + destruct IH as (L3 & Hst & Hnb & k & Hk & Hnow & Hall).
      split; [by eapply later_trans |].
      split; [rewrite Hst; apply later_snapshot; [done | by destruct L3] |].
      split; [done |].
      exists (S k). split; [lia |]. split; [lia |].
      intros j Hj. destruct j as [| j].
      * rewrite Z.mul_0_r, Z.add_0_r. exact Hb.
      * rewrite <- (later_snapshot w w2) by (done || unfold QUANTUM in *; lia).
        replace (now w + QUANTUM * Z.of_nat (S j)) with (now w2 + QUANTUM * Z.of_nat j) by lia.
        apply Hall. lia.
    + done.
    + destruct IH as (L3 & Hst & Hp & Hnow & Hall).
      split; [by eapply later_trans |].
      split; [rewrite Hst; apply later_snapshot; [done | by destruct L3] |].
      split; [rewrite Hp; f_equal; apply later_deliver; [done | by destruct L3] |].
      split; [lia |].
      intros j Hj. destruct j as [| j].
      * rewrite Z.mul_0_r, Z.add_0_r. exact Hb.
      * rewrite <- (later_snapshot w w2) by (done || unfold QUANTUM in *; lia).
        replace (now w + QUANTUM * Z.of_nat (S j)) with (now w2 + QUANTUM * Z.of_nat j) by lia.
        apply Hall. lia.
  - split; [done |]. split; [done |]. split; [done |]. exists 0%nat.
    split; [lia |]. split; [simpl; lia |]. intros j Hj; lia.
Qed.

Lemma last_stamp_le p t t' : last_stamp p t <= t' -> last_stamp p t' <= t'.
Proof. induction p as [| [u r] p IH]; simpl; lia. Qed.

Lemma snapshot_served w t u :
  fst (deliver t (pending w) (st w)) = [] -> t <= u -> snapshot w u = snapshot w t.
Proof.
  intros Hnil Htu. unfold snapshot.
  rewrite <- (deliver_mono t u) by done. by rewrite Hnil.
Qed.

Lemma snapshot_stopped w t u :
  is_running (snapshot w t) = false -> t <= u -> is_running (snapshot w u) = false.
Proof.
  intros Hs Htu. unfold snapshot in *.
  rewrite <- (deliver_mono t u) by done. by rewrite deliver_stopped.
Qed.

Lemma later_snapshot_any w w' t :
  later w w' -> exists t', t <= t' /\ snapshot w' t = snapshot w t'.
Proof.
  intros [_ (u & Hu & Hd) _ _ _ _].
  exists (Z.max u t). split; [lia |]. unfold snapshot.
  replace (pending w') with (fst (deliver u (pending w) (st w))) by (by rewrite Hd).
  replace (st w') with (snd (deliver u (pending w) (st w))) by (by rewrite Hd).
  by rewrite deliver_deliver.
Qed.

Lemma poll_bound_covers w :
  last_stamp (pending w) (now w) <= now w + QUANTUM * Z.of_nat (poll_bound w).
Proof.
  unfold poll_bound, QUANTUM. pose proof (last_stamp_ge (pending w) (now w)).
  set (d := last_stamp (pending w) (now w) - now w) in *.
  rewrite Z2Nat.id by (apply Z.div_pos; lia).
  pose proof (Z.div_mod (d + 99) 100 ltac:(lia)).
  pose proof (Z.mod_pos_bound (d + 99) 100 ltac:(lia)). lia.
Qed.

(** Some poll of a loop started at [t0] falls in every window of one quantum. *)
Lemma poll_in_window t0 t :
  t0 <= t -> exists j : nat, t <= t0 + QUANTUM * Z.of_nat j < t + QUANTUM.
Proof.
  intros H. unfold QUANTUM. exists (Z.to_nat ((t - t0 + 99) / 100)).
  rewrite Z2Nat.id by (apply Z.div_pos; lia).
  pose proof (Z.div_mod (t - t0 + 99) 100 ltac:(lia)).
  pose proof (Z.mod_pos_bound (t - t0 + 99) 100 ltac:(lia)). lia.
Qed.

Lemma wait_if_paused_spec w :
  match _wait_if_paused w with
  | (Ret _, w') =>
      later w w' /\ st w' = snapshot w (now w') /\ blocked (st w') = false /\
      exists k : nat, now w' = now w + QUANTUM * Z.of_nat k /\
        forall j : nat, (j < k)%nat -> blocked (snapshot w (now w + QUANTUM * Z.of_nat j)) = true
  | (Hang, w') =>
      later w w' /\ pending w' = [] /\ blocked (st w') = true /\
      forall j : nat, blocked (snapshot w (now w + QUANTUM * Z.of_nat j)) = true
  | (Raise _, _) => False
  end.
Proof.
  unfold _wait_if_paused. pose proof (wait_loop_spec (poll_bound w) w) as H.
  destruct (wait_loop (poll_bound w) w) as [[[] | e |] w']; [| done |].
  - destruct H as (L & Hst & Hb & k & _ & Hk & Hall). eauto 10.
  - destruct H as (L & Hst & Hp & Hnow & Hall).
    assert (Hnil : fst (deliver (now w') (pending w) (st w)) = []).
    { apply deliver_all. apply (last_stamp_le _ (now w)). rewrite Hnow. apply poll_bound_covers. }
    split; [done |]. split; [congruence |].
    assert (Hlast : blocked (snapshot w (now w')) = true)
      by (rewrite Hnow; apply Hall; lia).
    split; [by rewrite Hst |].
    intros j. destruct (Nat.le_gt_cases j (poll_bound w)) as [Hj | Hj]; [by apply Hall |].
    rewrite (snapshot_served w (now w')); [done | done |]. unfold QUANTUM in *. lia.
Qed.

Lemma wait_if_paused_within w t :
  now w <= t ->
  (forall u, t <= u < t + QUANTUM -> blocked (snapshot w u) = false) ->
  exists w', _wait_if_paused w = (Ret tt, w') /\ now w' < t + QUANTUM.
Proof.
  intros Ht Hfree. destruct (poll_in_window (now w) t Ht) as [j Hj].
  pose proof (wait_if_paused_spec w) as H.
  destruct (_wait_if_paused w) as [[[] | e |] w']; [| done |].
  - exists w'. split; [done |].
    destruct H as (_ & _ & _ & k & Hk & Hall).
    destruct (Nat.le_gt_cases k j) as [Hkj | Hkj].
    + unfold QUANTUM in *. lia.
    + specialize (Hall j Hkj). rewrite Hfree in Hall by done. done.
  - destruct H as (_ & _ & _ & Hall). specialize (Hall j).
    rewrite Hfree in Hall by done. done.
Qed.

Lemma blocked_stopped s : is_running s = false -> blocked s = false.
Proof. unfold blocked. intros ->. by rewrite andb_false_r. Qed.

Lemma sleep_loop_unfold f end_ w :
  sleep_loop (S f) end_ w =
  if now w <? end_ then
    let w1 := with_pending (fst (deliver (now w) (pending w) (st w)))
                (with_st (snapshot w (now w)) w) in
    if negb (is_running (st w1)) then (Ret tt, w1)
    else match _wait_if_paused w1 with
         | (Ret _, w2) =>
             sleep_loop f end_
               (with_now (now w2 + Z.max 0 (Z.min QUANTUM (Z.max 0 (end_ - now w2)))) w2)
         | (Raise e, w2) => (Raise e, w2)
         | (Hang, w2) => (Hang, w2)
         end
  else (Ret tt, w).
Proof.
  simpl. destruct (now w <? end_); [| done].
  unfold bind, read_running, locked, snapshot; simpl.
  destruct (deliver (now w) (pending w) (st w)) as [p s]; simpl.
  destruct (is_running s); simpl; [| done].
  destruct (_wait_if_paused _) as [[[] | e |] w2]; done.
Qed.

Lemma sleep_loop_spec fuel end_ : forall w,
  (Z.to_nat (end_ - now w) <= fuel)%nat ->
  match sleep_loop fuel end_ w with
  | (Ret _, w') =>
      later w w' /\
      (end_ <= now w' \/ is_running (st w') = false) /\
      (forall t, (forall u, t <= u -> is_running (snapshot w u) = false) ->
                 now w' <= Z.max (now w) (t + 2 * QUANTUM - 1)) /\
      ((forall u, blocked (snapshot w u) = false) -> now w' <= Z.max (now w) end_)
  | (Hang, w') => later w w' /\ pending w' = [] /\ blocked (st w') = true
  | (Raise _, _) => False
  end.
Proof.
  induction fuel as [| f IH]; intros w Hf.
  - simpl. destruct (Z.ltb_spec (now w) end_); [lia |].
    split; [apply later_refl |]. split; [by left |]. split; intros; lia.
  - rewrite sleep_loop_unfold. destruct (Z.ltb_spec (now w) end_) as [Hlt | Hge].
    2:{ split; [apply later_refl |]. split; [by left |]. split; intros; lia. }
    cbn zeta. pose proof (later_lock w) as L1.
    set (w1 := with_pending _ _) in *.
    destruct (is_running (st w1)) eqn:Hrun; simpl.
    2:{ split; [done |]. split; [by right |]. split; intros; simpl; lia. }
    pose proof (wait_if_paused_spec w1) as Hw.
    destruct (_wait_if_paused w1) as [[[] | e |] w2] eqn:Hwait; [| done |].
    2:{ destruct Hw as (L2 & Hp & Hb & _). split; [by eapply later_trans | done]. }
    destruct Hw as (L2 & Hst2 & Hb2 & k & Hk & Hall).
    set (d := Z.max 0 (Z.min QUANTUM (Z.max 0 (end_ - now w2)))).
    assert (Hd : 0 <= d <= QUANTUM) by (unfold d, QUANTUM; lia).
    pose proof (later_sleep w2 d ltac:(lia)) as L3.
    set (w3 := with_now (now w2 + d) w2) in *.
    assert (L13 : later w w3) by (eapply later_trans; [| exact L3]; by eapply later_trans).
    assert (Hn12 : now w <= now w2) by (destruct L2; simpl in *; lia).
    assert (Hfuel : (Z.to_nat (end_ - now w3) <= f)%nat).
    { simpl. unfold d, QUANTUM in *. lia. }
    specialize (IH w3 Hfuel).
    destruct (sleep_loop f end_ w3) as [[[] | e |] w'] eqn:Hrest; [| done |].
    2:{ destruct IH as (L4 & Hp & Hb). split; [by eapply later_trans | done]. }
    destruct IH as (L4 & Hend & Hstop & Hfree).
    split; [by eapply later_trans |]. split; [done |]. split.
    + intros t Ht.
      assert (Hnt : now w < t).
      { destruct (Z.lt_ge_cases (now w) t) as [| Hle]; [done |].
        specialize (Ht (now w) Hle). simpl in Hrun. congruence. }
      assert (Hn2 : now w2 < t + QUANTUM).
      { destruct (wait_if_paused_within w1 t) as (w2' & Heq & Hb).
        - simpl. lia.
        - intros u Hu. apply blocked_stopped.
          rewrite (later_snapshot w w1) by (done || simpl; lia). apply Ht. lia.
        - rewrite Hwait in Heq. by inversion Heq; subst. }
      assert (Hle : now w' <= Z.max (now w3) (t + 2 * QUANTUM - 1)).
      { apply Hstop. intros u Hu.
        destruct (later_snapshot_any w w3 u L13) as (u' & Hu' & ->). apply Ht. lia. }
      simpl in Hle. unfold QUANTUM in *. lia.
    + intros Hnb.
      assert (Hk0 : k = 0%nat).
      { destruct k as [| k]; [done |]. specialize (Hall 0%nat ltac:(lia)).
        rewrite Z.mul_0_r, Z.add_0_r in Hall.
        rewrite (later_snapshot w w1) in Hall by (done || simpl; lia).
        simpl in Hall. rewrite Hnb in Hall. done. }
      assert (Hle : now w' <= Z.max (now w3) end_).
      { apply Hfree. intros u.
        destruct (later_snapshot_any w w3 u L13) as (u' & Hu' & ->). apply Hnb. }
      subst k. simpl in *. unfold d, QUANTUM in *. lia.
Qed.

Lemma sleep_with_pause_spec ms w :
  match sleep_with_pause ms w with
  | (Ret _, w') =>
      later w w' /\
      (now w + Z.max 0 ms <= now w' \/ is_running (st w') = false) /\
      (forall t, (forall u, t <= u -> is_running (snapshot w u) = false) ->
                 now w' <= Z.max (now w) (t + 2 * QUANTUM - 1)) /\
      ((forall u, blocked (snapshot w u) = false) -> now w' <= now w + Z.max 0 ms)
  | (Hang, w') => later w w' /\ pending w' = [] /\ blocked (st w') = true
  | (Raise _, _) => False
  end.
Proof.
  unfold sleep_with_pause.
  pose proof (sleep_loop_spec (Z.to_nat (now w + Z.max 0 ms - now w))
                (now w + Z.max 0 ms) w ltac:(lia)) as H.
  destruct (sleep_loop _ _ w) as [[[] | e |] w']; [| done | done].
  destruct H as (L & Hend & Hstop & Hfree).
  split; [done |]. split; [done |]. split; [done |].
  intros Hnb. specialize (Hfree Hnb). lia.
Qed.

(** ** Reasoning about worker code *)

Section Keeps.
Context (R : World -> World -> Prop) `{!PreOrder R}.

Lemma keeps_ret {A} (a : A) : keeps R (ret a).
Proof. intros w. simpl. reflexivity. Qed.

Lemma keeps_raise {A} e : keeps R (@raise A e).
Proof. intros w. simpl. reflexivity. Qed.

Lemma keeps_hang {A} : keeps R (@hang A).
Proof. intros w. simpl. reflexivity. Qed.

Lemma keeps_bind {A B} (m : M A) (k : A -> M B) :
  keeps R m -> (forall a, keeps R (k a)) -> keeps R (bind m k).
Proof.
  intros Hm Hk w. unfold bind. specialize (Hm w).
  destruct (m w) as [[a | e |] w1]; simpl in *; [| done | done].
  etransitivity; [exact Hm | apply Hk].
Qed.

Lemma keeps_try_except {A} (body : M A) handler :
  keeps R body -> (forall e, keeps R (handler e)) -> keeps R (try_except body handler).
Proof.
  intros Hm Hk w. unfold try_except. specialize (Hm w).
  destruct (body w) as [[a | e |] w1]; simpl in *; [done | | done].
  etransitivity; [exact Hm | apply Hk].
Qed.

Lemma keeps_try_finally {A} (body : M A) fin :
  keeps R body -> keeps R fin -> keeps R (try_finally body fin).
Proof.
  intros Hm Hk w. unfold try_finally. specialize (Hm w).
  destruct (body w) as [[a | e |] w1]; simpl in *; [| | done].
  all: specialize (Hk w1); destruct (fin w1) as [[[] | e' |] w2]; simpl in *.
  all: etransitivity; [exact Hm | exact Hk].
Qed.

Lemma keeps_for_each {A} (l : list A) body :
  (forall x, keeps R (body x)) -> keeps R (for_each l body).
Proof.
  intros Hb. induction l as [| x l IH]; simpl; [apply keeps_ret |].
  apply keeps_bind; [apply Hb |]. intros []; [exact IH | apply keeps_ret].
Qed.

Lemma keeps_if {A} (b : bool) (m1 m2 : M A) :
  keeps R m1 -> keeps R m2 -> keeps R (if b then m1 else m2).
Proof. by destruct b. Qed.
End Keeps.

Section Safe.
Context (I : World -> Prop).

Lemma safe_ret {A} (a : A) : safe I (ret a).
Proof. intros w H. done. Qed.

Lemma safe_raise {A} e : safe I (@raise A e).
Proof. intros w H. done. Qed.

Lemma safe_bind {A B} (m : M A) (k : A -> M B) :
  safe I m -> (forall a, safe I (k a)) -> safe I (bind m k).
Proof.
  intros Hm Hk w Hw. unfold bind. specialize (Hm w Hw).
  destruct (m w) as [[a | e |] w1]; simpl in *; [| intuition congruence | intuition congruence].
  apply Hk. intuition congruence.
Qed.

Lemma safe_try_except {A} (body : M A) handler :
  safe I body -> (forall e, safe I (handler e)) -> safe I (try_except body handler).
Proof.
  intros Hm Hk w Hw. unfold try_except. specialize (Hm w Hw).
  destruct (body w) as [[a | e |] w1]; simpl in *; [intuition congruence | | intuition congruence].
  apply Hk. intuition congruence.
Qed.

Lemma safe_try_finally {A} (body : M A) fin :
  safe I body -> safe I fin -> safe I (try_finally body fin).
Proof.
  intros Hm Hk w Hw. unfold try_finally. specialize (Hm w Hw).
  destruct (body w) as [[a | e |] w1]; simpl in *; [| | intuition congruence].
  all: destruct Hm as [Hm _]; specialize (Hk w1 Hm).
  all: destruct (fin w1) as [[[] | e' |] w2]; simpl in *; intuition congruence.
Qed.

Lemma safe_for_each {A} (l : list A) body :
  (forall x, safe I (body x)) -> safe I (for_each l body).
Proof.
  intros Hb. induction l as [| x l IH]; simpl; [apply safe_ret |].
  apply safe_bind; [apply Hb |]. intros []; [exact IH | apply safe_ret].
Qed.
End Safe.

(** *** A worker that is never paused *)

Lemma deliver_unpausable t p s :
  is_paused s = false -> Forall (fun ur : Z * Request => ur.2 <> Pause) p ->
  is_paused (snd (deliver t p s)) = false /\
  Forall (fun ur : Z * Request => ur.2 <> Pause) (fst (deliver t p s)).
Proof.
  revert s. induction p as [| [u r] p IH]; intros s Hs Hp; simpl; [done |].
  inversion Hp as [| ? ? Hr Hp']; subst. destruct (u <=? t); [| done].
  apply IH; [| done]. destruct r; simpl in *; [| done |]; by destruct (is_running s).
Qed.

Lemma safe_locked {A} (f : State -> A * State) :
  (forall s, is_paused s = false -> is_paused (f s).2 = false) ->
  safe unpausable (locked f).
Proof.
  intros Hf w [Hs Hp]. unfold locked.
  destruct (deliver_unpausable (now w) (pending w) (st w) Hs Hp) as [Hs' Hp'].
  destruct (deliver (now w) (pending w) (st w)) as [p s]; simpl in *.
  specialize (Hf s Hs'). destruct (f s) as [a s']; simpl in *. done.
Qed.

Lemma safe_update (f : State -> State) :
  (forall s, is_paused s = false -> is_paused (f s) = false) ->
  safe unpausable (update f).
Proof. intros Hf. apply safe_locked. done. Qed.

Lemma safe_time_sleep ms : safe unpausable (time_sleep ms).
Proof. intros w H. done. Qed.

Lemma safe_emit e : safe unpausable (emit e).
Proof. intros w H. done. Qed.

Lemma safe_consult {A} (f : nat -> A) : safe unpausable (consult f).
Proof. intros w H. done. Qed.

Lemma safe_get_lv : safe unpausable get_lv.
Proof. intros w H. done. Qed.

Lemma safe_put_lv l : safe unpausable (put_lv l).
Proof. intros w H. done. Qed.

Lemma safe_wait_loop fuel : safe unpausable (wait_loop fuel).
Proof.
  intros w [Hs Hp]. rewrite wait_loop_unfold. cbn zeta. unfold snapshot.
  destruct (deliver_unpausable (now w) (pending w) (st w) Hs Hp) as [Hs' Hp'].
  unfold blocked. simpl. rewrite Hs'. simpl. done.
Qed.

Lemma safe_wait_if_paused : safe unpausable _wait_if_paused.
Proof. intros w H. apply safe_wait_loop. done. Qed.

Lemma safe_sleep_loop fuel end_ : safe unpausable (sleep_loop fuel end_).
Proof.
  induction fuel as [| f IH]; intros w H; simpl.
  - by destruct (now w <? end_).
  - destruct (now w <? end_); [| done].
    revert w H. apply safe_bind; [by apply safe_locked |].
    intros []; simpl; [| apply safe_ret].
    apply safe_bind; [apply safe_wait_if_paused |]. intros _.
    apply safe_bind; [| intros _; exact IH].
    intros w H. done.
Qed.

Lemma safe_sleep_with_pause ms : safe unpausable (sleep_with_pause ms).
Proof. intros w H. apply safe_sleep_loop. done. Qed.

Lemma safe_with_info (f : World -> gmap string InfoEntry) :
  safe unpausable (fun w => (Ret tt, with_info (f w) w)).
Proof. intros w H. done. Qed.

Ltac safe_step :=
  match goal with
  | |- safe _ (bind _ _) => apply safe_bind; [| intros ?]
  | |- safe _ (try_except _ _) => apply safe_try_except; [| intros ?]
  | |- safe _ (try_finally _ _) => apply safe_try_finally
  | |- safe _ (for_each _ _) => apply safe_for_each; intros ?
  | |- safe _ (ret _) => apply safe_ret
  | |- safe _ (raise _) => apply safe_raise
  | |- safe _ _wait_if_paused => apply safe_wait_if_paused
  | |- safe _ (sleep_with_pause _) => apply safe_sleep_with_pause
  | |- safe _ (time_sleep _) => apply safe_time_sleep
  | |- safe _ (emit _) => apply safe_emit
  | |- safe _ (print _) => apply safe_emit
  | |- safe _ (close_browser_windows _) => apply safe_emit
  | |- safe _ (consult _) => apply safe_consult
  | |- safe _ get_lv => apply safe_get_lv
  | |- safe _ (put_lv _) => apply safe_put_lv
  | |- safe _ read_running => apply safe_locked; intros ? ?; assumption
  | |- safe _ (update _) =>
      apply safe_update; intros ? ?;
      unfold desktop_progress_update, mobile_progress_update, final_reset;
      repeat case_match; simpl; solve [assumption | reflexivity]
  | |- safe _ (locked _) =>
      apply safe_locked; intros ? ?; simpl; solve [assumption | reflexivity]
  | |- safe _ (fun w => (Ret tt, with_info _ w)) => apply safe_with_info
  | |- safe _ (if ?b then _ else _) => destruct b
  | |- safe _ (match ?x with _ => _ end) => destruct x
  end.

Section WorkerSafe.
Variable E : Env.

Lemma safe_gui a : safe unpausable (gui E a).
Proof. unfold gui. repeat safe_step. Qed.

Lemma safe_native_search q : safe unpausable (native_search E q).
Proof. unfold native_search. repeat (safe_step || apply safe_gui). Qed.

Lemma safe_launch_browser b d : safe unpausable (launch_browser E b d).
Proof. intros w H. done. Qed.

Lemma safe_launch_mobile_browser b d : safe unpausable (launch_mobile_browser E b d).
Proof. intros w H. done. Qed.

Lemma safe_bump name is_pc delta :
  safe unpausable (bump_profile_progress_io E name is_pc delta).
Proof. unfold bump_profile_progress_io. repeat safe_step. Qed.

Lemma safe_terminate_process pid : safe unpausable (terminate_process E pid).
Proof. unfold terminate_process. repeat safe_step. Qed.

Lemma safe_random_uniform lo hi : safe unpausable (random_uniform E lo hi).
Proof. unfold random_uniform. repeat safe_step. Qed.

Lemma safe_desktop_query delay name q : safe unpausable (desktop_query E delay name q).
Proof.
  unfold desktop_query.
  repeat (safe_step || apply safe_native_search || apply safe_bump
          || apply safe_random_uniform).
Qed.

Lemma safe_cap_policy browser name : safe unpausable (cap_policy E browser name).
Proof. unfold cap_policy. repeat (safe_step || apply safe_terminate_process). Qed.

Lemma safe_mobile_query search on_error lo hi delay name mq :
  (forall q, safe unpausable (search q)) ->
  safe unpausable (mobile_query E search on_error lo hi delay name mq).
Proof.
  intros Hs. unfold mobile_query.
  repeat (safe_step || apply Hs || apply safe_bump || apply safe_random_uniform).
Qed.

Lemma safe_playwright_search mq : safe unpausable (playwright_search E mq).
Proof. unfold playwright_search. repeat safe_step. Qed.

Lemma safe_playwright_pass delay name mqueries :
  safe unpausable (playwright_pass E delay name mqueries).
Proof.
  unfold playwright_pass.
  repeat (safe_step || apply safe_mobile_query || apply safe_playwright_search).
Qed.

Lemma safe_fallback_pass delay browser name directory mqueries :
  safe unpausable (fallback_pass E delay browser name directory mqueries).
Proof.
  unfold fallback_pass.
  repeat (safe_step || apply safe_launch_mobile_browser
          || apply safe_mobile_query || apply safe_native_search).
Qed.

Lemma safe_mobile_phase fruits delay browser name directory :
  safe unpausable (mobile_phase E fruits delay browser name directory).
Proof.
  unfold mobile_phase.
  repeat (safe_step || apply safe_playwright_pass || apply safe_fallback_pass).
Qed.

Lemma safe_run_profile fruits delay browser profile :
  safe unpausable (run_profile E fruits delay browser profile).
Proof.
  unfold run_profile.
  repeat (safe_step || apply safe_launch_browser || apply safe_desktop_query
          || apply safe_cap_policy || apply safe_mobile_phase).
Qed.

Lemma safe_teardown : safe unpausable (teardown E).
Proof. unfold teardown. repeat (safe_step || apply safe_terminate_process). Qed.

Lemma safe_automation_worker fruits delay browser profiles :
  safe unpausable (automation_worker E fruits delay browser profiles).
Proof.
  unfold automation_worker.
  repeat (safe_step || apply safe_run_profile || apply safe_teardown).
Qed.
End WorkerSafe.

Lemma final_reset_torn_down s : torn_down (final_reset s).
Proof. unfold torn_down, final_reset. simpl. done. Qed.

Lemma update_st f w : exists s, st (update f w).2 = f s.
Proof.
  unfold update, locked. destruct (deliver (now w) (pending w) (st w)) as [p s].
  simpl. by exists s.
Qed.

Lemma try_finally_update {A} (body : M A) f w :
  (try_finally body (update f) w).1 <> Hang ->
  exists s, st (try_finally body (update f) w).2 = f s.
Proof.
  unfold try_finally. destruct (body w) as [[a | e |] w1]; simpl; [| | done].
  all: intros _; destruct (update_st f w1) as [s Hs]; exists s.
  all: revert Hs; unfold update, locked.
  all: destruct (deliver (now w1) (pending w1) (st w1)) as [p s1]; simpl; done.
Qed.

Lemma try_finally_fin_runs {A} (body : M A) (fin : M unit) w :
  (try_finally body fin w).1 <> Hang ->
  exists w1, (body w).1 <> Hang /\ (body w).2 = w1 /\
             (fin w1).1 <> Hang /\ (try_finally body fin w).2 = (fin w1).2.
Proof.
  unfold try_finally. destruct (body w) as [[a | e |] w1]; simpl; [| | done].
  all: intros H; exists w1; destruct (fin w1) as [[[] | e' |] w2]; simpl in *; done.
Qed.

(** *** What waiting and acting leave alone *)

#[local] Instance data_eq_preorder : PreOrder data_eq.
Proof.
  split.
  - intros s. unfold data_eq. tauto.
  - intros s1 s2 s3 H12 H23. unfold data_eq in *. intuition congruence.
Qed.

#[local] Instance steady_preorder : PreOrder steady.
Proof.
  split.
  - intros w. unfold steady. split; [reflexivity | done].
  - intros w1 w2 w3 (D12 & ? & ?) (D23 & ? & ?). split; [| split; congruence].
    etransitivity; eassumption.
Qed.

Lemma handle_data_eq r s : data_eq s (handle r s).
Proof. destruct r; simpl; destruct (is_running s); unfold data_eq; simpl; tauto. Qed.

Lemma deliver_data_eq t p s : data_eq s (snd (deliver t p s)).
Proof.
  revert s. induction p as [| [u r] p IH]; intros s; simpl; [reflexivity |].
  destruct (u <=? t); [| reflexivity].
  etransitivity; [apply handle_data_eq | apply IH].
Qed.

Lemma later_steady w w' : later w w' -> steady w w'.
Proof.
  intros [_ (u & _ & Hd) Hi Hl _ _]. split; [| done].
  replace (st w') with (snd (deliver u (pending w) (st w))) by (by rewrite Hd).
  apply deliver_data_eq.
Qed.

Lemma keeps_locked {A} (f : State -> A * State) :
  (forall s, data_eq s (f s).2) -> keeps steady (locked f).
Proof.
  intros Hf w. unfold locked.
  pose proof (deliver_data_eq (now w) (pending w) (st w)) as Hd.
  destruct (deliver (now w) (pending w) (st w)) as [p s]; simpl in *.
  specialize (Hf s). destruct (f s) as [a s']; simpl in *.
  split; [| done]. simpl. etransitivity; eassumption.
Qed.

Lemma keeps_wait_if_paused : keeps steady _wait_if_paused.
Proof.
  intros w. pose proof (wait_if_paused_spec w) as H.
  destruct (_wait_if_paused w) as [[[] | e |] w']; simpl; [| done |];
    apply later_steady; tauto.
Qed.

Lemma keeps_sleep_with_pause ms : keeps steady (sleep_with_pause ms).
Proof.
  intros w. pose proof (sleep_with_pause_spec ms w) as H.
  destruct (sleep_with_pause ms w) as [[[] | e |] w']; simpl; [| done |];
    apply later_steady; tauto.
Qed.

Lemma keeps_consult {A} (f : nat -> A) : keeps steady (consult f).
Proof. intros w. split; [simpl; reflexivity | done]. Qed.

Lemma keeps_emit e : keeps steady (emit e).
Proof. intros w. split; [simpl; reflexivity | done]. Qed.

Lemma keeps_get_lv : keeps steady get_lv.
Proof. intros w. split; [simpl; reflexivity | done]. Qed.

Ltac keeps_step :=
  match goal with
  | |- keeps _ (bind _ _) => apply keeps_bind; [typeclasses eauto | | intros ?]
  | |- keeps _ (try_except _ _) => apply keeps_try_except; [typeclasses eauto | | intros ?]
  | |- keeps _ (try_finally _ _) => apply keeps_try_finally; [typeclasses eauto | |]
  | |- keeps _ (for_each _ _) => apply keeps_for_each; [typeclasses eauto | intros ?]
  | |- keeps _ (ret _) => apply keeps_ret; typeclasses eauto
  | |- keeps _ (raise _) => apply keeps_raise; typeclasses eauto
  | |- keeps _ _wait_if_paused => apply keeps_wait_if_paused
  | |- keeps _ (sleep_with_pause _) => apply keeps_sleep_with_pause
  | |- keeps _ (emit _) => apply keeps_emit
  | |- keeps _ (print _) => apply keeps_emit
  | |- keeps _ (close_browser_windows _) => apply keeps_emit
  | |- keeps _ (consult _) => apply keeps_consult
  | |- keeps _ get_lv => apply keeps_get_lv
  | |- keeps _ read_running => apply keeps_locked; intros ?; reflexivity
  | |- keeps _ (update _) =>
      apply keeps_locked; intros ?; unfold data_eq; simpl; tauto
  | |- keeps _ (if ?b then _ else _) => destruct b
  | |- keeps _ (match ?x with _ => _ end) => destruct x
  end.

Section WorkerSteady.
Variable E : Env.

Lemma keeps_gui a : keeps steady (gui E a).
Proof. unfold gui. repeat keeps_step. Qed.

Lemma keeps_native_search q : keeps steady (native_search E q).
Proof. unfold native_search. repeat (keeps_step || apply keeps_gui). Qed.

Lemma keeps_random_uniform lo hi : keeps steady (random_uniform E lo hi).
Proof. unfold random_uniform. repeat keeps_step. Qed.
End WorkerSteady.

Lemma quiet_ret {A} (a : A) : quiet (ret a).
Proof. done. Qed.

Lemma quiet_bind {A B} (m : M A) (k : A -> M B) :
  quiet m -> (forall a, quiet (k a)) -> quiet (bind m k).
Proof.
  intros Hm Hk w e. unfold bind. specialize (Hm w).
  destruct (m w) as [[a | e' |] w1]; simpl in *; [apply Hk | | done].
  by destruct (Hm e').
Qed.

Lemma quiet_try_except {A} (body : M A) handler :
  (forall e, quiet (handler e)) -> quiet (try_except body handler).
Proof.
  intros Hk w e. unfold try_except.
  destruct (body w) as [[a | e' |] w1]; simpl in *; [done | apply Hk | done].
Qed.

Lemma quiet_try_finally {A} (body : M A) fin :
  quiet body -> quiet fin -> quiet (try_finally body fin).
Proof.
  intros Hb Hf w e. unfold try_finally. specialize (Hb w).
  destruct (body w) as [[a | e' |] w1]; simpl in *; [| by destruct (Hb e') | done].
  specialize (Hf w1). destruct (fin w1) as [[[] | e' |] w2]; simpl in *;
    [done | by destruct (Hf e') | done].
Qed.

Lemma quiet_for_each {A} (l : list A) body :
  (forall x, quiet (body x)) -> quiet (for_each l body).
Proof.
  intros Hb. induction l as [| x l IH]; simpl; [apply quiet_ret |].
  apply quiet_bind; [apply Hb |]. intros []; [exact IH | apply quiet_ret].
Qed.

Lemma quiet_locked {A} (f : State -> A * State) : quiet (locked f).
Proof.
  intros w e. unfold locked. destruct (deliver _ _ _) as [p s].
  by destruct (f s).
Qed.

Lemma quiet_wait_if_paused : quiet _wait_if_paused.
Proof.
  intros w e. pose proof (wait_if_paused_spec w) as H.
  by destruct (_wait_if_paused w) as [[[] | e' |] w'].
Qed.

Lemma quiet_sleep_with_pause ms : quiet (sleep_with_pause ms).
Proof.
  intros w e. pose proof (sleep_with_pause_spec ms w) as H.
  by destruct (sleep_with_pause ms w) as [[[] | e' |] w'].
Qed.

Lemma quiet_emit e : quiet (emit e).
Proof. done. Qed.

Lemma quiet_consult {A} (f : nat -> A) : quiet (consult f).
Proof. done. Qed.

Lemma quiet_get_lv : quiet get_lv.
Proof. done. Qed.

Lemma quiet_put_lv l : quiet (put_lv l).
Proof. done. Qed.

Lemma quiet_random_uniform E lo hi : quiet (random_uniform E lo hi).
Proof. done. Qed.

Lemma quiet_automation_worker E fruits delay browser profiles :
  quiet (automation_worker E fruits delay browser profiles).
Proof.
  unfold automation_worker. apply quiet_bind; [apply quiet_put_lv | intros _].
  apply quiet_try_finally.
  - apply quiet_try_except. intros []; apply quiet_emit.
  - unfold teardown. apply quiet_try_finally; [| apply quiet_locked].
    apply quiet_bind; [apply quiet_get_lv | intros l].
    apply quiet_for_each. intros p.
    apply quiet_bind; [| intros _; apply quiet_ret].
    unfold terminate_process. apply quiet_try_except. intros _. apply quiet_ret.
Qed.

(** Case analysis on the first step of a sequence. *)
Lemma bind_case {A B} (m : M A) (k : A -> M B) w (P : Result B * World -> Prop) :
  (forall a w1, m w = (Ret a, w1) -> P (k a w1)) ->
  (forall e w1, m w = (Raise e, w1) -> P (Raise e, w1)) ->
  (forall w1, m w = (Hang, w1) -> P (Hang, w1)) ->
  P (bind m k w).
Proof.
  intros H1 H2 H3. unfold bind. destruct (m w) as [[a | e |] w1]; eauto.
Qed.

Lemma locked_case {A B} (f : State -> A * State) (k : A -> M B) w
    (P : Result B * World -> Prop) :
  (forall s p, deliver (now w) (pending w) (st w) = (p, s) ->
               P (k (f s).1 (with_pending p (with_st (f s).2 w)))) ->
  P (bind (locked f) k w).
Proof.
  intros H. unfold bind, locked. specialize (H (deliver (now w) (pending w) (st w)).2
                                               (deliver (now w) (pending w) (st w)).1).
  destruct (deliver _ _ _) as [p s]. simpl in H. specialize (H eq_refl).
  by destruct (f s).
Qed.

Lemma read_running_spec w b w' :
  read_running w = (Ret b, w') -> b = is_running (st w') /\ steady w w'.
Proof.
  intros H. pose proof (keeps_locked (fun s => (is_running s, s))
                          ltac:(intros; reflexivity) w) as Hk.
  fold read_running in Hk. rewrite H in Hk. split; [| done].
  revert H. unfold read_running, locked. destruct (deliver _ _ _) as [p s].
  intros [= <- <-]. done.
Qed.

Lemma update_spec f w u w' :
  update f w = (Ret u, w') ->
  (exists s, data_eq (st w) s /\ st w' = f s) /\ info w' = info w /\ lv w' = lv w.
Proof.
  unfold update, locked.
  pose proof (deliver_data_eq (now w) (pending w) (st w)) as Hd.
  destruct (deliver _ _ _) as [p s]. intros [= <- <-]. simpl. eauto.
Qed.

Lemma bump_io_spec E name is_pc delta w r w' :
  try_except (bump_profile_progress_io E name is_pc delta) (fun _ => ret tt) w = (r, w') ->
  r = Ret tt /\ st w' = st w /\ lv w' = lv w /\
  info w' = if io_ok E (tick w)
            then bump_profile_progress (today E) name is_pc delta (info w)
            else info w.
Proof.
  unfold try_except, bump_profile_progress_io, bind, consult. simpl.
  destruct (io_ok E (tick w)); simpl; intros [= <- <-]; done.
Qed.

Ltac run Hk a w' Heq :=
  apply bind_case;
  [ intros a w' Heq
  | intros ? ? Heq; apply (f_equal fst) in Heq; exact (Hk _ _ Heq)
  | intros; exact I ].

Lemma desktop_query_effect E delay name q w :
  match desktop_query E delay name q w with
  | (Ret Continue, w') =>
      (exists s, data_eq (st w) s /\
                 data_eq (desktop_progress_update name (l_completed (lv w) + 1) s) (st w')) /\
      lv w' = set_l_completed (l_completed (lv w) + 1) (lv w) /\
      exists n, info w' = if io_ok E n
                          then bump_profile_progress (today E) name true 1 (info w)
                          else info w
  | (Ret Break, w') => steady w w' /\ is_running (st w') = false
  | (Raise _, _) => False
  | (Hang, _) => True
  end.
Proof.
  unfold desktop_query.
  run quiet_wait_if_paused a1 w1 H1.
  pose proof (keeps_wait_if_paused w) as S1. rewrite H1 in S1. simpl in S1.
  run (quiet_locked (fun s => (is_running s, s))) a2 w2 H2.
  apply read_running_spec in H2 as [-> S2].
  destruct (is_running (st w2)) eqn:Hrun; simpl.
  2:{ split; [etransitivity; eassumption | done]. }
  run (quiet_locked (fun s => (tt, set_status ("Searching for: " +:+ q)
                                     (set_current_search q s)))) a3 w3 H3.
  apply update_spec in H3 as ((s3 & D3 & Hs3) & I3 & L3).
  match goal with |- context [try_except ?b ?h] =>
    run (quiet_try_except b h ltac:(intros; apply quiet_emit)) a4 w4 H4;
    pose proof (keeps_try_except steady b h (keeps_native_search E q)
                  ltac:(intros; apply keeps_emit) w3) as S4 end.
  rewrite H4 in S4. simpl in S4.
  run quiet_get_lv a5 w5 H5. injection H5 as <- <-.
  run (quiet_put_lv (set_l_completed (l_completed (lv w4) + 1) (lv w4))) a6 w6 H6.
  injection H6 as <- <-.
  match goal with |- context [update ?f] => run (quiet_locked (fun s => (tt, f s))) a7 w7 H7 end.
  apply update_spec in H7 as ((s7 & D7 & Hs7) & I7 & L7). simpl in *.
  apply bind_case; [intros a8 w8 H8 | intros e8 w8 H8 | intros w8 H8];
    apply bump_io_spec in H8 as ([=] & Hs8 & L8 & I8); subst a8.
  run (quiet_random_uniform E 150 600) a9 w9 H9.
  pose proof (keeps_random_uniform E 150 600 w8) as S9. rewrite H9 in S9. simpl in S9.
  match goal with |- context [sleep_with_pause ?ms] =>
    run (quiet_sleep_with_pause ms) a10 w10 H10;
    pose proof (keeps_sleep_with_pause ms w9) as S10 end.
  rewrite H10 in S10. simpl in S10. simpl.
  destruct S1 as (D1 & I1 & L1), S2 as (D2 & I2 & L2), S4 as (D4 & I4 & L4),
    S9 as (D9 & I9 & L9), S10 as (D10 & I10 & L10).
  assert (Hl : l_completed (lv w4) = l_completed (lv w)) by congruence.
  split; [| split].
  - assert (D3' : data_eq s3 (st w3)) by (rewrite Hs3; unfold data_eq; simpl; tauto).
    exists s7. split.
    + etransitivity; [exact D1 |]. etransitivity; [exact D2 |].
      etransitivity; [exact D3 |]. etransitivity; [exact D3' |].
      etransitivity; [exact D4 |]. exact D7.
    + rewrite <- Hl, <- Hs7, <- Hs8. etransitivity; eassumption.
  - rewrite L10, L9, L8, L7. f_equal; congruence.
  - exists (tick w7). rewrite I10, I9, I8, I7. simpl.
    replace (info w4) with (info w) by congruence. done.
Qed.

(** *** The trace only grows *)

#[local] Instance grows_preorder : PreOrder grows.
Proof.
  split.
  - intros w. by exists [].
  - intros w1 w2 w3 [l1 H1] [l2 H2]. exists (l2 ++ l1).
    rewrite H2, H1. by rewrite app_assoc.
Qed.

Lemma grows_same w w' : trace w' = trace w -> grows w w'.
Proof. intros H. by exists []. Qed.

Lemma grows_locked {A} (f : State -> A * State) : keeps grows (locked f).
Proof.
  intros w. unfold locked. destruct (deliver _ _ _) as [p s].
  destruct (f s) as [a s']. by apply grows_same.
Qed.

Lemma grows_wait_if_paused : keeps grows _wait_if_paused.
Proof.
  intros w. pose proof (wait_if_paused_spec w) as H.
  destruct (_wait_if_paused w) as [[[] | e |] w']; simpl; [| done |];
    apply grows_same; by destruct H as [[] _].
Qed.

Lemma grows_sleep_with_pause ms : keeps grows (sleep_with_pause ms).
Proof.
  intros w. pose proof (sleep_with_pause_spec ms w) as H.
  destruct (sleep_with_pause ms w) as [[[] | e |] w']; simpl; [| done |];
    apply grows_same; by destruct H as [[] _].
Qed.

Lemma grows_emit e : keeps grows (emit e).
Proof. intros w. by exists [e]. Qed.

Lemma grows_consult {A} (f : nat -> A) : keeps grows (consult f).
Proof. intros w. by apply grows_same. Qed.

Lemma grows_get_lv : keeps grows get_lv.
Proof. intros w. by apply grows_same. Qed.

Lemma grows_put_lv l : keeps grows (put_lv l).
Proof. intros w. by apply grows_same. Qed.

Lemma grows_with_info (f : World -> gmap string InfoEntry) :
  keeps grows (fun w => (Ret tt, with_info (f w) w)).
Proof. intros w. by apply grows_same. Qed.

Ltac grows_step :=
  match goal with
  | |- keeps _ (bind _ _) => apply keeps_bind; [typeclasses eauto | | intros ?]
  | |- keeps _ (try_except _ _) => apply keeps_try_except; [typeclasses eauto | | intros ?]
  | |- keeps _ (try_finally _ _) => apply keeps_try_finally; [typeclasses eauto | |]
  | |- keeps _ (for_each _ _) => apply keeps_for_each; [typeclasses eauto | intros ?]
  | |- keeps _ (ret _) => apply keeps_ret; typeclasses eauto
  | |- keeps _ (raise _) => apply keeps_raise; typeclasses eauto
  | |- keeps _ _wait_if_paused => apply grows_wait_if_paused
  | |- keeps _ (sleep_with_pause _) => apply grows_sleep_with_pause
  | |- keeps _ (emit _) => apply grows_emit
  | |- keeps _ (print _) => apply grows_emit
  | |- keeps _ (close_browser_windows _) => apply grows_emit
  | |- keeps _ (consult _) => apply grows_consult
  | |- keeps _ get_lv => apply grows_get_lv
  | |- keeps _ (put_lv _) => apply grows_put_lv
  | |- keeps _ read_running => apply grows_locked
  | |- keeps _ (update _) => apply grows_locked
  | |- keeps _ (locked _) => apply grows_locked
  | |- keeps _ (fun w => (Ret tt, with_info _ w)) => apply grows_with_info
  | |- keeps _ (if ?b then _ else _) => destruct b
  | |- keeps _ (match ?x with _ => _ end) => destruct x
  end.

Section WorkerGrows.
Variable E : Env.



Lemma grows_playwright_search q : keeps grows (playwright_search E q).
Proof. unfold playwright_search. repeat grows_step. Qed.

Lemma grows_bump name is_pc delta :
  keeps grows (bump_profile_progress_io E name is_pc delta).
Proof. unfold bump_profile_progress_io. repeat grows_step. Qed.

Lemma grows_random_uniform lo hi : keeps grows (random_uniform E lo hi).
Proof. unfold random_uniform. repeat grows_step. Qed.

Lemma grows_mobile_query search on_error lo hi delay name mq :
  (forall q, keeps grows (search q)) ->
  keeps grows (mobile_query E search on_error lo hi delay name mq).
Proof.
  intros Hs. unfold mobile_query.
  repeat (grows_step || apply Hs || apply grows_bump || apply grows_random_uniform).
Qed.


Lemma grows_playwright_pass delay name mqueries :
  keeps grows (playwright_pass E delay name mqueries).
Proof.
  unfold playwright_pass.
  repeat (grows_step || apply grows_mobile_query || apply grows_playwright_search).
Qed.










End WorkerGrows.

(** *** Progress entries only advance *)

Lemma entries_le_refl m : entries_le m m.
Proof. intros name e H. exists e. split; [done | lia]. Qed.

Lemma entries_le_trans m1 m2 m3 : entries_le m1 m2 -> entries_le m2 m3 -> entries_le m1 m3.
Proof.
  intros H12 H23 name e H. destruct (H12 name e H) as (e2 & H2 & Ht2 & Hd2).
  destruct (H23 name e2 H2) as (e3 & H3 & Ht3 & Hd3).
  exists e3. split; [done |]. split; [congruence | lia].
Qed.

#[local] Instance advances_preorder : PreOrder advances.
Proof.
  split.
  - intros s Hok. split; [done |]. split; apply entries_le_refl.
  - intros s1 s2 s3 H12 H23 Hok. destruct (H12 Hok) as (Hok2 & Hp12 & Hm12).
    destruct (H23 Hok2) as (Hok3 & Hp23 & Hm23).
    split; [done |]. split; eapply entries_le_trans; eassumption.
Qed.

#[local] Instance progress_mono_preorder : PreOrder progress_mono.
Proof.
  split.
  - intros w. unfold progress_mono. reflexivity.
  - intros w1 w2 w3. unfold progress_mono. intros. etransitivity; eassumption.
Qed.

Lemma advances_same s s' :
  profile_progress s' = profile_progress s -> mobile_progress s' = mobile_progress s ->
  advances s s'.
Proof.
  intros Hp Hm Hok. rewrite Hp, Hm. split; [done |]. split; apply entries_le_refl.
Qed.

Lemma steady_progress_mono w w' : steady w w' -> progress_mono w w'.
Proof. intros ((_ & _ & _ & Hp & _ & _ & _ & Hm) & _). by apply advances_same. Qed.

Lemma keeps_weaken {A} (R R' : World -> World -> Prop) (m : M A) :
  (forall w w', R w w' -> R' w w') -> keeps R m -> keeps R' m.
Proof. intros HR Hm w. apply HR, Hm. Qed.

(** One increment of an entry in place. *)
Lemma bump_done_spec e :
  e_done (bump_done e) = Z.min (e_done e + 1) (e_total e) /\
  e_total (bump_done e) = e_total e.
Proof. done. Qed.

Lemma bump_done_mono e :
  e_done e <= e_total e ->
  e_done e <= e_done (bump_done e) <= e_total (bump_done e).
Proof. intros H. simpl. lia. Qed.

Lemma entries_ok_bump m name e :
  entries_ok m -> e_done e <= e_total e -> entries_ok (<[name := bump_done e]> m).
Proof.
  intros Hok He n e' H. destruct (decide (name = n)) as [-> | Hne].
  - rewrite lookup_insert_eq in H. injection H as <-. simpl. lia.
  - rewrite lookup_insert_ne in H by done. by eapply Hok.
Qed.

Lemma entries_le_bump m name e :
  m !! name = Some e -> e_done e <= e_total e -> entries_le m (<[name := bump_done e]> m).
Proof.
  intros Hm He n e' H. destruct (decide (name = n)) as [-> | Hne].
  - rewrite lookup_insert_eq. exists (bump_done e). split; [done |].
    assert (e' = e) as -> by congruence. simpl. lia.
  - rewrite lookup_insert_ne by done. exists e'. split; [done | lia].
Qed.

Lemma entries_le_fresh m name e :
  m !! name = None -> entries_le m (<[name := e]> m).
Proof.
  intros Hm n e' H. destruct (decide (name = n)) as [-> | Hne]; [congruence |].
  rewrite lookup_insert_ne by done. exists e'. split; [done | lia].
Qed.

Lemma advances_desktop_progress_update name c s :
  advances s (desktop_progress_update name c s).
Proof.
  intros [Hp Hm]. unfold desktop_progress_update. simpl.
  destruct (profile_progress s !! name) as [e |] eqn:He; simpl.
  - split; [split; [| done] |]; [| split; [| apply entries_le_refl]].
    + apply entries_ok_bump; [done | by eapply Hp].
    + apply entries_le_bump; [done | by eapply Hp].
  - split; [done |]. split; apply entries_le_refl.
Qed.

Lemma advances_mobile_progress_update msc name s :
  0 <= msc -> advances s (mobile_progress_update msc name s).
Proof.
  intros Hc [Hp Hm]. unfold mobile_progress_update. simpl.
  destruct (mobile_progress s !! name) as [e |] eqn:He; simpl.
  - split; [split; [done |] |]; [| split; [apply entries_le_refl |]].
    + apply entries_ok_bump; [done | by eapply Hm].
    + apply entries_le_bump; [done | by eapply Hm].
  - split; [split; [done |] |]; [| split; [apply entries_le_refl |]].
    + apply entries_ok_bump; [done | simpl; lia].
    + by apply entries_le_fresh.
Qed.

Lemma advances_data_eq s s' : data_eq s s' -> advances s s'.
Proof. intros (_ & _ & _ & Hp & _ & _ & _ & Hm). by apply advances_same. Qed.

Lemma mono_locked {A} (f : State -> A * State) :
  (forall s, advances s (f s).2) -> keeps progress_mono (locked f).
Proof.
  intros Hf w. unfold locked, progress_mono.
  pose proof (deliver_data_eq (now w) (pending w) (st w)) as Hd.
  destruct (deliver (now w) (pending w) (st w)) as [p s]; simpl in *.
  specialize (Hf s). destruct (f s) as [a s']; simpl in *.
  etransitivity; [apply advances_data_eq, Hd | exact Hf].
Qed.

Lemma mono_same_st {A} (m : M A) :
  (forall w, st (m w).2 = st w) -> keeps progress_mono m.
Proof. intros H w. unfold progress_mono. rewrite H. reflexivity. Qed.

Ltac mono_step :=
  match goal with
  | |- keeps _ (bind _ _) => apply keeps_bind; [typeclasses eauto | | intros ?]
  | |- keeps _ (try_except _ _) => apply keeps_try_except; [typeclasses eauto | | intros ?]
  | |- keeps _ (try_finally _ _) => apply keeps_try_finally; [typeclasses eauto | |]
  | |- keeps _ (for_each _ _) => apply keeps_for_each; [typeclasses eauto | intros ?]
  | |- keeps _ (ret _) => apply keeps_ret; typeclasses eauto
  | |- keeps _ (raise _) => apply keeps_raise; typeclasses eauto
  | |- keeps _ _wait_if_paused =>
      apply (keeps_weaken steady); [apply steady_progress_mono | apply keeps_wait_if_paused]
  | |- keeps _ (sleep_with_pause _) =>
      apply (keeps_weaken steady); [apply steady_progress_mono | apply keeps_sleep_with_pause]
  | |- keeps _ (native_search _ _) =>
      apply (keeps_weaken steady); [apply steady_progress_mono | apply keeps_native_search]
  | |- keeps _ (random_uniform _ _ _) =>
      apply (keeps_weaken steady); [apply steady_progress_mono | apply keeps_random_uniform]
  | |- keeps _ (emit _) => apply mono_same_st; intros ?; reflexivity
  | |- keeps _ (print _) => apply mono_same_st; intros ?; reflexivity
  | |- keeps _ (close_browser_windows _) => apply mono_same_st; intros ?; reflexivity
  | |- keeps _ (consult _) => apply mono_same_st; intros ?; reflexivity
  | |- keeps _ get_lv => apply mono_same_st; intros ?; reflexivity
  | |- keeps _ (put_lv _) => apply mono_same_st; intros ?; reflexivity
  | |- keeps _ (launch_browser _ _ _) => apply mono_same_st; intros ?; reflexivity
  | |- keeps _ (launch_mobile_browser _ _ _) => apply mono_same_st; intros ?; reflexivity
  | |- keeps _ (fun w => (Ret tt, with_info _ w)) => apply mono_same_st; intros ?; reflexivity
  | |- keeps _ read_running => apply mono_locked; intros ?; reflexivity
  | |- keeps _ (update (desktop_progress_update _ _)) =>
      apply mono_locked; intros ?; apply advances_desktop_progress_update
  | |- keeps _ (update (mobile_progress_update _ _)) =>
      apply mono_locked; intros ?; apply advances_mobile_progress_update; assumption
  | |- keeps _ (update _) =>
      apply mono_locked; intros ?; apply advances_data_eq; unfold data_eq, final_reset;
      simpl; tauto
  | |- keeps _ (locked _) =>
      apply mono_locked; intros ?; apply advances_data_eq; unfold data_eq; simpl; tauto
  | |- keeps _ (if ?b then _ else _) => destruct b
  | |- keeps _ (match ?x with _ => _ end) => destruct x
  end.

Section WorkerMono.
Variable E : Env.

Lemma mono_bump name is_pc delta :
  keeps progress_mono (bump_profile_progress_io E name is_pc delta).
Proof. unfold bump_profile_progress_io. repeat mono_step. Qed.

Lemma mono_terminate_process pid : keeps progress_mono (terminate_process E pid).
Proof. unfold terminate_process. repeat mono_step. Qed.

Lemma mono_desktop_query delay name q :
  keeps progress_mono (desktop_query E delay name q).
Proof. unfold desktop_query. repeat (mono_step || apply mono_bump). Qed.

Lemma mono_cap_policy browser name : keeps progress_mono (cap_policy E browser name).
Proof. unfold cap_policy. repeat (mono_step || apply mono_terminate_process). Qed.

Lemma mono_mobile_query search on_error lo hi delay name mq :
  0 <= MOBILE_SEARCH_COUNT E ->
  (forall q, keeps progress_mono (search q)) ->
  keeps progress_mono (mobile_query E search on_error lo hi delay name mq).
Proof.
  intros Hc Hs. unfold mobile_query. repeat (mono_step || apply Hs || apply mono_bump).
Qed.

Lemma mono_playwright_search q : keeps progress_mono (playwright_search E q).
Proof. unfold playwright_search. repeat mono_step. Qed.

Lemma mono_playwright_pass delay name mqueries :
  0 <= MOBILE_SEARCH_COUNT E ->
  keeps progress_mono (playwright_pass E delay name mqueries).
Proof.
  intros Hc. unfold playwright_pass.
  repeat (mono_step || apply mono_mobile_query || apply mono_playwright_search
          || assumption).
Qed.

Lemma mono_fallback_pass delay browser name directory mqueries :
  0 <= MOBILE_SEARCH_COUNT E ->
  keeps progress_mono (fallback_pass E delay browser name directory mqueries).
Proof.
  intros Hc. unfold fallback_pass.
  repeat (mono_step || apply mono_mobile_query || assumption || (intros ?; mono_step)).
Qed.
End WorkerMono.

Section WorkerMono2.
Variable E : Env.

Lemma advances_fresh_mobile name msc s :
  mobile_progress s !! name = None -> 0 <= msc ->
  advances s (set_mobile_progress (<[name := mkEntry 0 msc]> (mobile_progress s)) s).
Proof.
  intros Hn Hc [Hp Hm]. simpl. split; [split; [done |] |].
  - intros n e H. destruct (decide (name = n)) as [-> | Hne].
    + rewrite lookup_insert_eq in H. injection H as <-. done.
    + rewrite lookup_insert_ne in H by done. by eapply Hm.
  - split; [apply entries_le_refl | by apply entries_le_fresh].
Qed.

Lemma mobile_ok_count s name : mobile_ok E s name = true -> 0 < MOBILE_SEARCH_COUNT E.
Proof. unfold mobile_ok. intros H. apply andb_prop in H as [_ H]. lia. Qed.

Lemma mono_mobile_phase fruits delay browser name directory :
  keeps progress_mono (mobile_phase E fruits delay browser name directory).
Proof.
  intros w. unfold mobile_phase.
  apply (locked_case _ _ _ (fun out => progress_mono w out.2)). intros s p Hdl.
  pose proof (deliver_data_eq (now w) (pending w) (st w)) as Hd.
  rewrite Hdl in Hd. simpl in Hd. cbn [fst snd].
  destruct (mobile_ok E s name) eqn:Hok; cbn [negb].
  2:{ simpl. by apply advances_data_eq. }
  apply mobile_ok_count in Hok.
  apply (locked_case _ _ _ (fun out => progress_mono w out.2)). intros s2 p2 Hdl2.
  simpl in Hdl2.
  pose proof (deliver_data_eq (now w) p s) as Hd2.
  rewrite Hdl2 in Hd2. simpl in Hd2. cbn [fst snd].
  match goal with |- progress_mono w (?m ?w2).2 =>
    assert (K : keeps progress_mono m);
    [| transitivity w2; [| apply K] ] end.
  - repeat (mono_step || apply mono_playwright_pass || apply mono_fallback_pass || lia).
  - unfold progress_mono. simpl.
    etransitivity; [apply advances_data_eq, Hd |].
    etransitivity; [apply advances_data_eq, Hd2 |].
    destruct Hd2 as (_ & _ & _ & _ & _ & _ & _ & Hm). rewrite <- Hm.
    destruct (mobile_progress s2 !! name) eqn:Hl; [reflexivity |].
    apply advances_fresh_mobile; [done | lia].
Qed.

Lemma mono_run_profile fruits delay browser profile :
  keeps progress_mono (run_profile E fruits delay browser profile).
Proof.
  unfold run_profile.
  repeat (mono_step || apply mono_desktop_query || apply mono_cap_policy
          || apply mono_mobile_phase).
Qed.

Lemma mono_teardown : keeps progress_mono (teardown E).
Proof. unfold teardown. repeat (mono_step || apply mono_terminate_process). Qed.

Lemma mono_automation_worker fruits delay browser profiles :
  keeps progress_mono (automation_worker E fruits delay browser profiles).
Proof.
  unfold automation_worker.
  repeat (mono_step || apply mono_run_profile || apply mono_teardown).
Qed.
End WorkerMono2.

(** *** Run start *)

Lemma norm_level_idem l : norm_level (norm_level l) = norm_level l.
Proof. unfold norm_level. by destruct (l =? 2). Qed.

Lemma norm_level_cases l : norm_level l = 1 \/ norm_level l = 2.
Proof. unfold norm_level. destruct (l =? 2); auto. Qed.

Lemma get_or_init_level today info name :
  default 1 (i_level (get_or_init_profile today info name).1) = lvl_of info name.
Proof.
  unfold get_or_init_profile, lvl_of, stored_level. simpl. by case_decide.
Qed.

Lemma get_or_init_lvl_of today info name n :
  lvl_of (get_or_init_profile today info name).2 n = lvl_of info n.
Proof.
  unfold get_or_init_profile, lvl_of, stored_level. simpl.
  destruct (decide (name = n)) as [-> | Hne].
  - rewrite lookup_insert_eq. simpl. case_decide; simpl; apply norm_level_idem.
  - by rewrite lookup_insert_ne.
Qed.

Section Seed.
Variable E : Env.
Variable mobile_enabled : bool.
Variable clock : Z.

Lemma seed_step_spec acc p :
  let name := profile_key p in
  let info := sd_info acc in
  let r := seed_step E mobile_enabled clock acc p in
  sd_profile_progress r = <[name := seeded_entry info name]> (sd_profile_progress acc) /\
  sd_profile_eligibility r = <[name := seeded_elig info name]> (sd_profile_eligibility acc) /\
  sd_mobile_progress r =
    (if seeds_mobile E mobile_enabled info name
     then <[name := mkEntry 0 (MOBILE_SEARCH_COUNT E)]> (sd_mobile_progress acc)
     else sd_mobile_progress acc) /\
  sd_total_searches r = sd_total_searches acc + desktop_quota (lvl_of info name) /\
  (forall n, lvl_of (sd_info r) n = lvl_of info n).
Proof.
  cbn zeta. unfold seed_step, seeded_entry, seeded_elig, seeds_mobile.
  pose proof (get_or_init_level (today E) (sd_info acc) (profile_key p)) as Hl.
  pose proof (get_or_init_lvl_of (today E) (sd_info acc) (profile_key p)) as Hi.
  destruct (get_or_init_profile (today E) (sd_info acc) (profile_key p)) as [entry info'].
  simpl in *. rewrite Hl. done.
Qed.

Lemma seed_fold_spec info0 ps : forall acc,
  (forall n, lvl_of (sd_info acc) n = lvl_of info0 n) ->
  let r := fold_left (seed_step E mobile_enabled clock) ps acc in
  let keys := map profile_key ps in
  sd_total_searches r
    = sd_total_searches acc + Zsum (map (fun k => desktop_quota (lvl_of info0 k)) keys) /\
  (forall n, sd_profile_progress r !! n =
             if decide (n ∈ keys) then Some (seeded_entry info0 n)
             else sd_profile_progress acc !! n) /\
  (forall n, sd_profile_eligibility r !! n =
             if decide (n ∈ keys) then Some (seeded_elig info0 n)
             else sd_profile_eligibility acc !! n) /\
  (forall n, sd_mobile_progress r !! n =
             if decide (n ∈ keys)
             then if seeds_mobile E mobile_enabled info0 n
                  then Some (mkEntry 0 (MOBILE_SEARCH_COUNT E))
                  else sd_mobile_progress acc !! n
             else sd_mobile_progress acc !! n).
Proof.
  induction ps as [| p ps IH]; intros acc Hacc; cbn zeta.
  - simpl. split; [lia |]. repeat split; intros n; by rewrite decide_False by apply not_elem_of_nil.
  - simpl fold_left. destruct (seed_step_spec acc p) as (Hp & He & Hm & Ht & Hi).
    cbn zeta in *.
    assert (Hacc' : forall n, lvl_of (sd_info (seed_step E mobile_enabled clock acc p)) n
                              = lvl_of info0 n) by (intros n; by rewrite Hi).
    destruct (IH _ Hacc') as (IHt & IHp & IHe & IHm). cbn zeta in *.
    assert (Hk : lvl_of (sd_info acc) (profile_key p) = lvl_of info0 (profile_key p))
      by apply Hacc.
    unfold seeded_entry, seeded_elig, seeds_mobile in *.
    split; [| split; [| split]].
    + rewrite IHt, Ht, Hk. simpl. lia.
    + intros n. rewrite IHp, Hp. simpl map.
      destruct (decide (n ∈ map profile_key ps)) as [Hin | Hnin].
      * rewrite decide_True by (apply elem_of_cons; auto). done.
      * destruct (decide (profile_key p = n)) as [<- | Hne].
        -- rewrite decide_True by (apply elem_of_cons; auto). rewrite lookup_insert_eq, Hk. done.
        -- rewrite decide_False by (rewrite elem_of_cons; intros [? | ?]; congruence).
           by rewrite lookup_insert_ne.
    + intros n. rewrite IHe, He. simpl map.
      destruct (decide (n ∈ map profile_key ps)) as [Hin | Hnin].
      * rewrite decide_True by (apply elem_of_cons; auto). done.
      * destruct (decide (profile_key p = n)) as [<- | Hne].
        -- rewrite decide_True by (apply elem_of_cons; auto). rewrite lookup_insert_eq, Hk. done.
        -- rewrite decide_False by (rewrite elem_of_cons; intros [? | ?]; congruence).
           by rewrite lookup_insert_ne.
    + intros n. rewrite IHm, Hm. simpl map. clear IH IHt IHp IHe IHm.
      destruct (decide (profile_key p = n)) as [<- | Hne].
      * rewrite (decide_True (P := profile_key p ∈ profile_key p :: _))
          by (apply elem_of_cons; auto).
        rewrite Hk.
        destruct (mobile_enabled && (lvl_of info0 (profile_key p) =? 2)
                  && (0 <? MOBILE_SEARCH_COUNT E)) eqn:Hs.
        -- rewrite lookup_insert_eq. by destruct (decide _).
        -- by destruct (decide _).
      * assert (Hlk : (if mobile_enabled && (lvl_of (sd_info acc) (profile_key p) =? 2)
                          && (0 <? MOBILE_SEARCH_COUNT E)
                       then <[profile_key p := mkEntry 0 (MOBILE_SEARCH_COUNT E)]>
                              (sd_mobile_progress acc)
                       else sd_mobile_progress acc) !! n = sd_mobile_progress acc !! n).
        { destruct (_ && _ && _); [by rewrite lookup_insert_ne | done]. }
        rewrite Hlk.
        destruct (decide (n ∈ map profile_key ps)) as [Hin | Hnin].
        -- rewrite decide_True by (apply elem_of_cons; auto). done.
        -- rewrite decide_False by (rewrite elem_of_cons; intros [? | ?]; congruence).
           done.
Qed.
End Seed.

Lemma lvl_of_eqb_2 info name : (lvl_of info name =? 2) = (stored_level info name =? 2).
Proof. unfold lvl_of, norm_level. by destruct (stored_level info name =? 2) eqn:H. Qed.

Lemma iter_bump_done n : forall e,
  e_done e <= e_total e ->
  e_done (Nat.iter n bump_done e) = Z.min (e_done e + Z.of_nat n) (e_total e) /\
  e_total (Nat.iter n bump_done e) = e_total e.
Proof.
  induction n as [| n IH]; intros e He.
  - simpl. lia.
  - rewrite Nat.iter_succ. destruct (IH e He) as [Hd Ht]. simpl. rewrite Hd, Ht. lia.
Qed.

Lemma percent_nonneg c T : 0 <= c -> (0 <= percent c (Z.max 1 T))%Q.
Proof.
  intros Hc. unfold percent. assert (Ht : 1 <= Z.max 1 T) by lia.
  destruct (Z.max 1 T) as [| t | t]; [lia | | lia].
  unfold Qle, Qdiv, Qmult, Qinv, inject_Z. simpl. nia.
Qed.

Lemma percent_le_100 c T : c <= Z.max 1 T -> (percent c (Z.max 1 T) <= 100)%Q.
Proof.
  intros Hc. unfold percent. assert (Ht : 1 <= Z.max 1 T) by lia.
  destruct (Z.max 1 T) as [| t | t]; [lia | | lia].
  unfold Qle, Qdiv, Qmult, Qinv, inject_Z. simpl. nia.
Qed.


Lemma later_all_served w w' t :
  later w w' -> pending w' = [] -> now w' <= t -> snapshot w t = st w'.
Proof.
  intros L Hp Ht. rewrite <- (later_snapshot w w' t L Ht).
  unfold snapshot. by rewrite Hp.
Qed.

Lemma wait_if_paused_stop w t :
  now w <= t -> is_running (snapshot w t) = false ->
  exists w', _wait_if_paused w = (Ret tt, w') /\ now w' < t + QUANTUM.
Proof.
  intros Ht Hs. apply wait_if_paused_within; [done |].
  intros u Hu. apply blocked_stopped. eapply snapshot_stopped; [exact Hs | lia].
Qed.

Lemma sleep_with_pause_stop ms w t :
  now w <= t -> is_running (snapshot w t) = false ->
  exists w', sleep_with_pause ms w = (Ret tt, w') /\ now w' < t + 2 * QUANTUM.
Proof.
  intros Ht Hs. pose proof (sleep_with_pause_spec ms w) as H.
  destruct (sleep_with_pause ms w) as [[[] | e |] w']; [| done |].
  - exists w'. split; [done |]. destruct H as (_ & _ & Hstop & _).
    specialize (Hstop t ltac:(intros u Hu; by eapply snapshot_stopped)).
    unfold QUANTUM in *. lia.
  - destruct H as (L & Hp & Hb). exfalso.
    pose proof (later_all_served w w' (Z.max t (now w')) L Hp ltac:(lia)) as Heq.
    assert (Hr : is_running (st w') = false).
    { rewrite <- Heq. eapply snapshot_stopped; [exact Hs | lia]. }
    rewrite (blocked_stopped _ Hr) in Hb. done.
Qed.

(** *** The query sequencer *)

Lemma build_loop_spec hd base count out i :
  Query.build_loop hd base count out i =
  out ++ map (Query.cyc hd base) (seq i (Z.to_nat count - length out)).
Proof.
  funelim (Query.build_loop hd base count out i).
  - rewrite H. rewrite length_app. simpl.
    replace (Z.to_nat count - length out)%nat
      with (S (Z.to_nat count - (length out + 1)))%nat by lia.
    simpl. rewrite <- app_assoc. reflexivity.
  - replace (Z.to_nat count - length out)%nat with 0%nat by lia.
    simpl. rewrite app_nil_r. reflexivity.
Qed.

Lemma py_slice_to_nonneg {A} (out : list A) count :
  0 <= count -> Query.py_slice_to out count = take (Z.to_nat count) out.
Proof.
  intros H. unfold Query.py_slice_to. destruct (Z.leb_spec 0 count); [done | lia].
Qed.

Lemma build_queries_cons hd tl count :
  0 <= count ->
  Query._build_queries (hd :: tl) count
  = map (Query.cyc hd (hd :: tl)) (seq 0 (Z.to_nat count)).
Proof.
  intros H. unfold Query._build_queries.
  rewrite build_loop_spec, py_slice_to_nonneg by done.
  simpl. rewrite Nat.sub_0_r. apply take_ge. rewrite length_map, length_seq. lia.
Qed.

(** With a negative count the loop does not run and the slice is empty. *)
Lemma build_queries_negative base count : count < 0 -> Query._build_queries base count = [].
Proof.
  intros H. destruct base as [| hd tl]; [done |]. unfold Query._build_queries.
  rewrite build_loop_spec. replace (Z.to_nat count) with 0%nat by lia. simpl.
  unfold Query.py_slice_to. destruct (0 <=? count); apply take_nil.
Qed.

(** *** The update blocks *)

Lemma desktop_progress_update_lookup name c s :
  profile_progress (desktop_progress_update name c s) !! name
  = bump_done <$> profile_progress s !! name.
Proof.
  unfold desktop_progress_update. simpl.
  destruct (profile_progress s !! name) as [e |] eqn:He; simpl.
  - by rewrite lookup_insert_eq.
  - by rewrite He.
Qed.

Lemma desktop_progress_update_fields name c s :
  progress (desktop_progress_update name c s) = percent c (Z.max 1 (total s)) /\
  completed (desktop_progress_update name c s) = c /\
  total (desktop_progress_update name c s) = total s.
Proof.
  unfold desktop_progress_update. simpl. by destruct (profile_progress s !! name).
Qed.

Lemma desktop_quota_nonneg l : 0 <= desktop_quota l.
Proof. unfold desktop_quota. destruct (l =? 1); lia. Qed.

Lemma seeded_entries_ok E clock req s info memory sr :
  start_automation E clock req s info memory = inr sr ->
  entries_ok (profile_progress (sr_state sr)) /\
  entries_ok (mobile_progress (sr_state sr)).
Proof.
  unfold start_automation. destruct (is_running s); [done |].
  destruct (r_fruits req) as [| f fs]; [done |].
  destruct (resolve_profiles memory req) as [profiles memory'].
  intros [= <-]. simpl.
  destruct (seed_fold_spec E (r_mobileEnabled req) clock info profiles
              (mkSeed ∅ ∅ ∅ ∅ 0 info) ltac:(done)) as (_ & Hp & _ & Hm).
  cbn zeta in *. simpl in *. fold (seed E (r_mobileEnabled req) clock info profiles) in *.
  split; intros name e.
  - rewrite Hp. destruct (decide _); [| by rewrite lookup_empty].
    intros [= <-]. simpl. apply desktop_quota_nonneg.
  - rewrite Hm. destruct (decide _); [| by rewrite lookup_empty].
    destruct (seeds_mobile E (r_mobileEnabled req) info name) eqn:Hs;
      [| by rewrite lookup_empty].
    intros [= <-]. simpl. unfold seeds_mobile in Hs.
    apply andb_prop in Hs as [_ Hs]. lia.
Qed.


(** *** The completed counter stays within the total *)

Section Budget.
Variable T : Z.
Variable pp0 : gmap string Entry.

Local Abbreviation within := (within_budget T pp0).
Local Abbreviation spends := (spends_budget T pp0).
Local Abbreviation cost := (query_cost pp0).

Lemma within_le B B' w : B <= B' -> within B' w -> within B w.
Proof.
  intros H (H1 & H2 & H3 & H4 & H5).
  split; [done |]. split; [done |]. split; [done |]. split; [lia | done].
Qed.

Lemma spends_weaken {A} n n' (m : M A) : 0 <= n <= n' -> spends n m -> spends n' m.
Proof.
  intros Hn Hm B w HB Hw.
  apply (within_le B (B + (n' - n))); [lia |]. apply Hm; [lia |].
  by replace (B + (n' - n) + n) with (B + n') by lia.
Qed.

Lemma spends_ret {A} (a : A) : spends 0 (ret a).
Proof. intros B w HB Hw. simpl. by rewrite Z.add_0_r in Hw. Qed.

Lemma spends_raise {A} e : spends 0 (@raise A e).
Proof. intros B w HB Hw. simpl. by rewrite Z.add_0_r in Hw. Qed.

Lemma spends_bind {A C} a b (m : M A) (k : A -> M C) :
  0 <= a -> 0 <= b ->
  spends a m -> (forall x, spends b (k x)) -> spends (a + b) (bind m k).
Proof.
  intros Ha Hb Hm Hk B w HB Hw. unfold bind.
  specialize (Hm (B + b) w ltac:(lia)). rewrite <- Z.add_assoc, (Z.add_comm b a), Z.add_assoc in Hm.
  replace (B + a + b) with (B + (a + b)) in Hm by lia. specialize (Hm Hw).
  destruct (m w) as [[x | e |] w1]; simpl in *.
  - by apply Hk.
  - apply (within_le B (B + b)); [lia | done].
  - apply (within_le B (B + b)); [lia | done].
Qed.

Lemma spends_bind0 {A C} (m : M A) (k : A -> M C) n :
  0 <= n -> spends 0 m -> (forall x, spends n (k x)) -> spends n (bind m k).
Proof.
  intros Hn Hm Hk. replace n with (0 + n) by lia. by apply spends_bind.
Qed.

Lemma spends_bind_r {A C} (m : M A) (k : A -> M C) n :
  0 <= n -> spends n m -> (forall x, spends 0 (k x)) -> spends n (bind m k).
Proof.
  intros Hn Hm Hk. replace n with (n + 0) by lia. by apply spends_bind.
Qed.

Lemma spends_try_except {A} (body : M A) handler n :
  0 <= n -> spends n body -> (forall e, spends 0 (handler e)) ->
  spends n (try_except body handler).
Proof.
  intros Hn Hm Hk B w HB Hw. unfold try_except. specialize (Hm B w HB Hw).
  destruct (body w) as [[x | e |] w1]; simpl in *; [done | | done].
  apply Hk; [done |]. by rewrite Z.add_0_r.
Qed.

Lemma spends_try_finally {A} (body : M A) fin n :
  0 <= n -> spends n body -> spends 0 fin -> spends n (try_finally body fin).
Proof.
  intros Hn Hm Hk B w HB Hw. unfold try_finally. specialize (Hm B w HB Hw).
  destruct (body w) as [[x | e |] w1]; simpl in *; [| | done].
  all: specialize (Hk B w1 HB ltac:(by rewrite Z.add_0_r)).
  all: by destruct (fin w1) as [[[] | e' |] w2].
Qed.

Lemma spends_for_each {A} (cost : A -> Z) (l : list A) body :
  (forall x, 0 <= cost x) ->
  (forall x, x ∈ l -> spends (cost x) (body x)) ->
  spends (Zsum (map cost l)) (for_each l body).
Proof.
  intros Hc. induction l as [| x l IH]; intros Hb; simpl; [apply spends_ret |].
  assert (Hs : 0 <= Zsum (map cost l)).
  { clear -Hc. induction l as [| y l IH]; simpl; [lia |]. specialize (Hc y). lia. }
  apply spends_bind; [apply Hc | done | apply Hb; apply elem_of_cons; auto |].
  intros []; [apply IH; intros y Hy; apply Hb; apply elem_of_cons; auto |].
  apply (spends_weaken 0); [lia | apply spends_ret].
Qed.

Lemma spends_for_each0 {A} (l : list A) body :
  (forall x, spends 0 (body x)) -> spends 0 (for_each l body).
Proof.
  intros Hb. replace 0 with (Zsum (map (fun _ : A => 0) l))
    by (clear; induction l; simpl; lia).
  apply spends_for_each; [lia |]. intros x _. apply Hb.
Qed.

Lemma spends_steady {A} (m : M A) : keeps steady m -> spends 0 m.
Proof.
  intros Hm B w HB Hw. rewrite Z.add_0_r in Hw.
  destruct (Hm w) as ((Dp & Dc & Dt & Dpp & _) & _ & Hl).
  destruct Hw as (H1 & H2 & H3 & H4 & H5).
  unfold within_budget. rewrite Dp, Dc, Dt, Dpp, Hl. done.
Qed.

Lemma spends_same {A} (m : M A) :
  (forall w, st (m w).2 = st w /\ l_completed (lv (m w).2) = l_completed (lv w)) ->
  spends 0 m.
Proof.
  intros Hm B w HB Hw. rewrite Z.add_0_r in Hw. destruct (Hm w) as [Hs Hl].
  unfold within_budget in *. rewrite Hs, Hl. done.
Qed.

Lemma spends_get_lv {C} n (k : Locals -> M C) :
  (forall B w, 0 <= B -> within (B + n) w -> within B (k (lv w) w).2) ->
  spends n (bind get_lv k).
Proof. intros H B w HB Hw. unfold bind, get_lv. by apply H. Qed.

Lemma within_put_lv B w l :
  l_completed l = l_completed (lv w) -> within B w -> within B (with_lv l w).
Proof. intros Hl Hw. unfold within_budget in *. simpl. by rewrite Hl. Qed.

Lemma spends_locked {A} (f : State -> A * State) :
  (forall s, data_eq s (f s).2) -> spends 0 (locked f).
Proof. intros Hf. apply spends_steady. by apply keeps_locked. Qed.

Lemma Zsum_ones {A} (l : list A) : Zsum (map (fun _ => 1) l) = Z.of_nat (length l).
Proof. induction l as [| x l IH]; simpl in *; lia. Qed.

Lemma build_queries_length fruits c :
  Z.of_nat (length (Query._build_queries fruits c)) <= Z.max 0 c.
Proof.
  destruct (Z.lt_ge_cases c 0) as [Hc | Hc].
  - rewrite build_queries_negative by done. simpl. lia.
  - destruct fruits as [| hd tl]; [simpl; lia |].
    rewrite build_queries_cons by done. rewrite length_map, length_seq. lia.
Qed.

Lemma spends_modify_lv (g : Locals -> Locals) :
  (forall l, l_completed (g l) = l_completed l) ->
  spends 0 (bind get_lv (fun l => put_lv (g l))).
Proof. intros Hg. apply spends_same. intros w. simpl. by rewrite Hg. Qed.

Ltac spends_step :=
  match goal with
  | |- spends _ (bind get_lv (fun l => put_lv _)) =>
      apply spends_modify_lv; intros ?; reflexivity
  | |- spends _ (bind _ _) => apply spends_bind0; [lia | | intros ?]
  | |- spends _ (try_except _ _) => apply spends_try_except; [lia | | intros ?]
  | |- spends _ (try_finally _ _) => apply spends_try_finally; [lia | |]
  | |- spends 0 (for_each _ _) => apply spends_for_each0; intros ?
  | |- spends _ (ret _) => apply (spends_weaken 0); [lia | apply spends_ret]
  | |- spends _ (raise _) => apply (spends_weaken 0); [lia | apply spends_raise]
  | |- spends _ _wait_if_paused => apply spends_steady, keeps_wait_if_paused
  | |- spends _ (sleep_with_pause _) => apply spends_steady, keeps_sleep_with_pause
  | |- spends _ (native_search _ _) => apply spends_steady, keeps_native_search
  | |- spends _ (random_uniform _ _ _) => apply spends_steady, keeps_random_uniform
  | |- spends _ (emit _) => apply spends_same; intros ?; done
  | |- spends _ (print _) => apply spends_same; intros ?; done
  | |- spends _ (close_browser_windows _) => apply spends_same; intros ?; done
  | |- spends _ (consult _) => apply spends_same; intros ?; done
  | |- spends _ (launch_browser _ _ _) => apply spends_same; intros ?; done
  | |- spends _ (launch_mobile_browser _ _ _) => apply spends_same; intros ?; done
  | |- spends _ (fun w => (Ret tt, with_info _ w)) => apply spends_same; intros ?; done
  | |- spends _ read_running => apply spends_locked; intros ?; reflexivity
  | |- spends _ (update _) =>
      apply spends_locked; intros ?; unfold data_eq, final_reset, mobile_progress_update;
      simpl; tauto
  | |- spends _ (locked _) => apply spends_locked; intros ?; unfold data_eq; simpl; tauto
  | |- spends _ (if ?b then _ else _) => destruct b
  | |- spends _ (match ?x with _ => _ end) => destruct x
  end.

Variable E : Env.

Lemma spends_bump name is_pc delta : spends 0 (bump_profile_progress_io E name is_pc delta).
Proof. unfold bump_profile_progress_io. repeat spends_step. Qed.

Lemma spends_terminate_process pid : spends 0 (terminate_process E pid).
Proof. unfold terminate_process. repeat spends_step. Qed.

Lemma within_counted B w name s :
  0 <= B -> within (B + 1) w -> data_eq (st w) s ->
  forall w', st w' = desktop_progress_update name (l_completed (lv w) + 1) s ->
             lv w' = set_l_completed (l_completed (lv w) + 1) (lv w) ->
             within B w'.
Proof.
  intros HB (Ht & Hpp & Hc & Hl & Hp) (_ & _ & Dt & Dpp & _) w' Hs Hlv.
  destruct (desktop_progress_update_fields name (l_completed (lv w) + 1) s)
    as (Fp & Fc & Ft).
  unfold within_budget. rewrite Hs, Hlv, Fp, Fc, Ft, Dt, Ht. simpl.
  split; [done |]. split; [| split; [lia |]; split; [lia |]].
  - intros n. rewrite <- Hpp, <- Dpp. unfold desktop_progress_update. simpl.
    destruct (profile_progress s !! name) as [e |] eqn:He; simpl; [| done].
    destruct (decide (name = n)) as [<- | Hne].
    + rewrite lookup_insert_eq, He. done.
    + by rewrite lookup_insert_ne.
  - split; [apply percent_nonneg; lia | apply percent_le_100; lia].
Qed.

Lemma spends_desktop_query delay name q : spends 1 (desktop_query E delay name q).
Proof.
  unfold desktop_query. spends_step; [spends_step |]. spends_step; [spends_step |].
  spends_step; [spends_step |]. spends_step; [spends_step |]. spends_step; [repeat spends_step |].
  apply spends_get_lv. intros B w HB Hw.
  unfold bind at 1. unfold put_lv at 1.
  set (c := l_completed (lv w) + 1).
  apply (locked_case _ _ _ (fun out => within B out.2)). intros s p Hdl. simpl.
  pose proof (deliver_data_eq (now w) (pending w) (st w)) as Hd.
  simpl in Hdl. rewrite Hdl in Hd. simpl in Hd.
  match goal with |- within B (?m ?w2).2 =>
    assert (K : spends 0 m); [| apply K; [done |]; rewrite Z.add_0_r ] end.
  { repeat (spends_step || apply spends_bump). }
  eapply (within_counted B w name s); done.
Qed.

Lemma spends_locked_core {A} (f : State -> A * State) :
  (forall s, progress (f s).2 = progress s /\ completed (f s).2 = completed s /\
             total (f s).2 = total s /\ profile_progress (f s).2 = profile_progress s) ->
  spends 0 (locked f).
Proof.
  intros Hf B w HB Hw. rewrite Z.add_0_r in Hw. unfold locked.
  pose proof (deliver_data_eq (now w) (pending w) (st w)) as (Dp & Dc & Dt & Dpp & _).
  destruct (deliver (now w) (pending w) (st w)) as [p s]; simpl in *.
  destruct (Hf s) as (Fp & Fc & Ft & Fpp). destruct (f s) as [a s']; simpl in *.
  unfold within_budget in *. simpl. rewrite Fp, Fc, Ft, Fpp, Dp, Dc, Dt, Dpp. done.
Qed.

Lemma spends_put_lv_bind {C} n l (k : unit -> M C) B w :
  l_completed l = l_completed (lv w) -> spends n (k tt) ->
  0 <= B -> within (B + n) w -> within B (bind (put_lv l) k w).2.
Proof.
  intros Hl Hk HB Hw. unfold bind, put_lv. apply Hk; [done |].
  by apply within_put_lv.
Qed.

Lemma spends_bind_ret {A C} n (a : A) (k : A -> M C) :
  spends n (k a) -> spends n (bind (ret a) k).
Proof. intros Hk B w HB Hw. by apply Hk. Qed.

Lemma spends_bind_raise {A C} n e (k : A -> M C) : 0 <= n -> spends n (bind (raise e) k).
Proof. intros Hn B w HB Hw. simpl. apply (within_le B (B + n)); [lia | done]. Qed.

Lemma spends_mobile_query search on_error lo hi delay name mq :
  (forall q, spends 0 (search q)) ->
  spends 0 (mobile_query E search on_error lo hi delay name mq).
Proof.
  intros Hs. unfold mobile_query.
  repeat (apply Hs || apply spends_bump
          || (apply spends_locked_core; intros ?; unfold mobile_progress_update; by simpl)
          || spends_step).
Qed.

Lemma spends_playwright_search q : spends 0 (playwright_search E q).
Proof. unfold playwright_search. repeat spends_step. Qed.

Lemma spends_playwright_pass delay name mqueries :
  spends 0 (playwright_pass E delay name mqueries).
Proof.
  unfold playwright_pass.
  repeat (spends_step || apply spends_mobile_query || apply spends_playwright_search).
Qed.

Lemma spends_fallback_pass delay browser name directory mqueries :
  spends 0 (fallback_pass E delay browser name directory mqueries).
Proof.
  unfold fallback_pass.
  repeat (spends_step || apply spends_mobile_query || (intros ?; spends_step)).
Qed.

Lemma spends_mobile_phase fruits delay browser name directory :
  spends 0 (mobile_phase E fruits delay browser name directory).
Proof.
  unfold mobile_phase.
  repeat (apply spends_playwright_pass || apply spends_fallback_pass
          || (apply spends_locked_core; intros ?; by case_match)
          || spends_step).
Qed.

Lemma spends_cap_policy browser name : spends 0 (cap_policy E browser name).
Proof.
  unfold cap_policy. apply spends_get_lv. intros B w HB Hw.
  match goal with |- within B (?m w).2 =>
    assert (K : spends 0 m); [| by apply K] end.
  destruct (_ <? _)%nat; [| spends_step].
  spends_step; [| spends_step]. spends_step; [spends_step |].
  spends_step.
  { apply spends_get_lv. intros B' w' HB' Hw'.
    destruct (browser_processes (lv w')) as [| [o lbl] rest].
    - simpl. by rewrite Z.add_0_r in Hw'.
    - apply (spends_put_lv_bind 0); [done | apply spends_terminate_process | done | done]. }
  spends_step.
  { apply spends_get_lv. intros B' w' HB' Hw'. rewrite Z.add_0_r in Hw'.
    destruct (completed_profiles (lv w')) as [| c rest]; simpl; [done |].
    by apply within_put_lv. }
  repeat spends_step.
Qed.

Lemma cost_nonneg fruits p : 0 <= cost fruits p.
Proof. unfold query_cost. destruct (p_name p); lia. Qed.

Lemma spends_run_profile fruits delay browser p :
  spends (cost fruits p) (run_profile E fruits delay browser p).
Proof.
  pose proof (cost_nonneg fruits p) as Hc. unfold run_profile, query_cost in *.
  spends_step; [spends_step |]. destruct (negb _); [spends_step |].
  destruct (p_name p) as [n |]; [| by apply spends_bind_raise].
  apply spends_bind_ret. set (c := Z.max 0 _) in *.
  intros B w HB Hw.
  apply (locked_case _ _ _ (fun out => within B out.2)). intros s q Hdl. cbn [fst snd].
  pose proof (deliver_data_eq (now w) (pending w) (st w)) as Hd.
  rewrite Hdl in Hd. simpl in Hd.
  assert (Hdt : match profile_progress
                        (set_status ("Opening " +:+ browser +:+ " for profile: " +:+ n)
                           (set_current_profile n s)) !! n with
                | Some e => e_total e
                | None => Z.of_nat (length fruits)
                end = default (Z.of_nat (length fruits)) (e_total <$> pp0 !! n)).
  { simpl. destruct Hw as (_ & Hpp & _), Hd as (_ & _ & _ & Dpp & _).
    rewrite <- Hpp, <- Dpp. by destruct (profile_progress s !! n). }
  rewrite Hdt.
  match goal with |- within B (?m ?w1).2 =>
    assert (K : spends c m); [| apply K; [done |] ] end.
  - spends_step; [spends_step |]. spends_step; [repeat spends_step |].
    spends_step; [spends_step |].
    apply spends_bind_r; [lia | |].
    + eapply spends_weaken; [| apply (spends_for_each (fun _ => 1))].
      * rewrite Zsum_ones. subst c. split; [lia | apply build_queries_length].
      * lia.
      * intros dq _. apply spends_desktop_query.
    + intros _. spends_step; [spends_step |].
      spends_step; [apply spends_cap_policy |].
      spends_step; [apply spends_mobile_phase | spends_step].
  - destruct Hw as (H1 & H2 & H3 & H4 & H5), Hd as (Dp & Dc & Dt & Dpp & _).
    unfold within_budget. simpl. rewrite Dp, Dc, Dt, Dpp. done.
Qed.

Lemma spends_teardown : spends 0 (teardown E).
Proof.
  unfold teardown. spends_step; [| spends_step].
  apply spends_get_lv. intros B w HB Hw.
  match goal with |- within B (?m w).2 =>
    assert (K : spends 0 m); [| by apply K] end.
  spends_step. spends_step; [apply spends_terminate_process | spends_step].
Qed.

Lemma spends_profile_loop fruits delay browser profiles :
  spends (Zsum (map (cost fruits) profiles))
    (try_finally
       (try_except (for_each profiles (run_profile E fruits delay browser))
          (fun e => match e with
                    | FailSafeException => print "Failsafe: mouse moved to top-left. Stopping."
                    | PyException _ => print "Automation error:"
                    end))
       (teardown E)).
Proof.
  assert (Hs : 0 <= Zsum (map (cost fruits) profiles)).
  { clear. induction profiles as [| p l IH]; simpl; [lia |].
    pose proof (cost_nonneg fruits p). lia. }
  apply spends_try_finally; [done | | apply spends_teardown].
  apply spends_try_except; [done | | intros []; spends_step].
  apply spends_for_each; [apply cost_nonneg |]. intros pr _. apply spends_run_profile.
Qed.
End Budget.

Lemma resolve_profiles_nonempty memory req : (resolve_profiles memory req).1 <> [].
Proof.
  unfold resolve_profiles.
  destruct (bool_decide _ || bool_decide _).
  - destruct (r_selectedProfiles req) as [| p ps]; [| done].
    destruct (memory !! r_browser req) as [[| q qs] |]; try done;
      by destruct (r_useDefaultIfNoProfile req).
  - done.
Qed.

Lemma start_automation_profiles E clock req s info memory sr :
  start_automation E clock req s info memory = inr sr -> sr_profiles sr <> [].
Proof.
  unfold start_automation. destruct (is_running s); [done |].
  destruct (r_fruits req); [done |].
  pose proof (resolve_profiles_nonempty memory req) as H.
  destruct (resolve_profiles memory req) as [profiles memory'].
  intros [= <-]. done.
Qed.

Lemma seeded_totals E clock req s info memory sr :
  start_automation E clock req s info memory = inr sr ->
  total (sr_state sr)
    = Zsum (map (fun k => desktop_quota (lvl_of info k)) (map profile_key (sr_profiles sr))) /\
  completed (sr_state sr) = 0 /\ progress (sr_state sr) = 0%Q /\
  forall name, name ∈ map profile_key (sr_profiles sr) ->
    profile_progress (sr_state sr) !! name = Some (seeded_entry info name).
Proof.
  unfold start_automation. destruct (is_running s); [done |].
  destruct (r_fruits req) as [| f fs]; [done |].
  destruct (resolve_profiles memory req) as [profiles memory2].
  intros [= <-]. simpl.
  destruct (seed_fold_spec E (r_mobileEnabled req) clock info profiles
              (mkSeed ∅ ∅ ∅ ∅ 0 info) ltac:(done)) as (Ht & Hp & _).
  cbn zeta in *. simpl in *. fold (seed E (r_mobileEnabled req) clock info profiles) in *.
  split; [rewrite Ht; lia |]. split; [done |]. split; [done |].
  intros name Hin. rewrite Hp. by rewrite decide_True.
Qed.

Lemma profile_key_named p n : p_name p = Some n -> n <> "" -> profile_key p = n.
Proof. unfold profile_key. intros -> Hn. by destruct n. Qed.

Lemma seeded_cost pp0 info fruits ps :
  Forall well_named ps ->
  (forall name, name ∈ map profile_key ps -> pp0 !! name = Some (seeded_entry info name)) ->
  Zsum (map (query_cost pp0 fruits) ps)
  = Zsum (map (fun k => desktop_quota (lvl_of info k)) (map profile_key ps)).
Proof.
  induction 1 as [| p ps (n & Hn & Hnn) _ IH]; intros Hk; [done |].
  simpl. rewrite IH by (intros name Hin; apply Hk; simpl; apply elem_of_cons; auto).
  f_equal. unfold query_cost. rewrite Hn.
  rewrite <- (profile_key_named p n Hn Hnn).
  rewrite (Hk (profile_key p)) by (simpl; apply elem_of_cons; auto). simpl.
  pose proof (desktop_quota_nonneg (lvl_of info (profile_key p))). lia.
Qed.

Lemma run_within_budget E clock req s info memory sr reqs :
  start_automation E clock req s info memory = inr sr ->
  Forall well_named (sr_profiles sr) ->
  within_budget (total (sr_state sr)) (profile_progress (sr_state sr)) 0
    (worker E (r_fruits req) (sr_delay sr) (r_browser req) (sr_profiles sr)
       (mkWorld (sr_state sr) (sr_info sr) (mkLocals 0 [] []) reqs 0 0 [])).2.
Proof.
  intros Hstart Hnamed.
  pose proof (start_automation_profiles _ _ _ _ _ _ _ Hstart) as Hne.
  pose proof (seeded_totals _ _ _ _ _ _ _ Hstart) as (Ht & Hc & Hp & Hk).
  pose proof (seeded_cost (profile_progress (sr_state sr)) info (r_fruits req)
                (sr_profiles sr) Hnamed Hk) as Hcost.
  rewrite <- Ht in Hcost.
  set (T := total (sr_state sr)) in *. set (pp0 := profile_progress (sr_state sr)) in *.
  set (w0 := mkWorld _ _ _ _ _ _ _).
  assert (Hw0 : within_budget T pp0 (0 + T) w0).
  { unfold within_budget. simpl. rewrite Hc, Hp. fold T. split; [done |]. split; [done |].
    split; [lia |]. split; [lia |]. split; unfold Qle; simpl; lia. }
  destruct (sr_profiles sr) as [| p ps] eqn:Hps; [done |]. rewrite <- Hps in *.
  assert (Heq : worker E (r_fruits req) (sr_delay sr) (r_browser req) (sr_profiles sr) w0
                = try_finally
                    (try_finally
                       (try_except
                          (for_each (sr_profiles sr)
                             (run_profile E (r_fruits req) (sr_delay sr) (r_browser req)))
                          (fun e => match e with
                                    | FailSafeException =>
                                        print "Failsafe: mouse moved to top-left. Stopping."
                                    | PyException _ => print "Automation error:"
                                    end))
                       (teardown E))
                    (update (set_is_running false)) w0).
  { rewrite Hps. reflexivity. }
  assert (HT : 0 <= T).
  { rewrite <- Hcost. clear. induction (sr_profiles sr) as [| q l IH]; simpl; [lia |].
    pose proof (cost_nonneg pp0 (r_fruits req) q). lia. }
  rewrite Heq. apply (spends_try_finally T pp0 _ _ T); [lia | | | lia | done].
  - rewrite <- Hcost. apply spends_profile_loop.
  - apply spends_locked. intros s0. unfold data_eq. simpl. tauto.
Qed.

(** *** The window cap *)

Lemma keeps_terminate_process E pid : keeps steady (terminate_process E pid).
Proof. unfold terminate_process. repeat keeps_step. Qed.

Lemma quiet_terminate_process E pid : quiet (terminate_process E pid).
Proof. unfold terminate_process. apply quiet_try_except. intros _. apply quiet_ret. Qed.

Lemma bind_ret_eq {A B} (m : M A) (k : A -> M B) w a w1 :
  m w = (Ret a, w1) -> bind m k w = k a w1.
Proof. intros H. unfold bind. by rewrite H. Qed.

Lemma bind_hang_eq {A B} (m : M A) (k : A -> M B) w w1 :
  m w = (Hang, w1) -> bind m k w = (Hang, w1).
Proof. intros H. unfold bind. by rewrite H. Qed.

Lemma evict_oldest E w :
  exists r w',
    (l1 <- get_lv ;;
     match browser_processes l1 with
     | (oldest_process, _) :: rest =>
         put_lv (set_browser_processes rest l1) ;;; terminate_process E oldest_process
     | [] => ret tt
     end) w = (r, w') /\
    (r = Ret tt \/ r = Hang) /\
    lv w' = set_browser_processes (tail (browser_processes (lv w))) (lv w).
Proof.
  change (bind get_lv ?k w) with (k (lv w) w). cbv beta.
  destruct (browser_processes (lv w)) as [| [o lbl] bps] eqn:Hbp.
  - exists (Ret tt), w. split; [done |]. split; [by left |].
    destruct (lv w); simpl in *. by subst.
  - unfold bind, put_lv. set (w1 := with_lv _ w).
    pose proof (keeps_terminate_process E o w1) as (_ & _ & Hl).
    pose proof (quiet_terminate_process E o w1) as Hq.
    destruct (terminate_process E o w1) as [[[] | e |] w2]; simpl in *.
    + exists (Ret tt), w2. split; [done |]. split; [by left | done].
    + by destruct (Hq e).
    + exists Hang, w2. split; [done |]. split; [by right | done].
Qed.

Lemma cap_policy_evicts E browser name w :
  let out := cap_policy E browser name w in
  if (MAX_ACTIVE_BROWSERS <? length (completed_profiles (lv w)))%nat
  then browser_processes (lv out.2) = tail (browser_processes (lv w)) /\
       (out.1 <> Hang -> completed_profiles (lv out.2) = tail (completed_profiles (lv w)))
  else lv out.2 = lv w.
Proof.
  cbn zeta. unfold cap_policy.
  change (bind get_lv ?k w) with (k (lv w) w). cbv beta.
  destruct (_ <? _)%nat eqn:Hlen; [| reflexivity].
  assert (Hcp : exists c rest, completed_profiles (lv w) = c :: rest).
  { destruct (completed_profiles (lv w)) as [| c rest]; [done | eauto]. }
  destruct Hcp as (c & rest & Hcp).
  set (w1 := with_trace (EvCloseWindows browser :: trace w) w).
  destruct (evict_oldest E w1) as (r2 & w2 & HA & Hr2 & Hl2).
  change (lv w1) with (lv w) in Hl2.
  match goal with |- context [try_except ?body ?h w] =>
    assert (Hbody : exists r w', body w = (r, w') /\
              browser_processes (lv w') = tail (browser_processes (lv w)) /\
              (r <> Hang -> completed_profiles (lv w') = tail (completed_profiles (lv w))));
    [| destruct Hbody as (r & w' & Hb & Hbp & Hcp'); unfold try_except; rewrite Hb;
       destruct r as [[] | e |]; simpl; [by split | | by split];
       split; [done | intros _; apply Hcp'; done] ] end.
  rewrite (bind_ret_eq _ _ w tt w1) by done.
  destruct Hr2 as [-> | ->].
  2:{ rewrite (bind_hang_eq _ _ w1 w2) by done. exists Hang, w2.
      split; [done |]. split; [by rewrite Hl2 | done]. }
  rewrite (bind_ret_eq _ _ w1 tt w2) by done. cbv beta.
  set (w3 := with_lv (set_completed_profiles rest (lv w2)) w2).
  rewrite (bind_ret_eq _ _ w2 tt w3).
  2:{ change (bind get_lv ?k w2) with (k (lv w2) w2). cbv beta.
      rewrite Hl2. cbn [completed_profiles set_browser_processes]. rewrite Hcp.
      subst w3. by rewrite Hl2. }
  cbv beta.
  match goal with |- context [bind (sleep_with_pause ?ms) ?k w3] =>
    assert (K : keeps steady (bind (sleep_with_pause ms) k)) by (repeat keeps_step);
    specialize (K w3); destruct K as (_ & _ & Hl4);
    destruct (bind (sleep_with_pause ms) k w3) as [r4 w4] end.
  simpl in Hl4. exists r4, w4. split; [done |]. rewrite Hl4. subst w3. simpl.
  rewrite Hl2. simpl. rewrite Hcp. done.
Qed.

(** ** What a step leaves alone *)

#[local] Instance untouched_preorder : PreOrder untouched.
Proof.
  split.
  - intros w. by split.
  - intros w1 w2 w3 [? ?] [? ?]. split; congruence.
Qed.

Lemma later_untouched w w' : later w w' -> untouched w w'.
Proof. intros [_ _ _ Hl _ Ht]. by split. Qed.

Lemma untouched_locked {A} (f : State -> A * State) : keeps untouched (locked f).
Proof.
  intros w. unfold locked. destruct (deliver _ _ _) as [p s].
  destruct (f s) as [a s']. by split.
Qed.

Lemma untouched_wait_if_paused : keeps untouched _wait_if_paused.
Proof.
  intros w. pose proof (wait_if_paused_spec w) as H.
  destruct (_wait_if_paused w) as [[[] | e |] w']; simpl; [| done |];
    apply later_untouched; tauto.
Qed.

Lemma untouched_sleep_with_pause ms : keeps untouched (sleep_with_pause ms).
Proof.
  intros w. pose proof (sleep_with_pause_spec ms w) as H.
  destruct (sleep_with_pause ms w) as [[[] | e |] w']; simpl; [| done |];
    apply later_untouched; tauto.
Qed.

Lemma untouched_consult {A} (f : nat -> A) : keeps untouched (consult f).
Proof. intros w. by split. Qed.

Lemma untouched_get_lv : keeps untouched get_lv.
Proof. intros w. by split. Qed.

Lemma untouched_with_info (f : World -> gmap string InfoEntry) :
  keeps untouched (fun w => (Ret tt, with_info (f w) w)).
Proof. intros w. by split. Qed.

Lemma keeps_playwright_search E q : keeps steady (playwright_search E q).
Proof. unfold playwright_search. repeat keeps_step. Qed.

Lemma mobile_query_effect E search on_error lo hi delay name mq w :
  (forall q, keeps steady (search q)) ->
  match mobile_query E search on_error lo hi delay name mq w with
  | (Ret Continue, w') =>
      (exists s, data_eq (st w) s /\
                 data_eq (mobile_progress_update (MOBILE_SEARCH_COUNT E) name s) (st w')) /\
      lv w' = lv w /\
      exists n, info w' = if io_ok E n
                          then bump_profile_progress (today E) name false 1 (info w)
                          else info w
  | (Ret Break, w') => steady w w' /\ is_running (st w') = false
  | (Raise _, _) => False
  | (Hang, _) => True
  end.
Proof.
  intros Hsearch. unfold mobile_query.
  run quiet_wait_if_paused a1 w1 H1.
  pose proof (keeps_wait_if_paused w) as S1. rewrite H1 in S1. simpl in S1.
  run (quiet_locked (fun s => (is_running s, s))) a2 w2 H2.
  apply read_running_spec in H2 as [-> S2].
  destruct (is_running (st w2)) eqn:Hrun; simpl.
  2:{ split; [etransitivity; eassumption | done]. }
  run (quiet_locked (fun s => (tt, set_status ("Mobile searching: " +:+ mq)
                                     (set_current_search (mq +:+ " [m]") s)))) a3 w3 H3.
  apply update_spec in H3 as ((s3 & D3 & Hs3) & I3 & L3).
  match goal with |- context [try_except ?b ?h] =>
    run (quiet_try_except b h ltac:(intros; apply quiet_emit)) a4 w4 H4;
    pose proof (keeps_try_except steady b h (Hsearch mq)
                  ltac:(intros; apply keeps_emit) w3) as S4 end.
  rewrite H4 in S4. simpl in S4.
  match goal with |- context [update ?f] => run (quiet_locked (fun s => (tt, f s))) a7 w7 H7 end.
  apply update_spec in H7 as ((s7 & D7 & Hs7) & I7 & L7). simpl in *.
  apply bind_case; [intros a8 w8 H8 | intros e8 w8 H8 | intros w8 H8];
    apply bump_io_spec in H8 as ([=] & Hs8 & L8 & I8); subst a8.
  run (quiet_random_uniform E lo hi) a9 w9 H9.
  pose proof (keeps_random_uniform E lo hi w8) as S9. rewrite H9 in S9. simpl in S9.
  match goal with |- context [sleep_with_pause ?ms] =>
    run (quiet_sleep_with_pause ms) a10 w10 H10;
    pose proof (keeps_sleep_with_pause ms w9) as S10 end.
  rewrite H10 in S10. simpl in S10. simpl.
  destruct S1 as (D1 & I1 & L1), S2 as (D2 & I2 & L2), S4 as (D4 & I4 & L4),
    S9 as (D9 & I9 & L9), S10 as (D10 & I10 & L10).
  split; [| split].
  - assert (D3' : data_eq s3 (st w3)) by (rewrite Hs3; unfold data_eq; simpl; tauto).
    exists s7. split.
    + etransitivity; [exact D1 |]. etransitivity; [exact D2 |].
      etransitivity; [exact D3 |]. etransitivity; [exact D3' |].
      etransitivity; [exact D4 |]. exact D7.
    + rewrite <- Hs7, <- Hs8. etransitivity; eassumption.
  - congruence.
  - exists (tick w7). rewrite I10, I9, I8, I7. simpl.
    replace (info w4) with (info w) by congruence. done.
Qed.

(** ** A worker that nothing holds or stops *)








Section WorkerUndisturbed.
Variable E : Env.











End WorkerUndisturbed.
(** ** The trace of a mobile pass in any run *)

Section WorkerPass.
Variable E : Env.













End WorkerPass.
(** * Specified properties *)

(** C1. [_build_queries]: for an empty [base] the result is empty whatever
    the count; for a non-empty [base] and a count of at least 0 the result
    has exactly [count] elements and its i-th element is
    [base[i % len(base)]]. *)
Theorem build_queries_cycles (base : list string) (count : Z) :
  Query._build_queries [] count = [] /\
  (base <> [] -> 0 <= count ->
   length (Query._build_queries base count) = Z.to_nat count /\
   forall i : nat, (i < Z.to_nat count)%nat ->
     Query._build_queries base count !! i = base !! (i mod length base)%nat).
Proof.
  split; [reflexivity |]. intros Hne Hc.
  destruct base as [| hd tl]; [done |].
  rewrite build_queries_cons by done. split.
  - by rewrite length_map, length_seq.
  - intros i Hi. rewrite list_lookup_fmap, lookup_seq_lt by done.
    remember (hd :: tl) as base eqn:Hb.
    assert (Hlt : (i mod length base < length base)%nat)
      by (apply Nat.mod_upper_bound; subst base; simpl; lia).
    apply lookup_lt_is_Some_2 in Hlt as [x Hx].
    rewrite Hx. cbn [fmap option_fmap option_map]. f_equal.
    unfold Query.cyc. by apply nth_lookup_Some.
Qed.

Lemma build_queries_cycles_witness :
  Query._build_queries ["a"; "b"; "c"] 7 !! 4%nat = ["a"; "b"; "c"] !! (4 mod 3)%nat.
Proof.
  destruct (build_queries_cycles ["a"; "b"; "c"] 7) as [_ H].
  destruct (H ltac:(discriminate) ltac:(lia)) as [_ Hi].
  apply (Hi 4%nat). simpl. lia.
Defined.

(** C2. The cap on tracked browser processes. Evaluated on a run of three
    level-2 profiles with mobile searches enabled and no mobile automation
    runtime: every profile launches a desktop window and a mobile UA window,
    the cap evicts one handle per completed profile from the third on, and
    five handles are tracked when the third profile completes, more than
    [MAX_ACTIVE_BROWSERS]. *)
Theorem cap_exceeded_by_mobile_fallback :
  match run E0 0 req_mobile initial_state info_level2 ∅ [] with
  | inr (Ret _, w') =>
      map snd (browser_processes (lv w'))
        = ["A (mobile)"; "B"; "B (mobile)"; "C"; "C (mobile)"] /\
      completed_profiles (lv w') = ["B"; "C"] /\
      (MAX_ACTIVE_BROWSERS <? length (browser_processes (lv w')))%nat = true
  | _ => False
  end.
Proof. vm_compute. repeat split. Qed.

(** The same cap on a run of four profiles without mobile searches: two
    handles are tracked at the end. *)
Example cap_holds_desktop_only :
  match run E0 0 req_desktop initial_state ∅ ∅ [] with
  | inr (Ret _, w') =>
      map snd (browser_processes (lv w')) = ["C"; "D"] /\
      completed_profiles (lv w') = ["C"; "D"]
  | _ => False
  end.
Proof. vm_compute. repeat split. Qed.

(** C3. Whenever the worker exits, by normal completion, after a stop or
    after an exception, its teardown has run and has left
    [is_running = false], [is_paused = false], [current_search = ""],
    [current_profile = ""] and the status ["Automation completed"] if
    [completed >= total], ["Automation stopped"] otherwise. No exception
    leaves the worker, and a worker that is never paused does exit. *)
Theorem worker_teardown (E : Env) (fruits : list string) (delay : Z)
    (browser : string) (profiles : list ProfileTask) (w : World) :
  let out := automation_worker E fruits delay browser profiles w in
  (out.1 <> Hang -> out.1 = Ret tt /\ torn_down (st out.2)) /\
  (unpausable w -> out.1 <> Hang).
Proof.
  cbn zeta. split.
  - intros Hr. split.
    + pose proof (quiet_automation_worker E fruits delay browser profiles w) as Hq.
      destruct (automation_worker E fruits delay browser profiles w).1 as [[] | e |];
        [done | by destruct (Hq e) | done].
    + revert Hr. unfold automation_worker, bind. simpl.
      set (w0 := with_lv _ w). set (body := try_except _ _).
      intros Hr. destruct (try_finally_fin_runs body (teardown E) w0 Hr)
        as (w1 & _ & _ & Hfin & ->).
      unfold teardown in *. destruct (try_finally_update _ _ _ Hfin) as [s ->].
      apply final_reset_torn_down.
  - intros Hw. by apply safe_automation_worker.
Qed.

Lemma worker_teardown_witness :
  torn_down (st (automation_worker E0 ["apple"] 500 "chrome"
                   [mkProfile None None None] seeded_world).2).
Proof.
  apply (worker_teardown E0 ["apple"] 500 "chrome" [mkProfile None None None] seeded_world).
  vm_compute. discriminate.
Defined.

(** The exit paths of the worker, on runs. A profile without a name raises
    [KeyError] in the profile loop: the error is caught at the outermost
    scope and the run ends stopped. A stop ends the run early. A fail-safe
    raised by a native input action is caught with the other errors of the
    action, so the run goes on and completes. *)
Example worker_exit_paths :
  (automation_worker E0 ["apple"] 500 "chrome" [mkProfile None None None] seeded_world).1
    = Ret tt /\
  status (st (automation_worker E0 ["apple"] 500 "chrome"
                [mkProfile None None None] seeded_world).2) = "Automation stopped" /\
  status (st (automation_worker E0 ["apple"] 500 "chrome" [profile_named "Default"]
                (with_pending [(7000, Stop)] seeded_world)).2) = "Automation stopped" /\
  status (st (automation_worker E_failsafe ["apple"] 500 "chrome" [profile_named "Default"]
                seeded_world).2) = "Automation completed".
Proof. vm_compute. repeat split. Qed.

(** C4, as the code has it. [_wait_if_paused] never raises; it looks at the
    flags once per poll, its polls are one quantum (0.1 s) apart, it returns
    at the first poll that does not find both [is_paused] and [is_running]
    set, and it blocks for ever only if every poll finds both set. Once the
    flags have not both been set for a whole quantum it has returned; in
    particular a stop issued during a pause unblocks it within one quantum.
    [sleep_with_pause] returns within two quanta of a stop, before its
    deadline only when [is_running] is false, and not after its deadline
    when it is never held. Time is the clock of the world: [time.sleep]
    takes exactly its duration and everything else no time. *)
Theorem pacing_contract (w : World) :
  (* _wait_if_paused returns at the first poll that does not find both flags set *)
  (match _wait_if_paused w with
   | (Ret _, w') =>
       blocked (st w') = false /\
       exists k : nat, now w' = now w + QUANTUM * Z.of_nat k /\
         forall j : nat, (j < k)%nat ->
           blocked (snapshot w (now w + QUANTUM * Z.of_nat j)) = true
   | (Hang, w') =>
       pending w' = [] /\
       forall j : nat, blocked (snapshot w (now w + QUANTUM * Z.of_nat j)) = true
   | (Raise _, _) => False
   end) /\
  (* once a flag has flipped for a quantum, it has returned *)
  (forall t, now w <= t ->
     (forall u, t <= u < t + QUANTUM -> blocked (snapshot w u) = false) ->
     exists w', _wait_if_paused w = (Ret tt, w') /\ now w' < t + QUANTUM) /\
  (* a stop unblocks it *)
  (forall t, now w <= t -> is_running (snapshot w t) = false ->
     exists w', _wait_if_paused w = (Ret tt, w') /\ now w' < t + QUANTUM) /\
  (* sleep_with_pause returns early after a stop *)
  (forall ms t, now w <= t -> is_running (snapshot w t) = false ->
     exists w', sleep_with_pause ms w = (Ret tt, w') /\ now w' < t + 2 * QUANTUM) /\
  (* and otherwise sleeps until its deadline, no longer when never held *)
  (forall ms,
     match sleep_with_pause ms w with
     | (Ret _, w') =>
         (now w + Z.max 0 ms <= now w' \/ is_running (st w') = false) /\
         ((forall u, blocked (snapshot w u) = false) -> now w' <= now w + Z.max 0 ms)
     | (Hang, w') => pending w' = [] /\ blocked (st w') = true
     | (Raise _, _) => False
     end).
Proof.
  split; [| split; [| split; [| split]]].
  - pose proof (wait_if_paused_spec w) as H.
    destruct (_wait_if_paused w) as [[[] | e |] w']; [| done |].
    + destruct H as (_ & _ & Hb & k & Hk & Hall). eauto.
    + destruct H as (_ & Hp & _ & Hall). done.
  - intros t Ht Hfree. by apply wait_if_paused_within.
  - intros t Ht Hs. by apply wait_if_paused_stop.
  - intros ms t Ht Hs. by apply sleep_with_pause_stop.
  - intros ms. pose proof (sleep_with_pause_spec ms w) as H.
    destruct (sleep_with_pause ms w) as [[[] | e |] w']; [| done |].
    + destruct H as (_ & Hend & _ & Hfree). done.
    + destruct H as (_ & Hp & Hb). done.
Qed.

Lemma pacing_contract_witness :
  exists w', _wait_if_paused paused_world = (Ret tt, w') /\ now w' < 250 + QUANTUM.
Proof.
  destruct (pacing_contract paused_world) as (_ & _ & H & _).
  apply (H 250); [simpl; lia | reflexivity].
Defined.

(** C4, as stated, fails: a flag that flips does not make [_wait_if_paused]
    return within one quantum when it flips back before the next poll. A
    paused worker is resumed at 0.12 s and paused again at 0.15 s: from
    0.12 s to 0.15 s the flags are not both set, but the polls at 0.1 s and
    at 0.2 s both find them set. With no further request the function never
    returns, and [sleep_with_pause] with it; with a stop at 100 s it returns
    at 100 s, not by 0.22 s. *)
Lemma pacing_flip_missed :
  (forall u, 120 <= u < 150 -> blocked (snapshot flip_world u) = false) /\
  (_wait_if_paused flip_world).1 = Hang /\
  (sleep_with_pause 50 flip_world).1 = Hang /\
  (forall u, 120 <= u < 150 -> blocked (snapshot flip_world_late u) = false) /\
  (_wait_if_paused flip_world_late).1 = Ret tt /\
  now (_wait_if_paused flip_world_late).2 = 100000.
Proof.
  assert (H : forall reqs u, 120 <= u < 150 ->
            blocked (deliver u ((120, Resume) :: (150, Pause) :: reqs)
                       (mkState true "Paused" 0%Q "" "" 0 10 true ∅ ∅ ∅ false ∅)).2 = false).
  { intros reqs u Hu. cbn [deliver].
    destruct (Z.leb_spec 120 u); [| lia]. destruct (Z.leb_spec 150 u); [lia |].
    reflexivity. }
  split; [intros u Hu; by apply H |]. split; [by vm_compute |]. split; [by vm_compute |].
  split; [intros u Hu; by apply H |]. split; by vm_compute.
Qed.

(** C5. Every increment of a progress entry sets [done] to
    [min(done + 1, total)]: on an entry within its total, [done] does not
    decrease and stays within [total], also after any number of increments.
    The desktop and the mobile update blocks apply this increment, a run
    starts with entries within their totals, and from such entries a whole
    run of the worker keeps every entry of [profile_progress] and
    [mobile_progress] within its total, with the same total and no less
    done. *)
Theorem progress_clamped :
  (forall e, e_done (bump_done e) = Z.min (e_done e + 1) (e_total e) /\
             e_total (bump_done e) = e_total e) /\
  (forall e, e_done e <= e_total e ->
             e_done e <= e_done (bump_done e) <= e_total e) /\
  (forall e (n : nat), e_done e <= e_total e ->
             e_done (Nat.iter n bump_done e) = Z.min (e_done e + Z.of_nat n) (e_total e)) /\
  (forall name c s,
     profile_progress (desktop_progress_update name c s) !! name
       = bump_done <$> profile_progress s !! name) /\
  (forall msc name s,
     mobile_progress (mobile_progress_update msc name s) !! name
       = Some (bump_done (default (mkEntry 0 msc) (mobile_progress s !! name)))) /\
  (forall E clock req s info memory sr,
     start_automation E clock req s info memory = inr sr ->
     entries_ok (profile_progress (sr_state sr)) /\
     entries_ok (mobile_progress (sr_state sr))) /\
  (forall E fruits delay browser profiles w,
     advances (st w) (st (automation_worker E fruits delay browser profiles w).2)).
Proof.
  split; [done |]. split; [intros e H; simpl; lia |].
  split; [intros e n H; by apply iter_bump_done |].
  split; [apply desktop_progress_update_lookup |]. split; [| split].
  - intros msc name s. unfold mobile_progress_update. simpl. by rewrite lookup_insert_eq.
  - apply seeded_entries_ok.
  - intros. apply mono_automation_worker.
Qed.

Lemma progress_clamped_witness :
  10 <= e_done (bump_done (mkEntry 10 10)) <= 10.
Proof.
  destruct progress_clamped as (_ & H & _).
  apply (H (mkEntry 10 10)). simpl. lia.
Defined.

(** C6, where the claim holds. After every completed desktop query the
    progress field is [completed / max(1, total) * 100], so the division is
    always guarded, and it is never negative. For a run with total [T >= 1]
    and [k <= T] completed desktop queries it equals [(k / T) * 100] and
    lies between 0 and 100; a run all of whose selected profiles carry a
    non-empty name, which the worker then looks up under the key the run was
    seeded with, keeps [completed <= total], and its progress between 0 and
    100, however it ends. *)
Theorem progress_recomputed :
  (forall name c s,
     progress (desktop_progress_update name c s) = percent c (Z.max 1 (total s)) /\
     completed (desktop_progress_update name c s) = c /\
     total (desktop_progress_update name c s) = total s) /\
  (forall E delay name q w w',
     desktop_query E delay name q w = (Ret Continue, w') ->
     progress (st w') = percent (l_completed (lv w) + 1) (Z.max 1 (total (st w))) /\
     completed (st w') = l_completed (lv w) + 1 /\ total (st w') = total (st w)) /\
  (forall k T, 0 <= k -> (0 <= percent k (Z.max 1 T))%Q) /\
  (forall k T, 1 <= T -> 0 <= k <= T ->
     (percent k (Z.max 1 T) == inject_Z k / inject_Z T * 100)%Q /\
     (0 <= percent k (Z.max 1 T) <= 100)%Q) /\
  (forall E clock req s info memory sr reqs,
     start_automation E clock req s info memory = inr sr ->
     Forall well_named (sr_profiles sr) ->
     let w' := (worker E (r_fruits req) (sr_delay sr) (r_browser req) (sr_profiles sr)
                  (mkWorld (sr_state sr) (sr_info sr) (mkLocals 0 [] []) reqs 0 0 [])).2 in
     total (st w') = total (sr_state sr) /\
     0 <= completed (st w') <= total (st w') /\
     (0 <= progress (st w') <= 100)%Q).
Proof.
  split; [apply desktop_progress_update_fields |]. split; [| split; [| split]].
  - intros E delay name q w w' Hq. pose proof (desktop_query_effect E delay name q w) as H.
    rewrite Hq in H. destruct H as ((s & D & D') & _).
    destruct (desktop_progress_update_fields name (l_completed (lv w) + 1) s)
      as (Hp & Hc & Ht).
    destruct D as (_ & _ & Dt & _), D' as (Dp & Dc & Dt' & _).
    rewrite Dp, Dc, Dt', Hp, Hc, Ht, Dt. done.
  - intros k T Hk. by apply percent_nonneg.
  - intros k T HT Hk. rewrite Z.max_r by lia. split; [reflexivity |].
    split.
    + rewrite <- (Z.max_r 1 T) by lia. apply percent_nonneg. lia.
    + rewrite <- (Z.max_r 1 T) at 1 by lia. apply percent_le_100. lia.
  - intros E clock req s info memory sr reqs Hstart Hnamed.
    destruct (run_within_budget E clock req s info memory sr reqs Hstart Hnamed)
      as (Ht & _ & Hc & Hl & Hp).
    cbn zeta. rewrite Ht. split; [done |]. split; [lia | done].
Qed.

Lemma progress_recomputed_witness :
  (percent 3 (Z.max 1 10) == inject_Z 3 / inject_Z 10 * 100)%Q /\
  (0 <= percent 3 (Z.max 1 10) <= 100)%Q.
Proof.
  destruct progress_recomputed as (_ & _ & _ & H & _).
  apply (H 3 10); lia.
Defined.

(** C6. The code misses the bound. A run with one profile that has a
    directory but an empty name, and eleven topics: the run is seeded under
    the key [name or directory], the directory, with a total of 10, but the
    worker looks the profile up under its name alone, finds no entry and
    runs one query per topic. After the eleventh query [completed] is 11 of
    a total of 10 and the progress is 110; the entry the run was seeded
    with stays at 0 of 10, nothing is recorded under the name, and the
    store counts the eleven queries for the empty name. *)
Lemma progress_exceeds_100 :
  match run E0 0 req_unnamed initial_state ∅ ∅ [] with
  | inr (Ret _, w') =>
      total (st w') = 10 /\ completed (st w') = 11 /\ (100 < progress (st w'))%Q /\
      (progress (st w') == 110)%Q /\
      profile_progress (st w') !! "Profile 1" = Some (mkEntry 0 10) /\
      profile_progress (st w') !! "" = None /\
      stored_pc (info w') "" = Some 11 /\ stored_pc (info w') "Profile 1" = Some 0
  | _ => False
  end.
Proof. vm_compute. repeat split. Qed.

(** C7. At run start, for every selected profile: the desktop quota is 10
    if the stored level of the profile is 1 and 32 if it is 2, the profile
    is mobile-eligible iff its level is 2, and it has a [mobile_progress]
    entry (done 0, the configured mobile total) iff mobile is enabled, the
    profile is eligible and the configured mobile count is positive; no
    other profile has an entry; the total of the run is the sum of the
    desktop quotas over the selected profiles. *)
Theorem start_automation_seeds (E : Env) (clock : Z) (req : StartRequest) (s : State)
    (info : gmap string InfoEntry) (memory : gmap string (list ProfileTask))
    (sr : Started) :
  start_automation E clock req s info memory = inr sr ->
  let keys := map profile_key (sr_profiles sr) in
  total (sr_state sr) = Zsum (map (fun k => desktop_quota (lvl_of info k)) keys) /\
  (forall name, name ∈ keys ->
     profile_progress (sr_state sr) !! name
       = Some (mkEntry 0 (desktop_quota (lvl_of info name))) /\
     (stored_level info name = 1 -> desktop_quota (lvl_of info name) = 10) /\
     (stored_level info name = 2 -> desktop_quota (lvl_of info name) = 32) /\
     profile_eligibility (sr_state sr) !! name ≫= el_mobile
       = Some (stored_level info name =? 2) /\
     mobile_progress (sr_state sr) !! name
       = if r_mobileEnabled req && (stored_level info name =? 2)
            && (0 <? MOBILE_SEARCH_COUNT E)
         then Some (mkEntry 0 (MOBILE_SEARCH_COUNT E)) else None) /\
  (forall name, name ∉ keys ->
     profile_progress (sr_state sr) !! name = None /\
     mobile_progress (sr_state sr) !! name = None).
Proof.
  unfold start_automation. destruct (is_running s); [done |].
  destruct (r_fruits req) as [| f fs]; [done |].
  destruct (resolve_profiles memory req) as [profiles memory'].
  intros [= <-]. cbn zeta. simpl.
  destruct (seed_fold_spec E (r_mobileEnabled req) clock info profiles
              (mkSeed ∅ ∅ ∅ ∅ 0 info) ltac:(done)) as (Ht & Hp & He & Hm).
  cbn zeta in *. simpl in *. fold (seed E (r_mobileEnabled req) clock info profiles) in *.
  split; [rewrite Ht; lia |]. split.
  - intros name Hin. rewrite Hp, He, Hm. rewrite !decide_True by done.
    unfold seeds_mobile, seeded_elig. rewrite lvl_of_eqb_2. simpl.
    split; [done |]. split; [| split; [| split; [done |]]].
    + intros H1. unfold lvl_of. rewrite H1. done.
    + intros H2. unfold lvl_of. rewrite H2. done.
    + by destruct (_ && _ && _).
  - intros name Hnin. rewrite Hp, Hm. by rewrite !decide_False by done.
Qed.

Lemma start_automation_seeds_witness :
  total (sr_state (mkStarted
    (mkState true "Starting automation..." 0%Q "" "" 0 10 false
       {["Default" := mkEntry 0 10]}
       {["Default" := mkPoints None 1 0]}
       {["Default" := mkElig (Some false) "level < 2"]} false ∅)
    {["Default" := mkInfo (Some "2025-01-01") (Some 1) (Some 0) (Some 0) None]}
    ∅ [mkProfile (Some "Default") None None] 3000))
  = Zsum (map (fun k => desktop_quota (lvl_of ∅ k)) ["Default"]).
Proof.
  refine (proj1 (start_automation_seeds E0 0
            (mkStartRequest ["apple"] 0 "firefox" [] false false)
            initial_state ∅ ∅ _ _)).
  vm_compute. reflexivity.
Defined.






(** C10. The stop, pause and resume endpoints always return their
    acknowledgement, and when [is_running] is false they leave the whole
    state as it is. *)
Theorem control_idle (s : State) :
  ((stop_automation s).2 = "Stopping" /\ (pause_automation s).2 = "Paused" /\
   (resume_automation s).2 = "Resumed") /\
  (is_running s = false ->
   (stop_automation s).1 = s /\ (pause_automation s).1 = s /\
   (resume_automation s).1 = s).
Proof.
  split; [done |]. intros H. unfold stop_automation, pause_automation, resume_automation.
  simpl. by rewrite H.
Qed.

Lemma control_idle_witness :
  (stop_automation initial_state).1 = initial_state /\
  (pause_automation initial_state).1 = initial_state /\
  (resume_automation initial_state).1 = initial_state.
Proof.
  destruct (control_idle initial_state) as [_ H]. apply H. reflexivity.
Defined.

(** * Further properties *)

(** ** The query sequencer at its edges *)

Lemma cyc_lookup hd tl (i : nat) :
  (hd :: tl) !! (i mod length (hd :: tl))%nat = Some (Query.cyc hd (hd :: tl) i).
Proof.
  assert (Hlt : (i mod length (hd :: tl) < length (hd :: tl))%nat)
    by (apply Nat.mod_upper_bound; simpl; lia).
  apply lookup_lt_is_Some_2 in Hlt as [x Hx]. rewrite Hx. f_equal.
  unfold Query.cyc. symmetry. by apply nth_lookup_Some.
Qed.

(** X1. [_build_queries] at its edges: a count of zero or less gives the
    empty list; every query comes from [base]; a count within the length of
    [base] gives that prefix of [base]; and the list for a smaller count is
    the prefix of the list for a larger one. *)
Theorem build_queries_prefixes (base : list string) (n m : Z) :
  (n <= 0 -> Query._build_queries base n = []) /\
  (forall q, q ∈ Query._build_queries base n -> q ∈ base) /\
  (0 <= n <= Z.of_nat (length base) ->
   Query._build_queries base n = take (Z.to_nat n) base) /\
  (n <= m ->
   Query._build_queries base n = take (Z.to_nat n) (Query._build_queries base m)).
Proof.
  split; [| split; [| split]].
  - intros Hn. destruct (Z.eq_dec n 0) as [-> | Hne].
    + by destruct base.
    + apply build_queries_negative. lia.
  - intros q Hq. destruct (Z.lt_ge_cases n 0) as [Hn | Hn].
    { rewrite build_queries_negative in Hq by done. by apply elem_of_nil in Hq. }
    destruct base as [| hd tl]; [done |].
    rewrite build_queries_cons in Hq by done.
    apply list_elem_of_fmap in Hq as (i & -> & _).
    eapply list_elem_of_lookup_2, cyc_lookup.
  - intros Hn. destruct base as [| hd tl]; [by rewrite take_nil |].
    rewrite build_queries_cons by lia.
    apply list_eq. intros i. rewrite list_lookup_fmap.
    destruct (decide (i < Z.to_nat n)%nat) as [Hi | Hi].
    + rewrite lookup_seq_lt, lookup_take_lt by done. simpl.
      rewrite <- cyc_lookup. rewrite Nat.mod_small; [done |]. lia.
    + rewrite lookup_seq_ge, lookup_take_ge by lia. done.
  - intros Hnm. destruct (Z.lt_ge_cases n 0) as [Hn | Hn].
    { rewrite build_queries_negative by done.
      replace (Z.to_nat n) with 0%nat by lia. done. }
    destruct base as [| hd tl]; [simpl; by rewrite take_nil |].
    rewrite !build_queries_cons by lia.
    change (map ?f ?l) with (f <$> l).
    rewrite <- fmap_take, take_seq. do 2 f_equal. lia.
Qed.

Lemma build_queries_prefixes_witness :
  Query._build_queries ["a"; "b"; "c"] 2 = take 2 (Query._build_queries ["a"; "b"; "c"] 7).
Proof.
  destruct (build_queries_prefixes ["a"; "b"; "c"] 2 7) as (_ & _ & _ & H).
  apply H. lia.
Defined.

(** ** The progress store *)

Lemma get_or_init_snd today info n :
  (get_or_init_profile today info n).2 = <[n := (get_or_init_profile today info n).1]> info.
Proof. done. Qed.

Lemma get_or_init_fst_lookup today info info' n :
  info !! n = info' !! n ->
  (get_or_init_profile today info n).1 = (get_or_init_profile today info' n).1.
Proof. intros H. unfold get_or_init_profile. simpl. by rewrite H. Qed.

Lemma get_or_init_idem_entry today info info' n :
  info' !! n = Some (get_or_init_profile today info n).1 ->
  (get_or_init_profile today info' n).1 = (get_or_init_profile today info n).1.
Proof.
  intros H. unfold get_or_init_profile in *. simpl in *. rewrite H. simpl.
  destruct (decide (i_date (default empty_entry (info !! n)) = Some today)); simpl;
    rewrite decide_True by done; by rewrite norm_level_idem.
Qed.

Lemma get_or_init_idem today info n :
  get_or_init_profile today (get_or_init_profile today info n).2 n
  = get_or_init_profile today info n.
Proof.
  apply injective_projections.
  - apply get_or_init_idem_entry. rewrite get_or_init_snd. by rewrite lookup_insert_eq.
  - rewrite !get_or_init_snd.
    rewrite (get_or_init_idem_entry today info) by (by rewrite lookup_insert_eq).
    by rewrite insert_insert_eq.
Qed.

(** The entry [get_or_init_profile] computes from a stored one. *)
Lemma get_or_init_fst today info n :
  (get_or_init_profile today info n).1
  = let stored := default empty_entry (info !! n) in
    mkInfo (Some today) (Some (norm_level (default 1 (i_level stored))))
      (if decide (i_date stored = Some today) then Some (default 0 (i_pc stored)) else Some 0)
      (if decide (i_date stored = Some today) then Some (default 0 (i_mobile stored)) else Some 0)
      (i_error stored).
Proof. unfold get_or_init_profile. simpl. by destruct (decide _). Qed.

(** X2. [get_or_init_profile] normalises one entry of the store and leaves
    the others alone: the entry returned is the one stored under the
    profile, it is dated today, its level is 1 or 2 (2 only if 2 was
    stored), its error field is kept; the two daily counters are kept (0
    when absent) if the stored entry is dated today and reset to 0
    otherwise; normalising twice is normalising once. *)
Theorem get_or_init_profile_normalises (today : string) (info : gmap string InfoEntry)
    (profile : string) :
  let stored := default empty_entry (info !! profile) in
  let r := get_or_init_profile today info profile in
  r.2 !! profile = Some r.1 /\
  (forall other, other <> profile -> r.2 !! other = info !! other) /\
  i_date r.1 = Some today /\
  i_level r.1 = Some (norm_level (default 1 (i_level stored))) /\
  (i_level r.1 = Some 2 <-> i_level stored = Some 2) /\
  i_error r.1 = i_error stored /\
  (i_date stored = Some today ->
   i_pc r.1 = Some (default 0 (i_pc stored)) /\
   i_mobile r.1 = Some (default 0 (i_mobile stored))) /\
  (i_date stored <> Some today -> i_pc r.1 = Some 0 /\ i_mobile r.1 = Some 0) /\
  get_or_init_profile today r.2 profile = r.
Proof.
  cbn zeta. split; [by rewrite get_or_init_snd, lookup_insert_eq |].
  split; [intros other Hne; by rewrite get_or_init_snd, lookup_insert_ne |].
  rewrite get_or_init_fst. cbn zeta.
  set (stored := default empty_entry (info !! profile)). simpl.
  split; [done |]. split; [done |]. split.
  { unfold norm_level. destruct (i_level stored) as [l |]; simpl.
    - destruct (Z.eqb_spec l 2); split; intros [=]; congruence.
    - split; intros [=]. }
  split; [done |]. split; [intros H; by rewrite !decide_True by done |].
  split; [intros H; by rewrite !decide_False by done |].
  apply get_or_init_idem.
Qed.

Lemma bump_lookup today profile is_pc delta info :
  bump_profile_progress today profile is_pc delta info !! profile
  = let e := (get_or_init_profile today info profile).1 in
    Some (if is_pc
          then mkInfo (i_date e) (i_level e) (Some (default 0 (i_pc e) + delta))
                 (i_mobile e) (i_error e)
          else mkInfo (i_date e) (i_level e) (i_pc e)
                 (Some (default 0 (i_mobile e) + delta)) (i_error e)).
Proof.
  unfold bump_profile_progress.
  destruct (get_or_init_profile today info profile) as [e info1]. simpl.
  by rewrite lookup_insert_eq.
Qed.

Lemma bump_lookup_ne today profile is_pc delta info other :
  other <> profile ->
  bump_profile_progress today profile is_pc delta info !! other = info !! other.
Proof.
  intros Hne. unfold bump_profile_progress.
  rewrite (surjective_pairing (get_or_init_profile today info profile)).
  rewrite get_or_init_snd. by rewrite !lookup_insert_ne.
Qed.

Lemma bump_entry today profile is_pc delta info :
  bump_profile_progress today profile is_pc delta info !! profile =
  let stored := default empty_entry (info !! profile) in
  let dated := bool_decide (i_date stored = Some today) in
  let pc0 := if dated then default 0 (i_pc stored) else 0 in
  let mobile0 := if dated then default 0 (i_mobile stored) else 0 in
  Some (mkInfo (Some today) (Some (norm_level (default 1 (i_level stored))))
          (Some (if is_pc then pc0 + delta else pc0))
          (Some (if is_pc then mobile0 else mobile0 + delta))
          (i_error stored)).
Proof.
  rewrite bump_lookup, get_or_init_fst. cbn zeta.
  destruct (decide (i_date (default empty_entry (info !! profile)) = Some today)) as [H | H].
  - rewrite bool_decide_eq_true_2 by done. by destruct is_pc.
  - rewrite bool_decide_eq_false_2 by done. by destruct is_pc.
Qed.

(** X3. [bump_profile_progress] adds [delta] to one daily counter of one
    profile: two bumps of the same counter add up, bumps of the desktop and
    of the mobile counter commute, every other profile is left alone, the
    other counter and the level are those of the normalised entry, and a
    bump of an entry that is not dated today starts again from zero. *)
Theorem bump_profile_progress_accumulates (today : string) (profile : string)
    (is_pc : bool) (d1 d2 : Z) (info : gmap string InfoEntry) :
  bump_profile_progress today profile is_pc d2
    (bump_profile_progress today profile is_pc d1 info)
  = bump_profile_progress today profile is_pc (d1 + d2) info /\
  bump_profile_progress today profile true d1
    (bump_profile_progress today profile false d2 info)
  = bump_profile_progress today profile false d2
      (bump_profile_progress today profile true d1 info) /\
  (forall other, other <> profile ->
     bump_profile_progress today profile is_pc d1 info !! other = info !! other) /\
  (let e := (get_or_init_profile today info profile).1 in
   let e' := default empty_entry (bump_profile_progress today profile is_pc d1 info !! profile) in
   i_level e' = i_level e /\ i_date e' = Some today /\
   (if is_pc then i_mobile e' = i_mobile e /\ i_pc e' = Some (default 0 (i_pc e) + d1)
    else i_pc e' = i_pc e /\ i_mobile e' = Some (default 0 (i_mobile e) + d1))) /\
  (i_date (default empty_entry (info !! profile)) <> Some today ->
   let e' := default empty_entry (bump_profile_progress today profile is_pc d1 info !! profile) in
   (if is_pc then i_pc e' else i_mobile e') = Some d1 /\
   (if is_pc then i_mobile e' else i_pc e') = Some 0).
Proof.
  split; [| split; [| split; [| split]]].
  - apply map_eq. intros k. destruct (decide (k = profile)) as [-> | Hne].
    + rewrite !bump_entry. cbn zeta. simpl.
      rewrite bool_decide_eq_true_2 by done. rewrite norm_level_idem.
      destruct is_pc, (bool_decide _); simpl; do 2 f_equal; f_equal; lia.
    + by rewrite !bump_lookup_ne.
  - apply map_eq. intros k. destruct (decide (k = profile)) as [-> | Hne].
    + rewrite !bump_entry. cbn zeta. simpl.
      rewrite bool_decide_eq_true_2 by done. by rewrite norm_level_idem.
    + by rewrite !bump_lookup_ne.
  - intros other Hne. by apply bump_lookup_ne.
  - cbn zeta. rewrite bump_entry, get_or_init_fst. cbn zeta.
    destruct (decide _) as [H | H];
      [rewrite bool_decide_eq_true_2 by done | rewrite bool_decide_eq_false_2 by done];
      by destruct is_pc.
  - intros Hd. cbn zeta. rewrite bump_entry. cbn zeta.
    rewrite bool_decide_eq_false_2 by done. by destruct is_pc.
Qed.

Lemma bump_profile_progress_accumulates_witness :
  i_pc (default empty_entry
          (bump_profile_progress "2025-01-02" "A" true 1
             {["A" := mkInfo (Some "2025-01-01") (Some 2) (Some 7) (Some 3) None]} !! "A"))
  = Some 1.
Proof.
  destruct (bump_profile_progress_accumulates "2025-01-02" "A" true 1 0
              {["A" := mkInfo (Some "2025-01-01") (Some 2) (Some 7) (Some 3) None]})
    as (_ & _ & _ & _ & H).
  apply H. vm_compute. discriminate.
Defined.

(** ** Levels *)

Lemma normalise_fold_spec today keys : forall info n,
  fold_left (fun acc k => (get_or_init_profile today acc k).2) keys info !! n
  = if decide (n ∈ keys) then Some (get_or_init_profile today info n).1 else info !! n.
Proof.
  induction keys as [| k keys IH]; intros info n; cbn [fold_left].
  - by rewrite decide_False by apply not_elem_of_nil.
  - rewrite IH. destruct (decide (n ∈ keys)) as [Hin | Hnin].
    + rewrite decide_True by (apply elem_of_cons; auto). f_equal.
      destruct (decide (n = k)) as [-> | Hne].
      * apply get_or_init_idem_entry. by rewrite get_or_init_snd, lookup_insert_eq.
      * apply get_or_init_fst_lookup. by rewrite get_or_init_snd, lookup_insert_ne.
    + destruct (decide (n = k)) as [-> | Hne].
      * rewrite decide_True by (apply elem_of_cons; auto).
        by rewrite get_or_init_snd, lookup_insert_eq.
      * rewrite decide_False by (rewrite elem_of_cons; intros [? | ?]; congruence).
        by rewrite get_or_init_snd, lookup_insert_ne.
Qed.

Lemma elem_of_keys {V} (m : gmap string V) n : n ∈ (map_to_list m).*1 <-> is_Some (m !! n).
Proof.
  rewrite list_elem_of_fmap. split.
  - intros ([k v] & -> & Hin). apply elem_of_map_to_list in Hin. by exists v.
  - intros [v Hv]. exists (n, v). split; [done |]. by apply elem_of_map_to_list.
Qed.

(** Forgetting the identities gives [get_or_init_profile], and the object
    returned is the object stored. *)
Lemma get_or_init_profile_obj_erase today s k :
  let r := get_or_init_profile_obj today s k in
  o_val r.1 = (get_or_init_profile today (o_val <$> ob_info s) k).1 /\
  o_val <$> ob_info r.2 = (get_or_init_profile today (o_val <$> ob_info s) k).2 /\
  ob_info r.2 !! k = Some r.1.
Proof.
  cbn zeta. unfold get_or_init_profile_obj, get_or_init_profile.
  rewrite lookup_fmap. destruct (ob_info s !! k) as [o |]; simpl;
    try destruct (decide (i_date (o_val o) = Some today));
    simpl; rewrite fmap_insert, lookup_insert_eq; done.
Qed.

Lemma levels_fold_spec today keys : forall s ch,
  let r := fold_left (levels_step today) keys (s, ch) in
  r.2 = ch /\
  o_val <$> ob_info r.1
  = fold_left (fun acc k => (get_or_init_profile today acc k).2) keys (o_val <$> ob_info s).
Proof.
  induction keys as [| k keys IH]; intros s ch; cbn zeta; [done |].
  cbn [fold_left].
  assert (Hstep : levels_step today (s, ch) k
                  = ((get_or_init_profile_obj today s k).2, ch)).
  { unfold levels_step. cbn [fst snd].
    destruct (get_or_init_profile_obj_erase today s k) as (_ & _ & Hk). cbn zeta in Hk.
    destruct (get_or_init_profile_obj today s k) as [norm s1]. cbn [fst snd] in *.
    rewrite Hk. cbn [fmap option_fmap option_map]. by rewrite decide_True. }
  rewrite Hstep. destruct (IH (get_or_init_profile_obj today s k).2 ch) as [IH1 IH2].
  cbn zeta in *. split; [done |]. rewrite IH2.
  by destruct (get_or_init_profile_obj_erase today s k) as (_ & -> & _).
Qed.

Lemma load_objects_erase file : o_val <$> ob_info (load_objects file) = file.
Proof.
  apply map_eq. intros k. unfold load_objects. simpl.
  rewrite lookup_fmap, map_lookup_imap. by destruct (file !! k).
Qed.

Lemma api_get_levels_spec today file :
  api_get_levels today file
  = ((fun e => norm_level (default 1 (i_level e))) <$> file, file).
Proof.
  unfold api_get_levels.
  set (s0 := load_objects file). set (keys := (map_to_list (ob_info s0)).*1).
  destruct (levels_fold_spec today keys s0 false) as [Hch Hinfo]. cbn zeta in *.
  destruct (fold_left (levels_step today) keys (s0, false)) as [s ch]. cbn [fst snd] in *.
  subst ch. f_equal.
  rewrite (map_fmap_compose o_val (fun e => default 1 (i_level e))), Hinfo.
  subst s0. rewrite load_objects_erase.
  apply map_eq. intros n. rewrite !lookup_fmap, normalise_fold_spec.
  assert (Hk : n ∈ keys <-> is_Some (file !! n)).
  { unfold keys. rewrite elem_of_keys. by rewrite <- (load_objects_erase file) at 2;
      rewrite lookup_fmap, fmap_is_Some. }
  destruct (file !! n) as [e |] eqn:He.
  - rewrite decide_True by (apply Hk; eauto). cbn [fmap option_fmap option_map]. f_equal.
    rewrite get_or_init_level. unfold lvl_of, stored_level. by rewrite He.
  - rewrite decide_False by (rewrite Hk; by intros [? ?]). done.
Qed.

(** X4. [GET /api/levels] reports, for every profile of the store, its
    level normalised to 1 or 2 (2 only if 2 is stored), and never writes the
    store: the write-back branch compares the entry returned by
    [get_or_init_profile] with the entry stored under the key, which is the
    same object. *)
Theorem api_get_levels_read_only (today : string) (file : gmap string InfoEntry) :
  let out := api_get_levels today file in
  out.2 = file /\
  (forall k, out.1 !! k
             = (fun e => norm_level (default 1 (i_level e))) <$> file !! k) /\
  (forall k l, out.1 !! k = Some l ->
     (l = 1 \/ l = 2) /\ (l = 2 <-> (file !! k ≫= i_level) = Some 2)).
Proof.
  cbn zeta. rewrite api_get_levels_spec. simpl.
  split; [done |]. split; [intros k; by rewrite lookup_fmap |].
  intros k l. rewrite lookup_fmap. destruct (file !! k) as [e |]; simpl; [| done].
  intros [= <-]. split; [apply norm_level_cases |].
  unfold norm_level. destruct (i_level e) as [x |]; simpl.
  - destruct (Z.eqb_spec x 2); split; intros H; try done; congruence.
  - split; intros H; done.
Qed.

Lemma set_level_lookup today profile level info :
  set_level today profile level info !! profile
  = let e := (get_or_init_profile today info profile).1 in
    Some (mkInfo (i_date e) (Some (norm_level level)) (i_pc e) (i_mobile e) (i_error e)).
Proof.
  unfold set_level. destruct (get_or_init_profile today info profile) as [e info1].
  simpl. by rewrite lookup_insert_eq.
Qed.

Lemma set_level_lookup_ne today profile level info other :
  other <> profile -> set_level today profile level info !! other = info !! other.
Proof.
  intros Hne. unfold set_level.
  rewrite (surjective_pairing (get_or_init_profile today info profile)).
  rewrite get_or_init_snd. by rewrite !lookup_insert_ne.
Qed.

(** X5. [POST /api/levels]: a request without a profile, or with a level
    other than 1 and 2, is refused with status 400 and leaves the store as
    it is. An accepted request stores the level under the profile, keeps the
    profile's daily counters as [get_or_init_profile] gives them, leaves
    every other profile alone, is reported back by [GET /api/levels], and
    decides the desktop quota of the next run: 10 for level 1, 32 for
    level 2. *)
Theorem api_set_level_contract (today : string) (req : LevelRequest)
    (info : gmap string InfoEntry) :
  let level := default 1 (lr_level req) in
  let out := api_set_level today req info in
  match truthy (lr_profile req) with
  | None => out = (inl ("missing profile", 400), info)
  | Some profile =>
      if decide (level = 1 \/ level = 2) then
        out.1 = inr (profile, level) /\
        (forall other, other <> profile -> out.2 !! other = info !! other) /\
        (exists e, out.2 !! profile = Some e /\
           i_level e = Some level /\ i_date e = Some today /\
           i_pc e = i_pc (get_or_init_profile today info profile).1 /\
           i_mobile e = i_mobile (get_or_init_profile today info profile).1) /\
        (api_get_levels today out.2).1 !! profile = Some level /\
        seeded_entry out.2 profile = mkEntry 0 (if level =? 1 then 10 else 32)
      else out = (inl ("level must be 1 or 2", 400), info)
  end.
Proof.
  cbn zeta. unfold api_set_level.
  destruct (truthy (lr_profile req)) as [profile |]; [| done].
  set (level := default 1 (lr_level req)).
  destruct (decide (level = 1 \/ level = 2)) as [Hl | Hl].
  - assert (Hn : norm_level level = level) by (by destruct Hl as [-> | ->]).
    replace (negb ((level =? 1) || (level =? 2))) with false
      by (by destruct Hl as [-> | ->]).
    cbn [fst snd]. split; [done |].
    split; [intros other Hne; by apply set_level_lookup_ne |].
    split; [| split].
    + eexists. split; [apply set_level_lookup |]. cbn zeta.
      cbn [i_level i_date i_pc i_mobile]. rewrite Hn.
      split; [done |]. split; [| done]. by rewrite get_or_init_fst.
    + rewrite api_get_levels_spec. cbn [fst]. rewrite lookup_fmap, set_level_lookup.
      cbn zeta. simpl. by rewrite norm_level_idem, Hn.
    + unfold seeded_entry, lvl_of, stored_level. rewrite set_level_lookup. cbn zeta. simpl.
      rewrite norm_level_idem, Hn. by destruct Hl as [-> | ->].
  - replace (negb ((level =? 1) || (level =? 2))) with true; [done |].
    destruct (Z.eqb_spec level 1), (Z.eqb_spec level 2); simpl; try done;
      exfalso; apply Hl; auto.
Qed.

(** X6. [GET /api/profile-info] normalises every entry of the store, writes
    the result back and replies with it: the file afterwards is the reply,
    it has the same profiles, each with the entry [get_or_init_profile]
    gives it (dated today, level 1 or 2, the counters of a stale entry
    reset), and a second request on the same day changes nothing. *)
Theorem api_profile_info_normalises (today : string) (file : gmap string InfoEntry) :
  let out := api_profile_info today file in
  out.1 = out.2 /\
  (forall k, out.2 !! k
             = (fun _ => (get_or_init_profile today file k).1) <$> file !! k) /\
  (forall k e, out.2 !! k = Some e ->
     i_date e = Some today /\ (i_level e = Some 1 \/ i_level e = Some 2)) /\
  api_profile_info today out.2 = out.
Proof.
  assert (Hspec : forall f k,
    (api_profile_info today f).2 !! k
    = (fun _ => (get_or_init_profile today f k).1) <$> f !! k).
  { intros f k. unfold api_profile_info. cbn [snd]. rewrite normalise_fold_spec.
    destruct (f !! k) as [e |] eqn:He.
    - rewrite decide_True by (apply elem_of_keys; eauto). done.
    - rewrite decide_False by (rewrite elem_of_keys; rewrite He; by intros [? ?]). done. }
  cbn zeta. split; [done |]. split; [apply Hspec |]. split.
  - intros k e. rewrite Hspec. destruct (file !! k) as [e0 |] eqn:He; [| done].
    cbn [fmap option_fmap option_map]. intros Heq.
    assert (e = (get_or_init_profile today file k).1) as -> by congruence.
    rewrite get_or_init_fst. cbn zeta. cbn [i_date i_level].
    split; [done |].
    destruct (norm_level_cases (default 1 (i_level (default empty_entry (file !! k)))))
      as [-> | ->]; auto.
  - assert (Hfix : (api_profile_info today (api_profile_info today file).2).2
                   = (api_profile_info today file).2).
    { apply map_eq. intros k. rewrite Hspec. rewrite Hspec.
      destruct (file !! k) as [e0 |] eqn:He; [| done].
      cbn [fmap option_fmap option_map]. f_equal.
      apply get_or_init_idem_entry. rewrite Hspec, He. done. }
    assert (Hpair : forall f, api_profile_info today f
                              = ((api_profile_info today f).2, (api_profile_info today f).2))
      by done.
    rewrite (Hpair (api_profile_info today file).2), Hfix. by rewrite <- Hpair.
Qed.

(** ** Control requests *)

Lemma handle_fields r s :
  current_search (handle r s) = current_search s /\
  current_profile (handle r s) = current_profile s /\
  (is_running (handle r s) = true -> is_running s = true /\ r <> Stop) /\
  (is_paused (handle r s) = true -> is_paused s = true \/ r = Pause).
Proof.
  destruct r; simpl; destruct (is_running s) eqn:Hr; simpl; rewrite ?Hr;
    repeat split; try done; try congruence; auto.
Qed.

(** X7. Stop, pause and resume requests, served in any number and order,
    only ever write the two flags and the status: the progress data, the
    totals, the per-profile maps and the current search and profile are as
    before. They never start a run: a state that is not running is left as
    it is, a run is still running afterwards only if no stop was among the
    requests, and a run is held afterwards only if it was paused before or
    a pause was among them. *)
Theorem control_requests_frame (rs : list Request) (s : State) :
  let s' := serve rs s in
  data_eq s s' /\
  current_search s' = current_search s /\ current_profile s' = current_profile s /\
  (is_running s = false -> s' = s) /\
  (is_running s' = true -> is_running s = true /\ Stop ∉ rs) /\
  (blocked s' = true -> is_paused s = true \/ Pause ∈ rs).
Proof.
  cbn zeta. revert s. induction rs as [| r rs IH]; intros s; simpl.
  - split; [reflexivity |]. split; [done |]. split; [done |]. split; [done |].
    split; [intros H; split; [done | apply not_elem_of_nil] |].
    unfold blocked. intros H. apply andb_prop in H as [H _]. auto.
  - destruct (IH (handle r s)) as (D & Hs & Hp & Hidle & Hrun & Hblk).
    destruct (handle_fields r s) as (Fs & Fp & Frun & Fpause).
    fold (serve rs (handle r s)) in *.
    split; [etransitivity; [apply handle_data_eq | exact D] |].
    split; [congruence |]. split; [congruence |]. split; [| split].
    + intros H. rewrite (handle_stopped r s H) in *. by apply Hidle.
    + intros H. destruct (Hrun H) as [H1 H2]. destruct (Frun H1) as [H3 H4].
      split; [done |]. rewrite elem_of_cons. intros [? | ?]; congruence.
    + intros H. destruct (Hblk H) as [H1 | H1].
      * destruct (Fpause H1) as [? | ->]; [by left | right; apply elem_of_cons; auto].
      * right. apply elem_of_cons; auto.
Qed.

Lemma control_requests_frame_witness :
  serve [Pause; Resume; Stop; Pause] initial_state = initial_state.
Proof.
  destruct (control_requests_frame [Pause; Resume; Stop; Pause] initial_state)
    as (_ & _ & _ & H & _).
  apply H. reflexivity.
Defined.

(** ** Mobile queries *)

(** X8. A round of a mobile query loop (of the automation session or of the
    mobile UA window) that is not skipped by a stop and comes to its end
    has applied one increment to the profile's [mobile_progress] entry,
    creating it with the configured total when it is missing, and, the
    store being writable, has added one to the persisted mobile counter. It
    never counts as a desktop query: [completed], [total], [progress], the
    desktop entries and the worker's own counter are as before. No error of
    the search leaves the round, and a round skipped by a stop changes
    nothing but the control fields. *)
Theorem mobile_query_counts (E : Env) (pw : bool) (on_error : string) (lo hi delay : Z)
    (name mq : string) (w : World) :
  let search := if pw then playwright_search E else native_search E in
  match mobile_query E search on_error lo hi delay name mq w with
  | (Ret Continue, w') =>
      mobile_progress (st w')
        = <[name := bump_done (default (mkEntry 0 (MOBILE_SEARCH_COUNT E))
                                 (mobile_progress (st w) !! name))]>
            (mobile_progress (st w)) /\
      completed (st w') = completed (st w) /\ total (st w') = total (st w) /\
      progress (st w') = progress (st w) /\
      profile_progress (st w') = profile_progress (st w) /\
      lv w' = lv w /\
      exists n, info w' = if io_ok E n
                          then bump_profile_progress (today E) name false 1 (info w)
                          else info w
  | (Ret Break, w') => is_running (st w') = false /\ steady w w'
  | (Raise _, _) => False
  | (Hang, _) => True
  end.
Proof.
  cbn zeta.
  pose proof (mobile_query_effect E (if pw then playwright_search E else native_search E)
                on_error lo hi delay name mq w
                ltac:(intros q; destruct pw;
                        [apply keeps_playwright_search | apply keeps_native_search])) as H.
  destruct (mobile_query E _ on_error lo hi delay name mq w) as [[[] | e |] w'];
    [| | done | done].
  - destruct H as ((s & D & D') & Hl & Hi).
    destruct D as (Dp & Dc & Dt & Dpp & _ & _ & _ & Dm).
    destruct D' as (Dp' & Dc' & Dt' & Dpp' & _ & _ & _ & Dm').
    unfold mobile_progress_update in *. simpl in *.
    rewrite Dm', Dm, Dc', Dc, Dt', Dt, Dp', Dp, Dpp', Dpp. done.
  - destruct H as [Hs Hr]. done.
Qed.

(** ** A worker that finds the run stopped *)

Lemma read_running_eq w :
  read_running w
  = (Ret (is_running (snapshot w (now w))),
     with_pending (deliver (now w) (pending w) (st w)).1
       (with_st (snapshot w (now w)) w)).
Proof.
  unfold read_running, locked, snapshot.
  by destruct (deliver (now w) (pending w) (st w)) as [p s].
Qed.

Lemma update_eq f w :
  update f w
  = (Ret tt, with_pending (deliver (now w) (pending w) (st w)).1
               (with_st (f (snapshot w (now w))) w)).
Proof.
  unfold update, locked, snapshot.
  by destruct (deliver (now w) (pending w) (st w)) as [p s].
Qed.

Lemma run_profile_stopped E fruits delay browser p w :
  is_running (snapshot w (now w)) = false ->
  run_profile E fruits delay browser p w
  = (Ret Break, with_pending (deliver (now w) (pending w) (st w)).1
                  (with_st (snapshot w (now w)) w)).
Proof.
  intros H. unfold run_profile. unfold bind at 1. rewrite read_running_eq, H. done.
Qed.

Lemma teardown_nothing_tracked E w :
  browser_processes (lv w) = [] ->
  teardown E w
  = (Ret tt, with_pending (deliver (now w) (pending w) (st w)).1
               (with_st (final_reset (snapshot w (now w))) w)).
Proof.
  intros H. unfold teardown, try_finally, bind, get_lv. rewrite H. simpl.
  by rewrite update_eq.
Qed.

(** X9. A worker that finds the run already stopped at its first check (a
    stop was served before the thread got to it) starts nothing: it
    returns, no browser is launched, no key is sent, no collaborator is
    consulted, no time passes and the store is not written; only the
    teardown runs, on the state as the stop left it. *)
Theorem stopped_worker_does_nothing (E : Env) (fruits : list string) (delay : Z)
    (browser : string) (profiles : list ProfileTask) (w : World) :
  is_running (snapshot w (now w)) = false ->
  let out := automation_worker E fruits delay browser profiles w in
  out.1 = Ret tt /\
  trace out.2 = trace w /\ tick out.2 = tick w /\ now out.2 = now w /\
  info out.2 = info w /\
  st out.2 = final_reset (snapshot w (now w)) /\
  status (st out.2) = (if completed (st w) >=? total (st w)
                      then "Automation completed" else "Automation stopped").
Proof.
  intros Hstop. cbn zeta.
  assert (Heq : automation_worker E fruits delay browser profiles w
                = (Ret tt, with_pending (deliver (now w) (pending w) (st w)).1
                             (with_st (final_reset (snapshot w (now w)))
                                (with_lv (mkLocals 0 [] []) w)))).
  { unfold automation_worker.
    assert (Hps : exists p ps, match profiles with
                               | [] => [default_profile]
                               | _ => profiles
                               end = p :: ps) by (destruct profiles; eauto).
    destruct Hps as (p & ps & ->).
    unfold bind at 1. unfold put_lv at 1.
    set (w0 := with_lv (mkLocals 0 [] []) w).
    assert (Hstop0 : is_running (snapshot w0 (now w0)) = false) by done.
    unfold try_finally at 1, try_except. cbn [for_each]. unfold bind at 1.
    rewrite (run_profile_stopped E fruits delay browser p w0 Hstop0).
    cbv beta iota. unfold ret. cbv beta iota.
    set (w1 := with_pending _ _).
    rewrite (teardown_nothing_tracked E w1) by done.
    assert (Hsnap : deliver (now w1) (pending w1) (st w1)
                    = deliver (now w) (pending w) (st w)).
    { unfold snapshot, w1. simpl. apply deliver_idem. }
    unfold snapshot at 1. rewrite Hsnap. done. }
  rewrite Heq. simpl.
  split; [done |]. split; [done |]. split; [done |]. split; [done |]. split; [done |].
  split; [done |].
  pose proof (deliver_data_eq (now w) (pending w) (st w)) as (_ & Dc & Dt & _).
  unfold snapshot. by rewrite Dc, Dt.
Qed.

Lemma stopped_worker_does_nothing_witness :
  trace (automation_worker E0 ["apple"] 500 "chrome" [profile_named "Default"]
           (with_pending [(0, Stop)] seeded_world)).2 = [].
Proof.
  apply (stopped_worker_does_nothing E0 ["apple"] 500 "chrome" [profile_named "Default"]
           (with_pending [(0, Stop)] seeded_world)).
  reflexivity.
Defined.

(** ** The window cap, step by step *)

Lemma grows_terminate_process E pid : keeps grows (terminate_process E pid).
Proof. unfold terminate_process. repeat grows_step. Qed.

Lemma grows_elem w w' ev : grows w w' -> ev ∈ trace w -> ev ∈ trace w'.
Proof. intros [l ->] H. apply elem_of_app. by right. Qed.

Lemma quiet_cap_policy E browser name : quiet (cap_policy E browser name).
Proof.
  unfold cap_policy. apply quiet_bind; [apply quiet_get_lv | intros l].
  destruct (_ <? _)%nat; [| apply quiet_ret].
  apply quiet_try_except. intros _. apply quiet_emit.
Qed.

(** What [terminate_process] does when [terminate()] succeeds. *)
Lemma terminate_process_spec E pid w :
  terminate_ok E (tick w) = true ->
  let out := terminate_process E pid w in
  (out.1 = Ret tt \/ out.1 = Hang) /\ lv out.2 = lv w /\
  (trace out.2 = EvTerminate pid :: trace w \/
   trace out.2 = EvKill pid :: EvTerminate pid :: trace w).
Proof.
  intros Hok. cbn zeta.
  destruct (terminate_process E pid w) as [r w'] eqn:Heq. cbn [fst snd].
  revert Heq. unfold terminate_process, try_except, bind, consult, emit.
  rewrite Hok. cbv beta iota.
  set (w1 := with_trace _ _).
  pose proof (sleep_with_pause_spec 500 w1) as Hs.
  destruct (sleep_with_pause 500 w1) as [[[] | e |] w2]; [| done |].
  - destruct Hs as (L & _). apply later_untouched in L as [Ht Hl].
    destruct (poll_alive E (tick w2)); intros [= <- <-]; simpl; rewrite Ht, Hl; auto.
  - destruct Hs as (L & _). apply later_untouched in L as [Ht Hl].
    intros [= <- <-]. rewrite Ht, Hl. auto.
Qed.

Lemma bind_grows_elem {A B} (m : M A) (k : A -> M B) w ev :
  ev ∈ trace (m w).2 -> (forall a, keeps grows (k a)) -> ev ∈ trace (bind m k w).2.
Proof.
  intros Hin Hk. unfold bind. destruct (m w) as [[a | e |] w1]; simpl in *; [| done | done].
  eapply grows_elem; [apply Hk | done].
Qed.

Lemma try_except_grows {A} (body : M A) h w :
  (forall e, keeps grows (h e)) -> grows (body w).2 (try_except body h w).2.
Proof.
  intros Hh. unfold try_except. destruct (body w) as [[a | e |] w1]; simpl;
    [reflexivity | apply Hh | reflexivity].
Qed.

Lemma cap_policy_trace E browser name w :
  (MAX_ACTIVE_BROWSERS <? length (completed_profiles (lv w)))%nat = true ->
  (exists l, trace (cap_policy E browser name w).2 = l ++ EvCloseWindows browser :: trace w) /\
  (forall o lbl rest, browser_processes (lv w) = (o, lbl) :: rest ->
     terminate_ok E (tick w) = true ->
     EvTerminate o ∈ trace (cap_policy E browser name w).2).
Proof.
  intros Hlen. unfold cap_policy.
  change (bind get_lv ?k w) with (k (lv w) w). cbv beta. rewrite Hlen.
  set (w1 := with_trace (EvCloseWindows browser :: trace w) w).
  match goal with |- context [try_except ?body ?h w] =>
    pose proof (try_except_grows body h w ltac:(intros; apply grows_emit)) as Hg;
    set (out := try_except body h w) in *;
    assert (Hb : exists k, body w = k w1 /\ keeps grows k /\
              (forall o lbl rest, browser_processes (lv w) = (o, lbl) :: rest ->
                 terminate_ok E (tick w) = true -> EvTerminate o ∈ trace (k w1).2))
  end.
  { eexists. split; [unfold bind at 1; unfold close_browser_windows, emit; reflexivity |].
    split; [repeat (grows_step || apply grows_terminate_process) |].
    intros o lbl rest Hbp Hok. cbv beta.
    apply bind_grows_elem; [| intros; repeat grows_step].
    change (bind get_lv ?k w1) with (k (lv w1) w1). cbv beta.
    change (lv w1) with (lv w). rewrite Hbp.
    unfold bind at 1. unfold put_lv at 1. set (w2 := with_lv _ w1).
    destruct (terminate_process_spec E o w2 Hok) as (_ & _ & [-> | ->]);
      rewrite !elem_of_cons; auto. }
  destruct Hb as (k & Hb & Hk & Hterm). rewrite Hb in Hg. split.
  - destruct (Hk w1) as [l1 Hl1]. destruct Hg as [l2 Hl2].
    exists (l2 ++ l1). rewrite Hl2, Hl1. by rewrite <- app_assoc.
  - intros o lbl rest Hbp Hok. eapply grows_elem; [exact Hg |]. by eapply Hterm.
Qed.

(** X10. The window cap after a profile's desktop pass. While no more than
    [MAX_ACTIVE_BROWSERS] profiles are completed it does nothing at all.
    Beyond that it first force-closes the windows of the browser, then
    drops the oldest tracked handle from [browser_processes] and sends it
    [terminate()], and drops the oldest name from [completed_profiles]; the
    other handles stay tracked in their order. No error leaves it. *)
Theorem cap_policy_contract (E : Env) (browser name : string) (w : World) :
  let out := cap_policy E browser name w in
  (forall e, out.1 <> Raise e) /\
  if (MAX_ACTIVE_BROWSERS <? length (completed_profiles (lv w)))%nat
  then browser_processes (lv out.2) = tail (browser_processes (lv w)) /\
       (out.1 <> Hang ->
        completed_profiles (lv out.2) = tail (completed_profiles (lv w))) /\
       (exists l, trace out.2 = l ++ EvCloseWindows browser :: trace w) /\
       (forall o lbl rest, browser_processes (lv w) = (o, lbl) :: rest ->
          terminate_ok E (tick w) = true -> EvTerminate o ∈ trace out.2)
  else out = (Ret tt, w).
Proof.
  cbn zeta. split; [apply quiet_cap_policy |].
  pose proof (cap_policy_evicts E browser name w) as He. cbn zeta in He.
  destruct (_ <? _)%nat eqn:Hlen.
  - destruct He as [Hbp Hcp]. destruct (cap_policy_trace E browser name w Hlen) as [Ht Hk].
    done.
  - unfold cap_policy. change (bind get_lv ?k w) with (k (lv w) w). cbv beta.
    by rewrite Hlen.
Qed.

(** ** Run start: profiles, memory and records *)

(** X11. The profiles of a run. The list is never empty. For a browser
    other than chrome and edge it is the single default profile without a
    directory, whatever was selected, and the profile memory is not
    touched. For chrome and edge a non-empty selection is used and
    remembered for that browser, and a later start for the same browser
    without a selection runs the remembered profiles again; without a
    selection the memory is left as it is and its profiles are used, or the
    default profile when it has none. The memory of the other browsers is
    never changed. *)
Theorem resolve_profiles_memory (memory : gmap string (list ProfileTask))
    (req : StartRequest) :
  let browser := r_browser req in
  let out := resolve_profiles memory req in
  out.1 <> [] /\
  (forall b, b <> browser -> out.2 !! b = memory !! b) /\
  (browser <> "chrome" -> browser <> "edge" ->
   out = ([mkProfile (Some "Default") None None], memory)) /\
  (browser = "chrome" \/ browser = "edge" ->
   (r_selectedProfiles req <> [] ->
    out.1 = r_selectedProfiles req /\
    out.2 !! browser = Some (r_selectedProfiles req) /\
    forall req', r_browser req' = browser -> r_selectedProfiles req' = [] ->
      resolve_profiles out.2 req' = (r_selectedProfiles req, out.2)) /\
   (r_selectedProfiles req = [] ->
    out.2 = memory /\
    out.1 = match memory !! browser with
            | Some (q :: qs) => q :: qs
            | _ => if r_useDefaultIfNoProfile req
                   then [mkProfile (Some "Default") (Some "Default") (Some "Default")]
                   else [mkProfile (Some "Default") None None]
            end)).
Proof.
  cbn zeta. split; [apply resolve_profiles_nonempty |].
  unfold resolve_profiles.
  destruct (decide (r_browser req = "chrome" \/ r_browser req = "edge")) as [Hb | Hb].
  - assert (Hbb : bool_decide (r_browser req = "chrome")
                  || bool_decide (r_browser req = "edge") = true).
    { destruct Hb as [-> | ->]; done. }
    rewrite Hbb.
    destruct (r_selectedProfiles req) as [| p ps] eqn:Hsel.
    + split; [intros b _; by destruct (memory !! r_browser req) as [[| q qs] |];
                 try destruct (r_useDefaultIfNoProfile req) |].
      split; [intros H1 H2; destruct Hb; congruence |]. intros _.
      split; [done |]. intros _.
      destruct (memory !! r_browser req) as [[| q qs] |];
        try destruct (r_useDefaultIfNoProfile req); done.
    + cbn [fst snd].
      split; [intros b Hne; by rewrite lookup_insert_ne |].
      split; [intros H1 H2; destruct Hb; congruence |]. intros _.
      split; [| done]. intros _. split; [done |].
      split; [by rewrite lookup_insert_eq |].
      intros req' Hb' Hsel'. rewrite Hb', Hbb, Hsel'. by rewrite lookup_insert_eq.
  - assert (Hbb : bool_decide (r_browser req = "chrome")
                  || bool_decide (r_browser req = "edge") = false).
    { apply orb_false_intro; apply bool_decide_eq_false_2; intros H; apply Hb; auto. }
    rewrite Hbb. cbn [fst snd].
    split; [done |]. split; [done |]. intros H. done.
Qed.

Lemma resolve_profiles_memory_witness :
  resolve_profiles (resolve_profiles ∅ req_mobile).2
    (mkStartRequest ["pear"] 500 "chrome" [] true false)
  = (r_selectedProfiles req_mobile, (resolve_profiles ∅ req_mobile).2).
Proof.
  destruct (resolve_profiles_memory ∅ req_mobile) as (_ & _ & _ & H).
  destruct (H ltac:(by left)) as [H1 _].
  destruct (H1 ltac:(discriminate)) as (_ & _ & H2).
  apply H2; reflexivity.
Defined.

Section SeedRecords.
Variable E : Env.
Variable mobile_enabled : bool.
Variable clock : Z.

Lemma seed_step_records acc p :
  let name := profile_key p in
  let r := seed_step E mobile_enabled clock acc p in
  sd_profile_points r
    = <[name := mkPoints None (lvl_of (sd_info acc) name) clock]> (sd_profile_points acc) /\
  sd_info r = (get_or_init_profile (today E) (sd_info acc) name).2.
Proof.
  cbn zeta. unfold seed_step.
  pose proof (get_or_init_level (today E) (sd_info acc) (profile_key p)) as Hl.
  destruct (get_or_init_profile (today E) (sd_info acc) (profile_key p)) as [entry info'].
  simpl in *. by rewrite Hl.
Qed.

Lemma seed_fold_records info0 ps : forall acc,
  (forall n, lvl_of (sd_info acc) n = lvl_of info0 n) ->
  let r := fold_left (seed_step E mobile_enabled clock) ps acc in
  let keys := map profile_key ps in
  (forall n, sd_profile_points r !! n =
             if decide (n ∈ keys) then Some (mkPoints None (lvl_of info0 n) clock)
             else sd_profile_points acc !! n) /\
  sd_info r = fold_left (fun i k => (get_or_init_profile (today E) i k).2) keys (sd_info acc).
Proof.
  induction ps as [| p ps IH]; intros acc Hacc; cbn zeta.
  - cbn [fold_left map]. split; [| done].
    intros n. by rewrite decide_False by apply not_elem_of_nil.
  - cbn [fold_left map]. destruct (seed_step_records acc p) as [Hp Hi]. cbn zeta in *.
    destruct (seed_step_spec E mobile_enabled clock acc p) as (_ & _ & _ & _ & Hlv).
    cbn zeta in Hlv.
    assert (Hacc' : forall n, lvl_of (sd_info (seed_step E mobile_enabled clock acc p)) n
                              = lvl_of info0 n) by (intros n; by rewrite Hlv).
    destruct (IH _ Hacc') as [IHp IHi]. cbn zeta in *. split.
    + intros n. rewrite IHp, Hp.
      destruct (decide (n ∈ map profile_key ps)) as [Hin | Hnin].
      * by rewrite decide_True by (apply elem_of_cons; auto).
      * destruct (decide (profile_key p = n)) as [<- | Hne].
        -- rewrite decide_True by (apply elem_of_cons; auto).
           by rewrite lookup_insert_eq, Hacc.
        -- rewrite decide_False by (rewrite elem_of_cons; intros [? | ?]; congruence).
           by rewrite lookup_insert_ne.
    + by rewrite IHi, Hi.
Qed.
End SeedRecords.

Lemma start_automation_resolves E clock req s info memory sr :
  start_automation E clock req s info memory = inr sr ->
  (sr_profiles sr, sr_memory sr) = resolve_profiles memory req.
Proof.
  unfold start_automation. destruct (is_running s); [done |].
  destruct (r_fruits req); [done |].
  destruct (resolve_profiles memory req) as [profiles memory']. by intros [= <-].
Qed.

(** X12. The outcome of [POST /api/start]. The request is refused when a
    run is going on or no topic is given. Otherwise the state is reset for
    the run (running, not paused, nothing completed, progress 0), the delay
    is the requested one unless it is under half a second, in which case it
    is three seconds; [profile_points] gets an entry with the level of every
    selected profile and keeps its entries for all other profiles; and in
    the store every selected profile has been normalised by
    [get_or_init_profile], every other profile being left alone. *)
Theorem start_automation_outcome (E : Env) (clock : Z) (req : StartRequest) (s : State)
    (info : gmap string InfoEntry) (memory : gmap string (list ProfileTask)) :
  match start_automation E clock req s info memory with
  | inl err =>
      (is_running s = true /\ err = "Automation is already running") \/
      (is_running s = false /\ r_fruits req = [] /\ err = "No fruits provided")
  | inr sr =>
      let s' := sr_state sr in
      let keys := map profile_key (sr_profiles sr) in
      is_running s = false /\ r_fruits req <> [] /\
      is_running s' = true /\ is_paused s' = false /\
      status s' = "Starting automation..." /\
      completed s' = 0 /\ progress s' = 0%Q /\
      mobile_enabled s' = r_mobileEnabled req /\
      sr_delay sr = (if r_delay req <? 500 then 3000 else r_delay req) /\
      500 <= sr_delay sr /\
      (sr_profiles sr, sr_memory sr) = resolve_profiles memory req /\
      (forall name, profile_points s' !! name =
         if decide (name ∈ keys) then Some (mkPoints None (lvl_of info name) clock)
         else profile_points s !! name) /\
      (forall name, sr_info sr !! name =
         if decide (name ∈ keys) then Some (get_or_init_profile (today E) info name).1
         else info !! name)
  end.
Proof.
  unfold start_automation. destruct (is_running s) eqn:Hrun; [by left |].
  destruct (r_fruits req) as [| f fs] eqn:Hf; [by right |].
  destruct (resolve_profiles memory req) as [profiles memory'] eqn:Hres.
  cbn zeta. cbn [sr_state sr_profiles sr_delay sr_memory sr_info].
  destruct (seed_fold_records E (r_mobileEnabled req) clock info profiles
              (mkSeed ∅ ∅ ∅ ∅ 0 info) ltac:(done)) as [Hp Hi].
  cbn zeta in *. cbn [sd_profile_points sd_info] in *.
  fold (seed E (r_mobileEnabled req) clock info profiles) in *.
  simpl.
  split; [done |]. split; [done |]. split; [done |]. split; [done |]. split; [done |].
  split; [done |]. split; [done |]. split; [done |]. split; [done |].
  split; [destruct (Z.ltb_spec (r_delay req) 500); lia |]. split; [done |]. split.
  - intros name. specialize (Hp name). rewrite lookup_empty in Hp.
    destruct (decide (name ∈ map profile_key profiles)).
    + by apply lookup_union_Some_l.
    + by rewrite lookup_union_r.
  - intros name. rewrite Hi. apply normalise_fold_spec.
Qed.

(** ** Processes and windows over a whole run *)

#[local] Instance accounted_preorder : PreOrder accounted.
Proof.
  split.
  - intros w. unfold accounted. lia.
  - intros w1 w2 w3. unfold accounted. lia.
Qed.

#[local] Instance calm_preorder : PreOrder calm.
Proof.
  split.
  - intros w. by split.
  - intros w1 w2 w3 [? ?] [? ?]. split; congruence.
Qed.


Lemma untouched_calm w w' : untouched w w' -> calm w w'.
Proof. intros [Ht Hl]. unfold calm. by rewrite Ht, Hl. Qed.



Lemma closes_cons ev tr :
  closes (ev :: tr) = if is_close ev then S (closes tr) else closes tr.
Proof. unfold closes. simpl. by destruct (is_close ev). Qed.


Lemma calm_emit ev : is_close ev = false -> keeps calm (emit ev).
Proof. intros H w. split; [| done]. simpl. by rewrite closes_cons, H. Qed.

Section Footprint.
Context (R : World -> World -> Prop) `{!PreOrder R}.

(** A change of the worker's local variables that [R] allows, with what
    follows it. *)
Lemma keeps_get_put {B} (g : Locals -> Locals) (rest : Locals -> M B) :
  (forall w, R w (with_lv (g (lv w)) w)) -> (forall l, keeps R (rest l)) ->
  keeps R (bind get_lv (fun l => bind (put_lv (g l)) (fun _ => rest l))).
Proof.
  intros Hg Hk w. unfold bind at 1 2. unfold get_lv, put_lv.
  etransitivity; [apply Hg | apply Hk].
Qed.

Lemma keeps_get_put0 (g : Locals -> Locals) :
  (forall w, R w (with_lv (g (lv w)) w)) ->
  keeps R (bind get_lv (fun l => put_lv (g l))).
Proof. intros Hg w. apply Hg. Qed.

End Footprint.

Ltac foot_step from_untouched emit_lemma :=
  match goal with
  | |- keeps _ (bind get_lv (fun l => bind (put_lv (@?g l)) (fun _ => @?rest l))) =>
      apply (keeps_get_put _ g rest); [| intros ?]
  | |- keeps _ (bind get_lv (fun l => put_lv (@?g l))) => apply (keeps_get_put0 _ g)
  | |- keeps _ (bind _ _) => apply keeps_bind; [typeclasses eauto | | intros ?]
  | |- keeps _ (try_except _ _) => apply keeps_try_except; [typeclasses eauto | | intros ?]
  | |- keeps _ (try_finally _ _) => apply keeps_try_finally; [typeclasses eauto | |]
  | |- keeps _ (for_each _ _) => apply keeps_for_each; [typeclasses eauto | intros ?]
  | |- keeps _ (ret _) => apply keeps_ret; typeclasses eauto
  | |- keeps _ (raise _) => apply keeps_raise; typeclasses eauto
  | |- keeps _ _wait_if_paused =>
      apply (keeps_weaken untouched); [exact from_untouched | apply untouched_wait_if_paused]
  | |- keeps _ (sleep_with_pause _) =>
      apply (keeps_weaken untouched); [exact from_untouched | apply untouched_sleep_with_pause]
  | |- keeps _ (consult _) =>
      apply (keeps_weaken untouched); [exact from_untouched | apply untouched_consult]
  | |- keeps _ get_lv =>
      apply (keeps_weaken untouched); [exact from_untouched | apply untouched_get_lv]
  | |- keeps _ read_running =>
      apply (keeps_weaken untouched); [exact from_untouched | apply untouched_locked]
  | |- keeps _ (update _) =>
      apply (keeps_weaken untouched); [exact from_untouched | apply untouched_locked]
  | |- keeps _ (locked _) =>
      apply (keeps_weaken untouched); [exact from_untouched | apply untouched_locked]
  | |- keeps _ (fun w => (Ret tt, with_info _ w)) =>
      apply (keeps_weaken untouched); [exact from_untouched | apply untouched_with_info]
  | |- keeps _ (emit _) => apply emit_lemma; reflexivity
  | |- keeps _ (print _) => apply emit_lemma; reflexivity
  | |- keeps _ (close_browser_windows _) => apply emit_lemma; reflexivity
  | |- keeps _ (if ?b then _ else _) => destruct b
  | |- keeps _ (match ?x with _ => _ end) => destruct x
  end.

Ltac calm_step := foot_step untouched_calm calm_emit.

Section WorkerAccounted.
Variable E : Env.
Hypothesis terminate_always : forall n, terminate_ok E n = true.

















End WorkerAccounted.



Section WorkerCalm.
Variable E : Env.

Lemma calm_gui a : keeps calm (gui E a).
Proof. unfold gui. repeat calm_step. Qed.

Lemma calm_native_search q : keeps calm (native_search E q).
Proof. unfold native_search. repeat (calm_step || apply calm_gui). Qed.

Lemma calm_random_uniform lo hi : keeps calm (random_uniform E lo hi).
Proof. unfold random_uniform. repeat calm_step. Qed.

Lemma calm_bump name is_pc delta : keeps calm (bump_profile_progress_io E name is_pc delta).
Proof. unfold bump_profile_progress_io. repeat calm_step. Qed.

Lemma calm_playwright_search q : keeps calm (playwright_search E q).
Proof. unfold playwright_search. repeat calm_step. Qed.

Lemma calm_terminate_process pid : keeps calm (terminate_process E pid).
Proof. unfold terminate_process. repeat calm_step. Qed.

Lemma calm_launch_browser browser directory : keeps calm (launch_browser E browser directory).
Proof. intros w. by split. Qed.

Lemma calm_launch_mobile_browser browser directory :
  keeps calm (launch_mobile_browser E browser directory).
Proof. intros w. by split. Qed.

Lemma calm_desktop_query delay name q : keeps calm (desktop_query E delay name q).
Proof.
  unfold desktop_query.
  repeat (calm_step || apply calm_native_search || apply calm_bump
          || apply calm_random_uniform || (intros w; by split)).
Qed.

Lemma calm_mobile_query search on_error lo hi delay name mq :
  (forall q, keeps calm (search q)) ->
  keeps calm (mobile_query E search on_error lo hi delay name mq).
Proof.
  intros Hs. unfold mobile_query.
  repeat (calm_step || apply Hs || apply calm_bump || apply calm_random_uniform).
Qed.

Lemma calm_playwright_pass delay name mqueries :
  keeps calm (playwright_pass E delay name mqueries).
Proof.
  unfold playwright_pass.
  repeat (calm_step || apply calm_mobile_query || apply calm_playwright_search).
Qed.

Lemma calm_fallback_pass delay browser name directory mqueries :
  keeps calm (fallback_pass E delay browser name directory mqueries).
Proof.
  unfold fallback_pass.
  repeat (calm_step || apply calm_launch_mobile_browser || apply calm_mobile_query
          || apply calm_native_search || (intros w; by split)).
Qed.

Lemma calm_mobile_phase fruits delay browser name directory :
  keeps calm (mobile_phase E fruits delay browser name directory).
Proof.
  unfold mobile_phase.
  repeat (calm_step || apply calm_playwright_pass || apply calm_fallback_pass).
Qed.

Lemma calm_teardown : keeps calm (teardown E).
Proof. unfold teardown. repeat (calm_step || apply calm_terminate_process). Qed.

Lemma at_most_le c k k' w : (k <= k')%nat -> at_most c k w -> at_most c k' w.
Proof. intros Hk [Hc Hl]. split; [done | lia]. Qed.

Lemma at_most_calm c k w w' : calm w w' -> at_most c k w -> at_most c k w'.
Proof. intros [Hc Hp] [Hc' Hl]. split; congruence. Qed.

Lemma preserves_calm {A} c k (m : M A) :
  keeps calm m -> preserves (at_most c k) (at_most c k) m.
Proof. intros Hm w Hw. eapply at_most_calm; [apply Hm | done]. Qed.

Lemma preserves_bind {A B} (I J K : World -> Prop) (m : M A) (k : A -> M B) :
  preserves I J m -> (forall a, preserves J K (k a)) -> (forall w, J w -> K w) ->
  preserves I K (bind m k).
Proof.
  intros Hm Hk HJK w Hw. unfold bind. specialize (Hm w Hw).
  destruct (m w) as [[a | e |] w1]; simpl in *; [by apply Hk | by apply HJK | by apply HJK].
Qed.

Lemma preserves_calm_bind {A B} c k k' (m : M A) (cont : A -> M B) :
  (k <= k')%nat -> keeps calm m ->
  (forall a, preserves (at_most c k) (at_most c k') (cont a)) ->
  preserves (at_most c k) (at_most c k') (bind m cont).
Proof.
  intros Hk Hm Hc. apply (preserves_bind _ (at_most c k)); [by apply preserves_calm | done |].
  intros w. by apply at_most_le.
Qed.

(** Below the cap the policy does nothing. *)
Lemma cap_policy_idle browser name w :
  (length (completed_profiles (lv w)) <= MAX_ACTIVE_BROWSERS)%nat ->
  cap_policy E browser name w = (Ret tt, w).
Proof.
  intros H. unfold cap_policy. change (bind get_lv ?k w) with (k (lv w) w). cbv beta.
  destruct (Nat.ltb_spec MAX_ACTIVE_BROWSERS (length (completed_profiles (lv w)))); [lia |].
  done.
Qed.

Lemma preserves_run_profile c k fruits delay browser profile :
  (S k <= MAX_ACTIVE_BROWSERS)%nat ->
  preserves (at_most c k) (at_most c (S k)) (run_profile E fruits delay browser profile).
Proof.
  intros Hk. unfold run_profile.
  apply preserves_calm_bind; [lia | calm_step |]. intros running.
  destruct (negb running).
  { intros w Hw. apply (at_most_le c k); [lia | done]. }
  apply preserves_calm_bind; [lia | repeat calm_step |]. intros name.
  apply preserves_calm_bind; [lia | calm_step |]. intros desktop_total.
  apply preserves_calm_bind; [lia | apply calm_launch_browser |]. intros proc.
  apply preserves_calm_bind; [lia | repeat calm_step; intros w; by split |]. intros _.
  apply preserves_calm_bind; [lia | calm_step |]. intros _.
  apply preserves_calm_bind; [lia | calm_step; apply calm_desktop_query |]. intros _.
  intros w [Hc Hl]. unfold bind at 1 2. unfold get_lv, put_lv.
  set (w1 := with_lv _ w).
  assert (Hw1 : at_most c (S k) w1).
  { split; [done |]. simpl. rewrite length_app. simpl. lia. }
  unfold bind at 1. rewrite cap_policy_idle by (destruct Hw1; lia).
  match goal with |- at_most _ _ (?m w1).2 =>
    assert (K : keeps calm m);
    [| by apply (preserves_calm c (S k) m K w1)] end.
  calm_step; [apply calm_mobile_phase | calm_step].
Qed.

Lemma preserves_profile_loop c fruits delay browser profiles : forall k,
  (k + length profiles <= MAX_ACTIVE_BROWSERS)%nat ->
  preserves (at_most c k) (at_most c (k + length profiles))
    (for_each profiles (run_profile E fruits delay browser)).
Proof.
  induction profiles as [| p ps IH]; intros k Hk; cbn [for_each length] in *.
  - intros w Hw. simpl. apply (at_most_le c k); [lia | done].
  - apply (preserves_bind _ (at_most c (S k))).
    + apply preserves_run_profile. lia.
    + intros []; [| intros w Hw; apply (at_most_le c (S k)); [lia | done]].
      replace (k + S (length ps))%nat with (S k + length ps)%nat by lia.
      apply IH. lia.
    + intros w. apply at_most_le. lia.
Qed.

Lemma worker_never_closes fruits delay browser profiles w :
  (length profiles <= MAX_ACTIVE_BROWSERS)%nat ->
  closes (trace (automation_worker E fruits delay browser profiles w).2) = closes (trace w).
Proof.
  intros Hlen.
  set (ps := match profiles with [] => [default_profile] | _ => profiles end).
  assert (Hps : (0 + length ps <= MAX_ACTIVE_BROWSERS)%nat).
  { unfold ps, MAX_ACTIVE_BROWSERS in *. destruct profiles; simpl in *; lia. }
  set (w0 := with_lv (mkLocals 0 [] []) w).
  set (body := try_except (for_each ps (run_profile E fruits delay browser))
                 (fun e => match e with
                           | FailSafeException =>
                               print "Failsafe: mouse moved to top-left. Stopping."
                           | PyException _ => print "Automation error:"
                           end)).
  change (automation_worker E fruits delay browser profiles w)
    with (try_finally body (teardown E) w0).
  assert (H0 : at_most (closes (trace w)) 0 w0) by (split; simpl; [done | lia]).
  assert (Hbody : at_most (closes (trace w)) (0 + length ps) (body w0).2).
  { unfold body, try_except.
    pose proof (preserves_profile_loop (closes (trace w)) fruits delay browser ps 0 Hps w0 H0)
      as Hl.
    destruct (for_each ps _ w0) as [[[] | e |] w1]; simpl in *; [done | | done].
    destruct e; simpl; destruct Hl as [Hc Hl]; split; simpl; done. }
  destruct Hbody as [Hc _].
  unfold try_finally. destruct (body w0) as [[[] | e |] w1]; simpl in Hc; [| | done].
  all: pose proof (calm_teardown w1) as [Ht _].
  all: destruct (teardown E w1) as [[[] | e' |] w2]; simpl in *; congruence.
Qed.
End WorkerCalm.

(** X14. The window cap fires only from the third completed profile on: a
    worker given at most [MAX_ACTIVE_BROWSERS] profiles never force-closes
    the windows of the browser, however the run goes. A run started through
    [/api/start] for a browser other than chrome and edge has the single
    default profile, so it never force-closes any window. *)
Theorem small_runs_never_force_close (E : Env) :
  (forall fruits delay browser profiles w,
     (length profiles <= MAX_ACTIVE_BROWSERS)%nat ->
     closes (trace (automation_worker E fruits delay browser profiles w).2)
     = closes (trace w)) /\
  (forall clock req s info memory sr reqs,
     start_automation E clock req s info memory = inr sr ->
     r_browser req <> "chrome" -> r_browser req <> "edge" ->
     closes (trace (worker E (r_fruits req) (sr_delay sr) (r_browser req) (sr_profiles sr)
                      (mkWorld (sr_state sr) (sr_info sr) (mkLocals 0 [] []) reqs 0 0 [])).2)
     = 0%nat).
Proof.
  split; [intros; by apply worker_never_closes |].
  intros clock req s info memory sr reqs Hstart Hc He.
  pose proof (start_automation_resolves E clock req s info memory sr Hstart) as Hres.
  assert (Hps : sr_profiles sr = [mkProfile (Some "Default") None None]).
  { unfold resolve_profiles in Hres.
    rewrite (bool_decide_eq_false_2 _ Hc), (bool_decide_eq_false_2 _ He) in Hres.
    simpl in Hres. congruence. }
  set (w0 := mkWorld _ _ _ _ _ _ _).
  unfold worker, try_finally.
  pose proof (worker_never_closes E (r_fruits req) (sr_delay sr) (r_browser req)
                (sr_profiles sr) w0 ltac:(rewrite Hps; simpl; unfold MAX_ACTIVE_BROWSERS; lia))
    as Hw.
  destruct (automation_worker E _ _ _ _ w0) as [[[] | e |] w1]; simpl in Hw; [| | done].
  all: pose proof (untouched_locked (fun st => (tt, set_is_running false st)) w1) as [Hu _].
  all: fold (update (set_is_running false)) in Hu.
  all: destruct (update (set_is_running false) w1) as [[[] | e' |] w2]; simpl in *.
  all: by rewrite Hu, Hw.
Qed.

Lemma small_runs_never_force_close_witness :
  closes (trace (automation_worker E0 ["apple"] 500 "chrome"
                   [profile_named "A"; profile_named "B"] seeded_world).2)
  = closes (trace seeded_world).
Proof.
  destruct (small_runs_never_force_close E0) as [H _].
  apply H. simpl. unfold MAX_ACTIVE_BROWSERS. lia.
Defined.

(** ** Profile discovery *)

Lemma profile_dirs_spec H dir out :
  BrowserProfileManager.profile_dirs H dir = Some out ->
  exists items,
    h_iterdir H dir = Some items /\
    ((out = "Default" :: List.filter
              (fun name => h_is_dir H (dir ++ [name]) && String.prefix "Profile " name) items) \/
     (out = List.filter
              (fun name => h_is_dir H (dir ++ [name]) && String.prefix "Profile " name) items)).
Proof.
  unfold BrowserProfileManager.profile_dirs.
  destruct (h_iterdir H dir) as [items |]; [| done]. intros [= <-].
  exists items. split; [done |]. destruct (_ && _); auto.
Qed.

Lemma profile_dir_named H dir items d :
  d ∈ List.filter (fun name => h_is_dir H (dir ++ [name]) && String.prefix "Profile " name)
        items ->
  d ∈ items /\ String.prefix "Profile " d = true /\ d <> "Default" /\ d <> "".
Proof.
  rewrite !list_elem_of_In, filter_In. intros [Hin Hd].
  apply andb_prop in Hd as [_ Hp]. split; [done |]. split; [done |].
  split; intros ->; done.
Qed.

Lemma get_available_profiles_spec H dir ps :
  BrowserProfileManager.get_available_profiles H dir = Some ps ->
  ps = [] \/
  exists d out, dir = Some d /\ BrowserProfileManager.profile_dirs H d = Some out /\
    ps = map (fun n => mkProfile (Some n) (Some n) (Some (h_str H (d ++ [n])))) out.
Proof.
  unfold BrowserProfileManager.get_available_profiles.
  destruct dir as [d |]; [| intros [= <-]; by left].
  destruct (negb (h_exists H d)); [intros [= <-]; by left |].
  destruct (BrowserProfileManager.profile_dirs H d) as [out |] eqn:Ho; [| done].
  intros [= <-]. right. eauto.
Qed.

Lemma discovered_named H dir ps :
  BrowserProfileManager.get_available_profiles H dir = Some ps ->
  Forall (fun p => exists d, p_name p = Some d /\ p_directory p = Some d /\
                     (d = "Default" \/ String.prefix "Profile " d = true) /\
                     d <> "" /\ profile_key p = d) ps.
Proof.
  intros Hps. destruct (get_available_profiles_spec H dir ps Hps)
    as [-> | (d & out & -> & Ho & ->)]; [constructor |].
  destruct (profile_dirs_spec H d out Ho) as (items & Hi & Hout).
  apply Forall_forall. intros p Hp. apply list_elem_of_fmap in Hp as (n & -> & Hn).
  assert (Hd : (n = "Default" \/ String.prefix "Profile " n = true) /\ n <> "").
  { destruct Hout as [-> | ->].
    - apply elem_of_cons in Hn as [-> | Hn]; [by split; [left |] |].
      apply profile_dir_named in Hn as (_ & ? & _ & ?). auto.
    - apply profile_dir_named in Hn as (_ & ? & _ & ?). auto. }
  destruct Hd as [Hd Hne]. exists n. simpl. split; [done |]. split; [done |].
  split; [done |]. split; [done |]. by apply profile_key_named.
Qed.

Lemma discovered_well_named H dir ps :
  BrowserProfileManager.get_available_profiles H dir = Some ps -> Forall well_named ps.
Proof.
  intros Hps. eapply Forall_impl; [apply (discovered_named H dir ps Hps) |].
  intros p (d & Hn & _ & _ & Hne & _). by exists d.
Qed.

Lemma first_config_dir_exists H names p :
  first_config_dir H names = Some p ->
  h_exists H p = true /\ exists name, name ∈ names /\ p = h_home H ++ [".config"; name].
Proof.
  induction names as [| n names IH]; simpl; [done |].
  destruct (h_exists H (h_home H ++ [".config"; n])) eqn:He.
  - intros [= <-]. split; [done |]. exists n. split; [apply elem_of_cons; auto | done].
  - intros Hp. destruct (IH Hp) as (? & name & ? & ?). split; [done |].
    exists name. split; [apply elem_of_cons; auto | done].
Qed.

Lemma existing_exists H p q : existing H p = Some q -> h_exists H q = true.
Proof. unfold existing. destruct (h_exists H p) eqn:He; [| done]. by intros [= <-]. Qed.

(** X15. Profile discovery. The user data directory a manager reports
    exists. Every profile discovered has its directory name as its name,
    and that name is ["Default"] or starts with ["Profile "]: it is never
    empty, so the profile is keyed by its name at run start. ["Default"]
    comes first and only once, and if the directory listing has no name
    twice no discovered name is repeated. Without a user data directory,
    and for a browser other than chrome and edge (in any letter case), no
    profile is discovered. *)
Theorem discovered_profiles_shape (H : Host) :
  (forall p, ChromeProfileManager._get_user_data_dir H = Some p \/
             EdgeProfileManager._get_user_data_dir H = Some p -> h_exists H p = true) /\
  (forall dir ps,
     BrowserProfileManager.get_available_profiles H dir = Some ps ->
     Forall (fun p => exists d, p_name p = Some d /\ p_directory p = Some d /\
                        (d = "Default" \/ String.prefix "Profile " d = true) /\
                        d <> "" /\ profile_key p = d) ps /\
     (forall i p, ps !! i = Some p -> p_name p = Some "Default" -> i = 0%nat) /\
     (forall d items, dir = Some d -> h_iterdir H d = Some items -> NoDup items ->
        NoDup (map p_name ps)) /\
     (dir = None -> ps = [])) /\
  (forall browser ps,
     get_browser_profiles H browser = Some ps ->
     Forall well_named ps /\
     (py_lower browser <> "chrome" -> py_lower browser <> "edge" -> ps = [])).
Proof.
  split; [| split].
  - intros p [Hp | Hp]; revert Hp;
      unfold ChromeProfileManager._get_user_data_dir, EdgeProfileManager._get_user_data_dir;
      destruct (h_system H); try done;
      try apply existing_exists; intros Hp; by apply first_config_dir_exists in Hp as [? _].
  - intros dir ps Hps. split; [by eapply discovered_named |].
    destruct (get_available_profiles_spec H dir ps Hps) as [-> | (d & out & -> & Ho & ->)].
    { split; [intros i p Hi; by rewrite lookup_nil in Hi |].
      split; [intros; constructor | done]. }
    destruct (profile_dirs_spec H d out Ho) as (items & Hi & Hout).
    set (f := fun n => mkProfile (Some n) (Some n) (Some (h_str H (d ++ [n])))).
    set (keep := fun name => h_is_dir H (d ++ [name]) && String.prefix "Profile " name) in *.
    split; [| split; [| done]].
    + intros i p Hl Hn. change (map f out) with (f <$> out) in Hl.
      rewrite list_lookup_fmap in Hl.
      destruct (out !! i) as [n |] eqn:Hout_i; [| done]. injection Hl as <-.
      simpl in Hn. injection Hn as ->.
      destruct Hout as [-> | ->].
      * destruct i as [| i]; [done |]. simpl in Hout_i.
        apply list_elem_of_lookup_2, profile_dir_named in Hout_i as (_ & _ & ? & _). done.
      * apply list_elem_of_lookup_2, profile_dir_named in Hout_i as (_ & _ & ? & _). done.
    + intros d' items' [= <-] Hi' Hnd. rewrite Hi in Hi'. injection Hi' as <-.
      rewrite map_map. simpl.
      change (map (fun x => Some x) out) with (Some <$> out).
      apply (NoDup_fmap_2 Some).
      assert (Hf : NoDup (List.filter keep items)).
      { apply NoDup_ListNoDup, List.NoDup_filter, NoDup_ListNoDup, Hnd. }
      destruct Hout as [-> | ->]; [| done].
      apply NoDup_cons. split; [| done].
      intros Hin. apply profile_dir_named in Hin as (_ & _ & ? & _). done.
  - intros browser ps. unfold get_browser_profiles.
    destruct (decide (py_lower browser = "chrome")) as [Hc | Hc].
    { rewrite bool_decide_eq_true_2 by done. intros Hps.
      split; [by eapply discovered_well_named | done]. }
    rewrite bool_decide_eq_false_2 by done.
    destruct (decide (py_lower browser = "edge")) as [He | He].
    { rewrite bool_decide_eq_true_2 by done. intros Hps.
      split; [by eapply discovered_well_named | done]. }
    rewrite bool_decide_eq_false_2 by done. intros [= <-]. split; [constructor | done].
Qed.

(** X16. A run over discovered profiles stays within its total. When the
    profiles selected for a chrome or edge run are among those the
    discovery endpoint returned, the run, however it goes and whatever
    requests arrive, ends with [completed] between 0 and [total], with the
    total it was started with, and with a progress between 0 and 100. *)
Theorem discovered_profiles_run_bounded (E : Env) (H : Host) (b : string)
    (ps : list ProfileTask) (clock : Z) (req : StartRequest) (s : State)
    (info : gmap string InfoEntry) (memory : gmap string (list ProfileTask))
    (sr : Started) (reqs : list (Z * Request)) :
  get_browser_profiles H b = Some ps ->
  r_selectedProfiles req <> [] ->
  Forall (fun p => p ∈ ps) (r_selectedProfiles req) ->
  r_browser req = "chrome" \/ r_browser req = "edge" ->
  start_automation E clock req s info memory = inr sr ->
  let w' := (worker E (r_fruits req) (sr_delay sr) (r_browser req) (sr_profiles sr)
               (mkWorld (sr_state sr) (sr_info sr) (mkLocals 0 [] []) reqs 0 0 [])).2 in
  total (st w') = total (sr_state sr) /\
  0 <= completed (st w') <= total (st w') /\
  (0 <= progress (st w') <= 100)%Q.
Proof.
  intros Hps Hsel Hin Hb Hstart.
  assert (Hnamed : Forall well_named (sr_profiles sr)).
  { pose proof (start_automation_resolves E clock req s info memory sr Hstart) as Hres.
    assert (Hsr : sr_profiles sr = r_selectedProfiles req).
    { unfold resolve_profiles in Hres.
      replace (bool_decide (r_browser req = "chrome") || bool_decide (r_browser req = "edge"))
        with true in Hres by (by destruct Hb as [-> | ->]).
      destruct (r_selectedProfiles req) as [| p sel]; [done |]. simpl in Hres. congruence. }
    rewrite Hsr. assert (Hw : Forall well_named ps).
    { unfold get_browser_profiles in Hps. repeat case_bool_decide.
      - by eapply discovered_well_named.
      - by eapply discovered_well_named.
      - injection Hps as <-. constructor. }
    rewrite Forall_forall in Hw. apply Forall_forall. intros p Hp.
    rewrite Forall_forall in Hin. apply Hw, Hin, Hp. }
  destruct (run_within_budget E clock req s info memory sr reqs Hstart Hnamed)
    as (Ht & _ & Hc & Hl & Hp).
  cbn zeta. rewrite Ht. split; [done |]. split; [lia | done].
Qed.

Lemma discovered_profiles_run_bounded_witness :
  match start_automation E0 0 req_discovered initial_state ∅ ∅ with
  | inr sr =>
      let w' := (worker E0 (r_fruits req_discovered) (sr_delay sr) (r_browser req_discovered)
                   (sr_profiles sr)
                   (mkWorld (sr_state sr) (sr_info sr) (mkLocals 0 [] []) [] 0 0 [])).2 in
      total (st w') = total (sr_state sr) /\
      0 <= completed (st w') <= total (st w') /\
      (0 <= progress (st w') <= 100)%Q
  | inl _ => False
  end.
Proof.
  destruct (start_automation E0 0 req_discovered initial_state ∅ ∅) as [err | sr] eqn:Hs;
    [vm_compute in Hs; discriminate |].
  eapply (discovered_profiles_run_bounded E0 sample_host "Chrome" _ 0 req_discovered
            initial_state ∅ ∅ sr []).
  - vm_compute. reflexivity.
  - discriminate.
  - repeat constructor.
  - by left.
  - exact Hs.
Defined.

(** ** Launch commands *)

Lemma once_outcome popen cmd : launch_outcome popen (Launcher.once popen cmd).
Proof.
  unfold launch_outcome, Launcher.once. destruct (popen cmd) eqn:Hp; simpl.
  all: split; [intros c [= <-] || intros c [=]; try done |].
  all: split; [try done; intros _ c Hc; apply list_elem_of_singleton in Hc as ->; congruence |].
  all: intros [| i] c Hc Hi; simpl in *; lia.
Qed.

Lemma try_each_outcome popen mk cands : launch_outcome popen (Launcher.try_each popen mk cands).
Proof.
  unfold launch_outcome. induction cands as [| c cands IH]; simpl.
  - split; [done |]. split; [intros _ cmd Hc; by apply elem_of_nil in Hc |].
    intros i cmd Hc. by destruct i.
  - destruct (popen (mk c)) eqn:Hp; simpl.
    + split; [by intros cmd [= <-] |]. split; [done |].
      intros [| i] cmd Hc Hi; simpl in *; lia.
    + destruct (Launcher.try_each popen mk cands) as [r tried]. simpl in *.
      destruct IH as (IH1 & IH2 & IH3). split; [| split].
      * intros cmd Hr. destruct (IH1 cmd Hr) as [H1 H2]. split; [done |].
        destruct tried; [done |]. done.
      * intros Hr cmd Hc. apply elem_of_cons in Hc as [-> | Hc]; [congruence |].
        by apply IH2.
      * intros [| i] cmd Hc Hi; simpl in *; [congruence |]. apply (IH3 i); [done | lia].
    + split; [done |]. split; [intros _ cmd Hc; apply list_elem_of_singleton in Hc as ->;
                                  congruence |].
      intros [| i] cmd Hc Hi; simpl in *; lia.
Qed.

Lemma try_each_tried popen mk cands cmd :
  cmd ∈ (Launcher.try_each popen mk cands).2 -> exists c, c ∈ cands /\ cmd = mk c.
Proof.
  induction cands as [| c cands IH]; simpl; [intros Hc; by apply elem_of_nil in Hc |].
  destruct (popen (mk c)).
  - intros Hc. apply list_elem_of_singleton in Hc as ->. exists c.
    split; [apply elem_of_cons; auto | done].
  - destruct (Launcher.try_each popen mk cands) as [r tried]. simpl in *.
    intros Hc. apply elem_of_cons in Hc as [-> | Hc].
    + exists c. split; [apply elem_of_cons; auto | done].
    + destruct (IH Hc) as (c' & ? & ?). exists c'. split; [apply elem_of_cons; auto | done].
  - intros Hc. apply list_elem_of_singleton in Hc as ->. exists c.
    split; [apply elem_of_cons; auto | done].
Qed.

Lemma once_tried popen cmd c : c ∈ (Launcher.once popen cmd).2 -> c = cmd.
Proof.
  unfold Launcher.once. destruct (popen cmd); simpl; intros H;
    by apply list_elem_of_singleton in H.
Qed.

(** X17. The commands of [launch_browser]. The handle it returns is the
    last call it made, and that call started a process; when it returns
    nothing, no call started one; on Linux the candidate programs are tried
    in turn and every call before the last did not find its program. For a
    browser it does not know nothing is called. Every call has the shell
    flag exactly on Windows, and its arguments are a program part without a
    profile flag followed, for chrome and edge everywhere and for every
    known browser on macOS, by [--profile-directory=<dir>] exactly when a
    non-empty directory is given; firefox and brave get no profile flag on
    Windows and Linux. *)
Theorem launch_browser_commands (system : Platform)
    (popen : Launcher.Command -> Launcher.PopenResult)
    (browser : string) (profile_dir : option string) :
  let out := Launcher.launch_browser system popen browser profile_dir in
  launch_outcome popen out /\
  (browser ∉ ["chrome"; "edge"; "firefox"; "brave"] -> out = (None, [])) /\
  (forall cmd, cmd ∈ out.2 ->
     (Launcher.c_shell cmd = true <-> system = Windows) /\
     exists base,
       Launcher.c_argv cmd
       = base ++ (if passes_profile system browser
                  then Launcher.profile_arg profile_dir else []) /\
       Forall (fun a => String.prefix "--profile-directory=" a = false) base).
Proof.
  cbn zeta. split; [| split].
  - unfold Launcher.launch_browser.
    destruct system; repeat case_bool_decide;
      try destruct (Launcher.app_map browser);
      try apply once_outcome; try apply try_each_outcome;
      (split; [done |]); (split; [intros _ c Hc; by apply elem_of_nil in Hc |]);
      intros i c Hc; by destruct i.
  - intros Hb. rewrite !not_elem_of_cons in Hb. destruct Hb as (H1 & H2 & H3 & H4 & _).
    unfold Launcher.launch_browser, Launcher.app_map.
    rewrite !bool_decide_eq_false_2 by done. by destruct system.
  - intros cmd. unfold Launcher.launch_browser, Launcher.app_map, passes_profile.
    destruct system; repeat case_bool_decide; subst; cbn [orb];
      intros Hc;
      try (apply once_tried in Hc; subst cmd);
      try (apply try_each_tried in Hc as (c & Hc & ->));
      try (by apply elem_of_nil in Hc); try done;
      cbn [Launcher.c_shell Launcher.c_argv];
      (split; [split; done |]);
      try (eexists; split; [reflexivity | by repeat constructor]);
      try (eexists; split; [symmetry; apply app_nil_r | by repeat constructor]).
    all: exists [c]; split; [done |]; constructor; [| constructor].
    all: repeat (apply elem_of_cons in Hc as [-> | Hc]; [done |]); by apply elem_of_nil in Hc.
Qed.

(** X18. The commands of [launch_mobile_browser]. Only chrome and edge have
    a mobile window: for any other browser nothing is called and nothing
    is returned, on every platform. Every call it makes is one of the
    desktop commands of [launch_browser] for the same browser, platform and
    profile directory, with the user agent and the window size appended as
    its last two arguments; the handle returned is the last call made, it
    started a process, and every call before it did not find its program. *)
Theorem launch_mobile_browser_commands (MOBILE_UA MOBILE_WINDOW_SIZE : string)
    (system : Platform) (popen : Launcher.Command -> Launcher.PopenResult)
    (browser : string) (profile_dir : option string) :
  let out := Launcher.launch_mobile_browser MOBILE_UA MOBILE_WINDOW_SIZE system popen
               browser profile_dir in
  launch_outcome popen out /\
  (browser <> "chrome" -> browser <> "edge" -> out = (None, [])) /\
  (forall cmd, cmd ∈ out.2 ->
     exists desktop,
       desktop ∈ (Launcher.launch_browser system (fun _ => Launcher.NotFound)
                    browser profile_dir).2 /\
       Launcher.c_argv cmd
       = Launcher.c_argv desktop
           ++ ["--user-agent=" +:+ MOBILE_UA; "--window-size=" +:+ MOBILE_WINDOW_SIZE] /\
       Launcher.c_shell cmd = Launcher.c_shell desktop).
Proof.
  cbn zeta. split; [| split].
  - unfold Launcher.launch_mobile_browser.
    destruct system; repeat case_bool_decide;
      try destruct (Launcher.mobile_app_map browser);
      try apply once_outcome; try apply try_each_outcome;
      (split; [done |]); (split; [intros _ c Hc; by apply elem_of_nil in Hc |]);
      intros i c Hc; by destruct i.
  - intros H1 H2. unfold Launcher.launch_mobile_browser, Launcher.mobile_app_map.
    rewrite !bool_decide_eq_false_2 by done. by destruct system.
  - intros cmd.
    unfold Launcher.launch_mobile_browser, Launcher.mobile_app_map,
      Launcher.launch_browser, Launcher.app_map.
    destruct system; repeat case_bool_decide; subst; try done; intros Hc;
      try (apply once_tried in Hc; subst cmd);
      try (apply try_each_tried in Hc as (c & Hc & ->));
      try (by apply elem_of_nil in Hc);
      cbn [Launcher.c_shell Launcher.c_argv Launcher.once Launcher.try_each fst snd].
    all: try (eexists; split; [apply elem_of_cons; left; reflexivity |];
              split; [cbn [Launcher.c_argv]; by rewrite app_assoc | done]).
    all: exists (Launcher.mkCommand ([c] ++ Launcher.profile_arg profile_dir) false).
    all: (split; [| split; [cbn [Launcher.c_argv]; by rewrite app_assoc | done]]).
    all: repeat (apply elem_of_cons in Hc as [-> | Hc];
                 [rewrite !elem_of_cons; tauto |]); by apply elem_of_nil in Hc.
Qed.

(** ** Typing a query *)

Section TypingFacts.
Context {Ch : Type}.
Implicit Types (s : MobileSearcher.Typing Ch) (calls : list (MobileSearcher.PageCall Ch)).

Lemma box_after_app calls1 calls2 (box : list Ch) :
  MobileSearcher.box_after (calls1 ++ calls2) box
  = MobileSearcher.box_after calls2 (MobileSearcher.box_after calls1 box).
Proof. unfold MobileSearcher.box_after. apply fold_left_app. Qed.

Lemma keys_typed_app calls1 calls2 :
  MobileSearcher.keys_typed (calls1 ++ calls2)
  = MobileSearcher.keys_typed calls1 ++ MobileSearcher.keys_typed calls2.
Proof. unfold MobileSearcher.keys_typed. apply flat_map_app. Qed.

Lemma backspaces_app calls1 calls2 :
  MobileSearcher.backspaces (calls1 ++ calls2)
  = (MobileSearcher.backspaces calls1 + MobileSearcher.backspaces calls2)%nat.
Proof. unfold MobileSearcher.backspaces. by rewrite List.filter_app, length_app. Qed.

Lemma removelast_sublist (l : list Ch) : sublist (removelast l) l.
Proof.
  induction l as [| a [| b l] IH]; simpl; [done | by constructor |].
  by apply sublist_skip.
Qed.

Lemma removelast_length_pos (l : list Ch) :
  l <> [] -> (length (removelast l) + 1 = length l)%nat.
Proof.
  intros Hl. destruct (exists_last Hl) as (l' & a & ->).
  rewrite removelast_last, length_app. simpl. lia.
Qed.

Lemma type_char_inv pre done rnd s ch :
  typing_inv pre done rnd s ->
  typing_inv pre (done ++ [ch]) rnd (MobileSearcher.type_char rnd s ch).
Proof.
  intros (Hbox & Hkeys & Hsub & Hlen & Hlast & Hnone & Hall).
  unfold MobileSearcher.type_char.
  set (s1 := match MobileSearcher.t_typed s with [] => s | _ => _ end).
  assert (H1 : MobileSearcher.box_after (MobileSearcher.t_calls s1) pre
               = pre ++ MobileSearcher.t_typed s1 /\
               MobileSearcher.keys_typed (MobileSearcher.t_calls s1) = done /\
               sublist (MobileSearcher.t_typed s1) done /\
               (length (MobileSearcher.t_typed s1)
                + MobileSearcher.backspaces (MobileSearcher.t_calls s1) <= S (length done))%nat /\
               (length (MobileSearcher.t_typed s1) + 1
                + MobileSearcher.backspaces (MobileSearcher.t_calls s1) = S (length done)
                )%nat /\
               ((forall n, MobileSearcher.below (rnd n) (6 # 100) = false) ->
                MobileSearcher.backspaces (MobileSearcher.t_calls s1) = 0%nat) /\
               ((forall n, MobileSearcher.below (rnd n) (6 # 100) = true) ->
                MobileSearcher.t_typed s1 = [])).
  { subst s1. destruct (MobileSearcher.t_typed s) as [| a l] eqn:Ht.
    - rewrite Ht. repeat split; try done; try lia.
    - destruct (MobileSearcher.below _ _) eqn:Hb; cbn [MobileSearcher.t_typed MobileSearcher.t_calls].
      + assert (Hne : a :: l <> []) by done.
        pose proof (removelast_length_pos _ Hne) as Hl.
        rewrite box_after_app, keys_typed_app, backspaces_app, Hbox, Hkeys.
        repeat split.
        * cbn. by rewrite removelast_app.
        * cbn. by rewrite app_nil_r.
        * etrans; [apply removelast_sublist | done].
        * cbn. revert Hl Hlen. simpl length. lia.
        * cbn. revert Hl Hlen. simpl length. lia.
        * intros Hn. by rewrite Hn in Hb.
        * intros Hn. specialize (Hall Hn). simpl in Hall.
          destruct l; [done | simpl in Hall; lia].
      + repeat split; try done; try lia.
        intros Hn. by rewrite Hn in Hb. }
  destruct H1 as (Hbox1 & Hkeys1 & Hsub1 & _ & Hlen1 & Hnone1 & Hall1).
  assert (Hgoal : forall extra,
            MobileSearcher.box_after extra (pre ++ MobileSearcher.t_typed s1 ++ [ch])
            = pre ++ MobileSearcher.t_typed s1 ++ [ch] ->
            MobileSearcher.keys_typed extra = [] ->
            MobileSearcher.backspaces extra = 0%nat ->
            forall d,
            typing_inv pre (done ++ [ch]) rnd
              (MobileSearcher.mkTyping (MobileSearcher.t_typed s1 ++ [ch]) d
                 ((MobileSearcher.t_calls s1
                   ++ [MobileSearcher.CallType ch
                         (MobileSearcher.uniform 35 120 (rnd (MobileSearcher.t_draws s1)))])
                  ++ extra))).
  { intros extra Hx Hk Hb d. unfold typing_inv.
    cbn [MobileSearcher.t_typed MobileSearcher.t_calls].
    rewrite !box_after_app, !keys_typed_app, !backspaces_app, Hbox1, Hkeys1, Hk, Hb.
    cbn [MobileSearcher.box_after fold_left MobileSearcher.key_effect
         MobileSearcher.keys_typed flat_map MobileSearcher.backspaces List.filter length].
    rewrite <- app_assoc. repeat split.
    - done.
    - by rewrite !app_nil_r.
    - by apply sublist_app.
    - rewrite !length_app. simpl. lia.
    - by rewrite !last_snoc.
    - intros Hn. rewrite (Hnone1 Hn). done.
    - intros Hn. rewrite (Hall1 Hn). simpl. lia. }
  clearbody s1.
  destruct (MobileSearcher.below _ (7 # 100)); cbn [MobileSearcher.t_typed MobileSearcher.t_calls
                                             MobileSearcher.t_draws].
  - apply Hgoal; done.
  - rewrite <- (app_nil_r (_ ++ [MobileSearcher.CallType _ _])). apply Hgoal; done.
Qed.

Lemma type_loop_inv pre rnd text : forall done s,
  typing_inv pre done rnd s ->
  typing_inv pre (done ++ text) rnd (fold_left (MobileSearcher.type_char rnd) text s).
Proof.
  induction text as [| ch text IH]; intros done s Hs; simpl.
  - by rewrite app_nil_r.
  - replace (done ++ ch :: text) with ((done ++ [ch]) ++ text) by by rewrite <- app_assoc.
    apply IH. by apply type_char_inv.
Qed.

Lemma sublist_full (l1 l2 : list Ch) :
  sublist l1 l2 -> (length l2 <= length l1)%nat -> l1 = l2.
Proof.
  induction 1 as [| x l1 l2 Hs IH | x l1 l2 Hs IH]; simpl; intros Hl.
  - done.
  - f_equal. apply IH. lia.
  - apply sublist_length in Hs. lia.
Qed.

Lemma backspaces_sleep calls q :
  MobileSearcher.backspaces (calls ++ [MobileSearcher.CallSleep q])
  = MobileSearcher.backspaces calls.
Proof. rewrite backspaces_app. cbn. lia. Qed.

End TypingFacts.

(** X19. [MobileSearcher._type]. Typing a text sends its characters to the page
    in order, one call each, but every Backspace the method presses removes a
    character it has typed and the method never types it again. With [typed]
    the list the method keeps: the box, whatever it held, ends with [typed]
    appended; [typed] is the text with some characters left out, their number
    being the number of Backspace presses, so the box receives the whole text
    exactly when no Backspace was pressed; the last character always
    arrives; no draw under 0.06 gives the whole text, and draws all under
    0.06 leave at most one character. *)
Theorem typing_drops_characters {Ch : Type} (rnd : nat -> Q) (draws : nat)
    (sel : string) (text pre : list Ch) :
  let r := MobileSearcher._type rnd draws sel text in
  let calls := MobileSearcher.t_calls r in
  let typed := MobileSearcher.t_typed r in
  MobileSearcher.keys_typed calls = text /\
  MobileSearcher.box_after calls pre = pre ++ typed /\
  sublist typed text /\
  (length typed + MobileSearcher.backspaces calls = length text)%nat /\
  (typed = text <-> MobileSearcher.backspaces calls = 0%nat) /\
  last typed = last text /\
  ((forall n, MobileSearcher.below (rnd n) (6 # 100) = false) -> typed = text) /\
  ((forall n, MobileSearcher.below (rnd n) (6 # 100) = true) -> (length typed <= 1)%nat).
Proof.
  intros r calls typed. subst r calls typed. unfold MobileSearcher._type.
  cbn [MobileSearcher.t_calls MobileSearcher.t_typed].
  set (s := fold_left _ _ _).
  assert (Hinv : typing_inv pre ([] ++ text) rnd s).
  { apply type_loop_inv. unfold typing_inv. cbn. rewrite app_nil_r.
    repeat split; try done; lia. }
  simpl app in Hinv. destruct Hinv as (Hbox & Hkeys & Hsub & Hlen & Hlast & Hnone & Hall).
  rewrite box_after_app, keys_typed_app, backspaces_sleep, Hbox, Hkeys.
  assert (Hiff : MobileSearcher.t_typed s = text
                 <-> MobileSearcher.backspaces (MobileSearcher.t_calls s) = 0%nat).
  { split.
    - intros Heq. rewrite Heq in Hlen. lia.
    - intros H0. apply sublist_full; [done | lia]. }
  repeat split; try done.
  - cbn. by rewrite app_nil_r.
  - by apply Hiff.
  - by apply Hiff.
  - intros Hn. apply Hiff. by apply Hnone.
Qed.

(** ** Query generation without a provider *)

Lemma fill_spec parts n out i :
  Generate.fill parts n out i
  = out ++ map (Generate.query_at parts) (seq i (Z.to_nat n - length out)).
Proof.
  funelim (Generate.fill parts n out i).
  - rewrite H. rewrite length_app. simpl.
    replace (Z.to_nat n - length out)%nat
      with (S (Z.to_nat n - (length out + 1)))%nat by lia.
    simpl. rewrite <- app_assoc. reflexivity.
  - replace (Z.to_nat n - length out)%nat with 0%nat by lia.
    simpl. rewrite app_nil_r. reflexivity.
Qed.

Lemma parts_of_nonempty seed : Generate.parts_of seed <> [].
Proof. unfold Generate.parts_of. by destruct (List.filter _ _). Qed.

(** A query of the loop is a template filled with a part, and the sequence
    of queries repeats after [30 * len(parts)] rounds. *)
Lemma query_at_shape parts i :
  parts <> [] ->
  exists t p, t ∈ Generate.templates /\ p ∈ parts /\
              Generate.query_at parts i = Generate.format t p.
Proof.
  intros Hp. unfold Generate.query_at.
  eexists _, _. split; [| split; [| reflexivity]].
  - apply list_elem_of_In, nth_In. apply Nat.mod_upper_bound. done.
  - apply list_elem_of_In, nth_In. apply Nat.mod_upper_bound.
    by destruct parts.
Qed.

Lemma query_at_period parts i :
  parts <> [] ->
  Generate.query_at parts i
  = Generate.query_at parts (i mod (30 * length parts)).
Proof.
  intros Hp. assert (length parts <> 0)%nat by by destruct parts.
  unfold Generate.query_at. f_equal; f_equal.
  - change (length Generate.templates) with 30%nat.
    rewrite Nat.Div0.mod_mul_r. rewrite Nat.mul_comm, Nat.Div0.mod_add. 
    by rewrite Nat.Div0.mod_mod.
  - rewrite (Nat.mul_comm 30). rewrite Nat.Div0.mod_mul_r.
    rewrite Nat.mul_comm, Nat.Div0.mod_add. by rewrite Nat.Div0.mod_mod.
Qed.

Lemma dedup_step_spec st q :
  dedup_inv st ->
  dedup_inv (Generate.dedup_step st q) /\
  (exists k, (Generate.dedup_step st q).2 = st.2 ++ k /\ sublist k [q]) /\
  py_lower q ∈ (Generate.dedup_step st q).1.
Proof.
  intros [Hnd Hseen]. unfold Generate.dedup_step.
  case_bool_decide as Hin.
  - split; [done |]. split; [| done].
    exists []. rewrite app_nil_r. split; [done | apply sublist_nil_l].
  - unfold dedup_inv. cbn [fst snd]. split; [split |].
    + rewrite fmap_app. apply NoDup_app. split; [done |]. split.
      * intros x Hx Hx'. apply list_elem_of_singleton in Hx' as ->.
        apply Hin, Hseen, Hx.
      * apply NoDup_singleton.
    + intros x. rewrite fmap_app, elem_of_app, elem_of_union, elem_of_singleton.
      cbn. rewrite list_elem_of_singleton, Hseen. tauto.
    + split; [by exists [q] |]. apply elem_of_union. left. by apply elem_of_singleton.
Qed.

Lemma dedup_fold_spec out : forall st,
  dedup_inv st ->
  let st' := fold_left Generate.dedup_step out st in
  dedup_inv st' /\
  (exists k, st'.2 = st.2 ++ k /\ sublist k out) /\
  (forall q, q ∈ out -> py_lower q ∈ st'.1).
Proof.
  induction out as [| q out IH]; intros st Hst; cbn zeta; cbn [fold_left].
  - split; [done |]. split; [| by intros q Hq; apply elem_of_nil in Hq].
    exists []. by rewrite app_nil_r.
  - destruct (dedup_step_spec st q Hst) as (Hinv & (k & Hk & Hsub) & Hq).
    destruct (IH _ Hinv) as (Hinv' & (k' & Hk' & Hsub') & Hall).
    split; [done |]. split.
    + exists (k ++ k'). rewrite Hk', Hk, <- app_assoc. split; [done |].
      change (q :: out) with ([q] ++ out). by apply sublist_app.
    + intros q' Hq'. apply elem_of_cons in Hq' as [-> | Hq']; [| by apply Hall].
      destruct Hinv' as [_ Hseen']. apply Hseen'.
      rewrite Hk', fmap_app, elem_of_app. left.
      destruct Hinv as [_ Hseen]. by apply Hseen.
Qed.

(** The run of [_fallback_generate_queries]: the list [dedup] it slices. *)
Lemma fallback_run (seed : string) (count : Z) :
  let parts := Generate.parts_of (Generate.seed_of seed) in
  exists dd out,
    Generate._fallback_generate_queries seed count = Query.py_slice_to dd count /\
    sublist dd out /\
    length out = Z.to_nat (Z.max 1 count) /\
    NoDup (py_lower <$> dd) /\
    dd <> [] /\
    (forall q, q ∈ out -> exists i, q = Generate.query_at parts i).
Proof.
  cbn zeta. unfold Generate._fallback_generate_queries.
  set (parts := Generate.parts_of _).
  rewrite fill_spec. cbn [app length]. rewrite Nat.sub_0_r.
  set (out := map _ _).
  assert (Hlen : length out = Z.to_nat (Z.max 1 count)).
  { subst out. by rewrite length_map, length_seq. }
  assert (Hinv0 : dedup_inv (∅, [])).
  { split; [apply NoDup_nil_2 |]. intros x. cbn. rewrite elem_of_nil.
    split; [by intros ?%not_elem_of_empty | done]. }
  destruct (dedup_fold_spec out _ Hinv0) as ([Hnd Hseen] & (k & Hk & Hsub) & Hall).
  set (dd := (fold_left Generate.dedup_step out (∅, [])).2) in *.
  cbn [snd app] in Hk.
  exists dd, out. repeat split; try done.
  - by rewrite Hk.
  - intros Hdd0. destruct out as [| q out'] eqn:Ho; [simpl in Hlen; lia |].
    specialize (Hall q (list_elem_of_here _ _)).
    apply Hseen in Hall. fold dd in Hall. rewrite Hdd0 in Hall.
    by apply elem_of_nil in Hall.
  - intros q Hq. subst out. apply list_elem_of_In, in_map_iff in Hq as (i & <- & _).
    by exists i.
Qed.

Lemma py_slice_to_sublist {A} (l : list A) count : sublist (Query.py_slice_to l count) l.
Proof. unfold Query.py_slice_to. destruct (0 <=? count); apply sublist_take. Qed.

Lemma py_slice_to_size {A} (l : list A) count :
  1 <= count -> l <> [] ->
  (1 <= length (Query.py_slice_to l count) <= Z.to_nat count)%nat.
Proof.
  intros Hc Hl. rewrite py_slice_to_nonneg by lia. rewrite length_take.
  destruct l; [done |]. simpl. lia.
Qed.

Lemma fallback_size (seed : string) (count : Z) :
  1 <= count ->
  (1 <= length (Generate._fallback_generate_queries seed count) <= Z.to_nat count)%nat.
Proof.
  intros Hc. destruct (fallback_run seed count) as (dd & out & -> & _ & _ & _ & Hne & _).
  by apply py_slice_to_size.
Qed.

(** X20. [_fallback_generate_queries]. The queries generated without a
    provider: none for a count of zero or less, at least one for a count of
    one or more, never more than the count, and never more than thirty times
    the number of phrases of the seed (so a seed of one phrase gives at most
    thirty queries, whatever the count). No two of them are equal up to
    case, and each is one of the thirty templates filled with a phrase of
    the seed. *)
Theorem fallback_queries_contract (seed : string) (count : Z) :
  let qs := Generate._fallback_generate_queries seed count in
  let parts := Generate.parts_of (Generate.seed_of seed) in
  (count <= 0 -> qs = []) /\
  (1 <= count -> qs <> []) /\
  Z.of_nat (length qs) <= Z.max 0 count /\
  (length qs <= 30 * length parts)%nat /\
  NoDup (py_lower <$> qs) /\
  (forall q, q ∈ qs ->
     exists t p, t ∈ Generate.templates /\ p ∈ parts /\ q = Generate.format t p).
Proof.
  cbn zeta.
  destruct (fallback_run seed count) as (dd & out & -> & Hdd & Hlen & Hnd & Hne & Hshape).
  set (parts := Generate.parts_of _) in *.
  assert (Hp : parts <> []) by apply parts_of_nonempty.
  assert (Hddlen : (length dd <= length out)%nat) by by apply sublist_length.
  pose proof (py_slice_to_sublist dd count) as Hqs.
  assert (Hndq : NoDup (py_lower <$> Query.py_slice_to dd count)).
  { eapply sublist_NoDup; [apply Hnd |]. by apply fmap_sublist. }
  repeat split.
  - intros Hc. unfold Query.py_slice_to.
    destruct (Z.leb_spec 0 count).
    + replace (Z.to_nat count) with 0%nat by lia. done.
    + replace (Z.to_nat _) with 0%nat by lia. done.
  - intros Hc Hnil. pose proof (py_slice_to_size dd count Hc Hne) as Hsz.
    rewrite Hnil in Hsz. simpl in Hsz. lia.
  - unfold Query.py_slice_to. destruct (Z.leb_spec 0 count); rewrite length_take; lia.
  - etrans; [| apply (Nat.eq_le_incl (length (map (Generate.query_at parts)
                                           (seq 0 (30 * length parts)))));
                 by rewrite length_map, length_seq].
    apply submseteq_length, NoDup_submseteq; [by apply NoDup_fmap_1 in Hndq |].
    intros q Hq. eapply elem_of_sublist in Hq; [| apply Hqs].
    eapply elem_of_sublist in Hq; [| apply Hdd].
    destruct (Hshape q Hq) as [i ->]. rewrite query_at_period by done.
    apply list_elem_of_In, in_map, in_seq. split; [lia |]. simpl.
    apply Nat.mod_upper_bound. destruct parts; [done | simpl; lia].
  - done.
  - intros q Hq. eapply elem_of_sublist in Hq; [| apply Hqs].
    eapply elem_of_sublist in Hq; [| apply Hdd].
    destruct (Hshape q Hq) as [i ->]. by apply query_at_shape.
Qed.

(** ** Query generation with a provider *)

Lemma queries_of_lines_size seed count lines :
  1 <= count ->
  (1 <= length (AiConfig.queries_of_lines seed count lines) <= Z.to_nat count)%nat.
Proof.
  intros Hc. unfold AiConfig.queries_of_lines.
  destruct (fold_left _ _ _).1 as [| q uniq]; [by apply fallback_size |].
  apply py_slice_to_size; [done |]. by destruct (_ <? _).
Qed.

Section ProviderFacts.
Variable openai_answer gemini_answer : string -> string -> string -> Z -> AiConfig.Answer.
Variable env : AiConfig.OsEnv.

Lemma openai_generate_size seed count key model :
  1 <= count ->
  (1 <= length (AiConfig._openai_generate_queries openai_answer env seed count key model)
   <= Z.to_nat count)%nat.
Proof.
  intros Hc. unfold AiConfig._openai_generate_queries.
  destruct (openai_answer _ _ _ _);
    [by apply fallback_size | by apply fallback_size | by apply queries_of_lines_size].
Qed.

Lemma gemini_generate_size seed count key model :
  1 <= count ->
  (1 <= length (AiConfig._gemini_generate_queries gemini_answer env seed count key model)
   <= Z.to_nat count)%nat.
Proof.
  intros Hc. unfold AiConfig._gemini_generate_queries.
  destruct (gemini_answer _ _ _ _); [by apply fallback_size | |];
    case_bool_decide;
    [by apply fallback_size | by apply fallback_size | by apply fallback_size
    | by apply queries_of_lines_size].
Qed.

End ProviderFacts.

Lemma count_of_range data : 1 <= AiConfig.count_of data <= 200.
Proof. unfold AiConfig.count_of. lia. Qed.

(** X21. [POST /api/ai-generate], with [_choose_provider_and_generate] and
    the two provider functions. Whatever the request, the configuration and the answers of
    the services, the reply of the generation route holds at least one query
    and at most the requested count, itself brought into 1..200. The provider
    it names is the fallback exactly when neither the environment nor the
    file holds a key, and then the queries are those of the fallback
    generator; OpenAI exactly when it has a key and either it is the provider
    asked for or Gemini has no key; Gemini in every other case with a Gemini
    key, so also when OpenAI is asked for and has no key. *)
Theorem ai_generate_reply
    (openai_answer gemini_answer : string -> string -> string -> Z -> AiConfig.Answer)
    (env : AiConfig.OsEnv) (file : AiConfig.FileConfig) (data : AiConfig.GenerateRequest) :
  let r := AiConfig.api_ai_generate openai_answer gemini_answer env file data in
  let cfg := AiConfig._load_ai_config file in
  let count := AiConfig.count_of data in
  let prompt := Generate.strip (AiConfig.or_else (AiConfig.g_prompt data) "") in
  let asked := AiConfig.provider_of env cfg
                 (truthy (Some (py_lower (AiConfig.or_else (AiConfig.g_provider data) "")))) in
  let gem_key := AiConfig.gem_key env cfg in
  let oa_key := AiConfig.oa_key env cfg in
  1 <= count <= 200 /\
  (1 <= length (AiConfig.gr_fruits r) <= Z.to_nat count)%nat /\
  (AiConfig.gr_provider r = "fallback" <-> gem_key = "" /\ oa_key = "") /\
  (AiConfig.gr_provider r = "fallback" ->
   AiConfig.gr_fruits r = Generate._fallback_generate_queries prompt count) /\
  (AiConfig.gr_provider r = "openai" <->
   oa_key <> "" /\ (asked = "openai" \/ gem_key = "")) /\
  (AiConfig.gr_provider r = "gemini" <->
   gem_key <> "" /\ ~ (asked = "openai" /\ oa_key <> "")).
Proof.
  cbn zeta. pose proof (count_of_range data) as Hc.
  split; [done |].
  unfold AiConfig.api_ai_generate, AiConfig._choose_provider_and_generate.
  set (asked := AiConfig.provider_of _ _ _).
  set (gk := AiConfig.gem_key _ _). set (ok := AiConfig.oa_key _ _).
  set (count := AiConfig.count_of data) in *.
  assert (Hcount : 1 <= count) by lia.
  pose proof (fun seed key model =>
                openai_generate_size openai_answer env seed count key model Hcount) as Ho.
  pose proof (fun seed key model =>
                gemini_generate_size gemini_answer env seed count key model Hcount) as Hg.
  pose proof (fun seed => fallback_size seed count Hcount) as Hf.
  repeat case_bool_decide; cbn [andb AiConfig.gr_fruits AiConfig.gr_provider];
    (split; [auto |]); repeat split; try done; try tauto; try congruence;
    try (intros [? ?]; congruence); try (intros [? [? | ?]]; congruence).
Qed.

(** ** Provider configuration *)

Lemma set_vendor_api_key k m c v :
  AiConfig.api_key (AiConfig.set_vendor k m c v)
  = if c then Some "" else if bool_decide (k <> "") then Some k else AiConfig.api_key v.
Proof.
  unfold AiConfig.set_vendor.
  destruct c, (bool_decide (k <> "")), (bool_decide (m <> "")); reflexivity.
Qed.

Lemma set_vendor_model k m c v :
  AiConfig.model (AiConfig.set_vendor k m c v)
  = if bool_decide (m <> "") then Some m else AiConfig.model v.
Proof.
  unfold AiConfig.set_vendor.
  destruct c, (bool_decide (k <> "")), (bool_decide (m <> "")); reflexivity.
Qed.

Lemma or_else_cases a :
  (exists s, s <> "" /\ forall b, AiConfig.or_else a b = s) \/
  (forall b, AiConfig.or_else a b = b).
Proof.
  unfold AiConfig.or_else. destruct a as [s |]; [| by right].
  destruct s as [| c s]; [by right |]. left. by exists (String c s).
Qed.

Lemma has_key_after_set envk k m c v :
  bool_decide (AiConfig.or_else envk
                 (default "" (AiConfig.api_key (AiConfig.set_vendor k m c v))) <> "")
  = (if c then bool_decide (AiConfig.or_else envk "" <> "")
     else if bool_decide (k = "")
          then bool_decide (AiConfig.or_else envk (default "" (AiConfig.api_key v)) <> "")
          else true).
Proof.
  rewrite set_vendor_api_key.
  destruct (or_else_cases envk) as [(s & Hs & Hor) | Hor]; rewrite !Hor.
  - rewrite (bool_decide_eq_true_2 _ Hs). by destruct c, (bool_decide (k = "")).
  - destruct c; [done |].
    destruct (decide (k = "")) as [Hk | Hk].
    + rewrite (bool_decide_eq_true_2 _ Hk), (bool_decide_eq_false_2 (k <> "")) by tauto.
      done.
    + rewrite (bool_decide_eq_false_2 _ Hk), (bool_decide_eq_true_2 (k <> "")) by done.
      cbn [default]. by rewrite bool_decide_eq_true_2.
Qed.

Lemma model_after_set d k m c v :
  default d (AiConfig.model (AiConfig.set_vendor k m c v))
  = (if bool_decide (m = "") then default d (AiConfig.model v) else m).
Proof.
  rewrite set_vendor_model.
  destruct (decide (m = "")) as [Hm | Hm].
  - by rewrite (bool_decide_eq_true_2 _ Hm), (bool_decide_eq_false_2 (m <> "")) by tauto.
  - by rewrite (bool_decide_eq_false_2 _ Hm), (bool_decide_eq_true_2 (m <> "")) by done.
Qed.

Section SetFacts.
Variables (data : AiConfig.SetRequest) (file : AiConfig.FileConfig).

Local Abbreviation cfg := (AiConfig._load_ai_config file).
Local Abbreviation vendor := (py_lower (AiConfig.or_else (AiConfig.s_vendor data) "")).
Local Abbreviation new_key := (Generate.strip (AiConfig.or_else (AiConfig.s_apiKey data) "")).
Local Abbreviation new_model := (Generate.strip (AiConfig.or_else (AiConfig.s_model data) "")).

Lemma set_provider :
  AiConfig.provider (AiConfig.api_set_ai_config data file)
  = match AiConfig.s_provider data with
    | Some p => if bool_decide (p ∈ ["auto"; "gemini"; "openai"])
                then p else AiConfig.provider cfg
    | None => AiConfig.provider cfg
    end.
Proof.
  unfold AiConfig.api_set_ai_config. fold cfg vendor new_key new_model.
  destruct (AiConfig.s_provider data) as [p |];
    [destruct (bool_decide (p ∈ _)) |];
    destruct (bool_decide (vendor = "gemini")), (bool_decide (vendor = "openai"));
    reflexivity.
Qed.

Lemma set_gemini :
  AiConfig.gemini (AiConfig.api_set_ai_config data file)
  = if bool_decide (vendor = "gemini")
    then AiConfig.set_vendor new_key new_model (AiConfig.s_clear data) (AiConfig.gemini cfg)
    else AiConfig.gemini cfg.
Proof.
  unfold AiConfig.api_set_ai_config. fold cfg vendor new_key new_model.
  destruct (AiConfig.s_provider data) as [p |];
    [destruct (bool_decide (p ∈ _)) |];
    destruct (bool_decide (vendor = "gemini")), (bool_decide (vendor = "openai"));
    reflexivity.
Qed.

Lemma set_openai :
  AiConfig.openai (AiConfig.api_set_ai_config data file)
  = if bool_decide (vendor = "gemini") then AiConfig.openai cfg
    else if bool_decide (vendor = "openai")
    then AiConfig.set_vendor new_key new_model (AiConfig.s_clear data) (AiConfig.openai cfg)
    else AiConfig.openai cfg.
Proof.
  unfold AiConfig.api_set_ai_config. fold cfg vendor new_key new_model.
  destruct (AiConfig.s_provider data) as [p |];
    [destruct (bool_decide (p ∈ _)) |];
    destruct (bool_decide (vendor = "gemini")), (bool_decide (vendor = "openai"));
    reflexivity.
Qed.

End SetFacts.

Lemma config_eq (c1 c2 : AiConfig.Config) :
  AiConfig.provider c1 = AiConfig.provider c2 ->
  AiConfig.gemini c1 = AiConfig.gemini c2 ->
  AiConfig.openai c1 = AiConfig.openai c2 -> c1 = c2.
Proof. destruct c1, c2. simpl. congruence. Qed.

Lemma set_vendor_idem new_key new_model clear v :
  AiConfig.set_vendor new_key new_model clear
    (AiConfig.set_vendor new_key new_model clear v)
  = AiConfig.set_vendor new_key new_model clear v.
Proof.
  unfold AiConfig.set_vendor.
  destruct clear, (bool_decide (new_key <> "")), (bool_decide (new_model <> ""));
    by destruct v.
Qed.

Lemma load_save_ai_config cfg :
  AiConfig._load_ai_config (AiConfig._save_ai_config cfg) = cfg.
Proof. by destruct cfg. Qed.

Lemma valid_provider p :
  p ∈ ["auto"; "gemini"; "openai"] <-> p = "auto" \/ p = "gemini" \/ p = "openai".
Proof. rewrite !elem_of_cons, elem_of_nil. tauto. Qed.

(** X22. [POST /api/ai-config] read back by [GET /api/ai-config]. What a
    configuration request changes, seen through the reply of the read route
    after it (the file being written). The provider becomes the requested one
    if that is auto, gemini or openai, and stays otherwise. Only the vendor
    named (in any case of letters) is touched, and none if the name is
    neither gemini nor openai. For the vendor named: [clear] erases the saved
    key even when a key is sent along, so that a key is reported only if the
    environment has one; without [clear] a key that is not blank is saved
    and reported, and a blank one leaves the saved key alone; a model that
    is not blank replaces the model. The same request sent again changes
    nothing more. *)
Theorem ai_config_set_contract (env : AiConfig.OsEnv) (data : AiConfig.SetRequest)
    (file : AiConfig.FileConfig) :
  let file' := AiConfig._save_ai_config (AiConfig.api_set_ai_config data file) in
  let before := AiConfig.api_get_ai_config env file in
  let after := AiConfig.api_get_ai_config env file' in
  let vendor := py_lower (AiConfig.or_else (AiConfig.s_vendor data) "") in
  let new_key := Generate.strip (AiConfig.or_else (AiConfig.s_apiKey data) "") in
  let new_model := Generate.strip (AiConfig.or_else (AiConfig.s_model data) "") in
  let valid p := p = "auto" \/ p = "gemini" \/ p = "openai" in
  (forall p, AiConfig.s_provider data = Some p -> valid p -> AiConfig.cr_provider after = p) /\
  ((forall p, AiConfig.s_provider data = Some p -> ~ valid p) ->
   AiConfig.cr_provider after = AiConfig.cr_provider before) /\
  (vendor <> "gemini" ->
   AiConfig.cr_gemini_has_key after = AiConfig.cr_gemini_has_key before /\
   AiConfig.cr_gemini_model after = AiConfig.cr_gemini_model before) /\
  (vendor <> "openai" ->
   AiConfig.cr_openai_has_key after = AiConfig.cr_openai_has_key before /\
   AiConfig.cr_openai_model after = AiConfig.cr_openai_model before) /\
  (vendor = "gemini" ->
   AiConfig.cr_gemini_has_key after
   = (if AiConfig.s_clear data
      then bool_decide (AiConfig.or_else (AiConfig.GEMINI_API_KEY env) "" <> "")
      else if bool_decide (new_key = "") then AiConfig.cr_gemini_has_key before else true) /\
   AiConfig.cr_gemini_model after
   = (if bool_decide (new_model = "") then AiConfig.cr_gemini_model before else new_model)) /\
  (vendor = "openai" ->
   AiConfig.cr_openai_has_key after
   = (if AiConfig.s_clear data
      then bool_decide (AiConfig.or_else (AiConfig.OPENAI_API_KEY env) "" <> "")
      else if bool_decide (new_key = "") then AiConfig.cr_openai_has_key before else true) /\
   AiConfig.cr_openai_model after
   = (if bool_decide (new_model = "") then AiConfig.cr_openai_model before else new_model)) /\
  AiConfig.api_set_ai_config data file' = AiConfig.api_set_ai_config data file.
Proof.
  cbn zeta. unfold AiConfig.api_get_ai_config, AiConfig.gem_key, AiConfig.oa_key.
  cbn [AiConfig.cr_provider AiConfig.cr_gemini_has_key AiConfig.cr_gemini_model
       AiConfig.cr_openai_has_key AiConfig.cr_openai_model].
  rewrite load_save_ai_config, set_provider, set_gemini, set_openai.
  set (vendor := py_lower _). set (new_key := Generate.strip _).
  set (new_model := Generate.strip (AiConfig.or_else (AiConfig.s_model data) "")).
  set (cfg := AiConfig._load_ai_config file).
  split; [| split; [| split; [| split; [| split; [| split]]]]].
  - intros p Hp Hv. rewrite Hp. by rewrite bool_decide_eq_true_2 by by apply valid_provider.
  - intros Hno. destruct (AiConfig.s_provider data) as [p |]; [| done].
    rewrite bool_decide_eq_false_2; [done |]. rewrite valid_provider. by apply Hno.
  - intros Hv. by rewrite (bool_decide_eq_false_2 _ Hv).
  - intros Hv. rewrite (bool_decide_eq_false_2 _ Hv). by destruct (bool_decide (vendor = "gemini")).
  - intros Hv. rewrite (bool_decide_eq_true_2 _ Hv).
    by rewrite has_key_after_set, model_after_set.
  - intros Hv. assert (Hg : vendor <> "gemini") by (rewrite Hv; done).
    rewrite (bool_decide_eq_false_2 _ Hg), (bool_decide_eq_true_2 _ Hv).
    by rewrite has_key_after_set, model_after_set.
  - apply config_eq.
    + rewrite !set_provider, load_save_ai_config, set_provider. fold cfg.
      destruct (AiConfig.s_provider data) as [p |]; [| done].
      by destruct (bool_decide _).
    + rewrite !set_gemini, load_save_ai_config, set_gemini. fold vendor new_key new_model cfg.
      destruct (bool_decide _); [by rewrite set_vendor_idem | done].
    + rewrite !set_openai, load_save_ai_config, set_openai. fold vendor new_key new_model cfg.
      destruct (bool_decide (vendor = "gemini")); [done |].
      destruct (bool_decide _); [by rewrite set_vendor_idem | done].
Qed.

(** ** Mobile sessions over a whole run *)

#[local] Instance settled_preorder : PreOrder settled.
Proof.
  split.
  - intros w. unfold settled. lia.
  - intros w1 w2 w3. unfold settled. lia.
Qed.

Lemma untouched_settled w w' : untouched w w' -> settled w w'.
Proof. intros [Ht Hl]. unfold settled. rewrite Ht. lia. Qed.

Lemma sessions_opened_cons ev tr :
  sessions_opened (ev :: tr)
  = if is_session_open ev then S (sessions_opened tr) else sessions_opened tr.
Proof. unfold sessions_opened. simpl. by destruct (is_session_open ev). Qed.

Lemma sessions_closed_cons ev tr :
  sessions_closed (ev :: tr)
  = if is_session_close ev then S (sessions_closed tr) else sessions_closed tr.
Proof. unfold sessions_closed. simpl. by destruct (is_session_close ev). Qed.

Lemma settled_emit ev :
  is_session_open ev || is_session_close ev = false -> keeps settled (emit ev).
Proof.
  intros H w. apply orb_false_elim in H as [H1 H2]. unfold settled. simpl.
  rewrite sessions_opened_cons, sessions_closed_cons, H1, H2. lia.
Qed.

Ltac set_step := foot_step untouched_settled settled_emit.

Section Returns.
Context (R : World -> World -> Prop) `{!PreOrder R}.

Lemma keeps_returns {A} (m : M A) : keeps R m -> returns R m.
Proof. intros H w _. apply H. Qed.

Lemma returns_bind {A B} (m : M A) (k : A -> M B) :
  returns R m -> (forall a, returns R (k a)) -> returns R (bind m k).
Proof.
  intros Hm Hk w. unfold bind. specialize (Hm w).
  destruct (m w) as [[a | e |] w1]; simpl in *; intros Hnh.
  - etransitivity; [by apply Hm | by apply Hk].
  - by apply Hm.
  - done.
Qed.

Lemma returns_try_except {A} (body : M A) handler :
  returns R body -> (forall e, returns R (handler e)) -> returns R (try_except body handler).
Proof.
  intros Hm Hk w. unfold try_except. specialize (Hm w).
  destruct (body w) as [[a | e |] w1]; simpl in *; intros Hnh.
  - by apply Hm.
  - etransitivity; [by apply Hm | by apply Hk].
  - done.
Qed.

Lemma returns_try_finally {A} (body : M A) fin :
  returns R body -> returns R fin -> returns R (try_finally body fin).
Proof.
  intros Hm Hk w. unfold try_finally. specialize (Hm w).
  destruct (body w) as [[a | e |] w1]; simpl in *; [| | done].
  all: specialize (Hk w1); destruct (fin w1) as [[[] | e' |] w2]; simpl in *; intros Hnh.
  all: try done.
  all: etransitivity; [by apply Hm | by apply Hk].
Qed.

Lemma returns_for_each {A} (l : list A) body :
  (forall x, returns R (body x)) -> returns R (for_each l body).
Proof.
  intros Hb. induction l as [| x l IH]; simpl; [apply keeps_returns, keeps_ret; done |].
  apply returns_bind; [apply Hb |].
  intros []; [exact IH | apply keeps_returns, keeps_ret; done].
Qed.
End Returns.

Ltac ret_step :=
  match goal with
  | |- returns _ (bind _ _) => apply returns_bind; [typeclasses eauto | | intros ?]
  | |- returns _ (try_except _ _) => apply returns_try_except; [typeclasses eauto | | intros ?]
  | |- returns _ (try_finally _ _) => apply returns_try_finally; [typeclasses eauto | |]
  | |- returns _ (for_each _ _) => apply returns_for_each; [typeclasses eauto | intros ?]
  | |- returns _ (if ?b then _ else _) => destruct b
  | |- returns _ (match ?x with _ => _ end) => destruct x
  end.

Section WorkerSessions.
Variable E : Env.

Lemma settled_gui a : keeps settled (gui E a).
Proof. unfold gui. repeat set_step. Qed.

Lemma settled_native_search q : keeps settled (native_search E q).
Proof. unfold native_search. repeat (set_step || apply settled_gui). Qed.

Lemma settled_random_uniform lo hi : keeps settled (random_uniform E lo hi).
Proof. unfold random_uniform. repeat set_step. Qed.

Lemma settled_bump name is_pc delta :
  keeps settled (bump_profile_progress_io E name is_pc delta).
Proof. unfold bump_profile_progress_io. repeat set_step. Qed.

Lemma settled_playwright_search q : keeps settled (playwright_search E q).
Proof. unfold playwright_search. repeat set_step. Qed.

Lemma settled_terminate_process pid : keeps settled (terminate_process E pid).
Proof. unfold terminate_process. repeat set_step. Qed.

Lemma settled_launch_browser browser directory :
  keeps settled (launch_browser E browser directory).
Proof. intros w. unfold settled. simpl. rewrite sessions_opened_cons, sessions_closed_cons. simpl. lia. Qed.

Lemma settled_launch_mobile_browser browser directory :
  keeps settled (launch_mobile_browser E browser directory).
Proof. intros w. unfold settled. simpl. rewrite sessions_opened_cons, sessions_closed_cons. simpl. lia. Qed.

Lemma settled_desktop_query delay name q : keeps settled (desktop_query E delay name q).
Proof.
  unfold desktop_query.
  repeat (set_step || apply settled_native_search || apply settled_bump
          || apply settled_random_uniform || (intros w; unfold settled; simpl; lia)).
Qed.

Lemma settled_mobile_query search on_error lo hi delay name mq :
  (forall q, keeps settled (search q)) ->
  keeps settled (mobile_query E search on_error lo hi delay name mq).
Proof.
  intros Hs. unfold mobile_query.
  repeat (set_step || apply Hs || apply settled_bump || apply settled_random_uniform).
Qed.

Lemma settled_fallback_pass delay browser name directory mqueries :
  keeps settled (fallback_pass E delay browser name directory mqueries).
Proof.
  unfold fallback_pass.
  repeat (set_step || apply settled_launch_mobile_browser || apply settled_mobile_query
          || apply settled_native_search || (intros w; unfold settled; simpl; lia)).
Qed.

Lemma settled_cap_policy browser name : keeps settled (cap_policy E browser name).
Proof.
  unfold cap_policy.
  repeat (set_step || apply settled_terminate_process || (intros w; unfold settled; simpl; lia)).
Qed.

Lemma settled_teardown : keeps settled (teardown E).
Proof. unfold teardown. repeat (set_step || apply settled_terminate_process). Qed.

(** The [with] block: a session that was opened is closed when the block is
    left, by its end or by an exception. *)
Lemma returns_playwright_pass delay name mqueries :
  returns settled (playwright_pass E delay name mqueries).
Proof.
  unfold playwright_pass.
  apply returns_bind; [typeclasses eauto | apply keeps_returns; set_step |]. intros _.
  apply returns_bind; [typeclasses eauto | apply keeps_returns; set_step |]. intros [|].
  - set (body := for_each _ _).
    assert (Hbody : keeps settled body).
    { subst body. repeat (set_step || apply settled_mobile_query
                          || apply settled_playwright_search). }
    intros w. unfold bind, emit. cbv beta iota.
    set (w1 := with_trace _ w). unfold try_finally. specialize (Hbody w1).
    destruct (body w1) as [[[] | e |] w2]; cbn [fst snd] in *; intros Hnh; try done.
    all: unfold settled in *; subst w1; cbn [trace with_trace] in *.
    all: rewrite ?sessions_opened_cons, ?sessions_closed_cons in *.
    all: cbn [is_session_open is_session_close] in *; lia.
  - apply keeps_returns. repeat set_step.
Qed.

Lemma returns_mobile_phase fruits delay browser name directory :
  returns settled (mobile_phase E fruits delay browser name directory).
Proof.
  unfold mobile_phase. cbv zeta.
  repeat (ret_step || apply returns_playwright_pass
          || (apply keeps_returns;
              solve [repeat (set_step || apply settled_fallback_pass)])).
Qed.

Lemma returns_run_profile fruits delay browser profile :
  returns settled (run_profile E fruits delay browser profile).
Proof.
  unfold run_profile. cbv zeta.
  repeat (ret_step || apply returns_mobile_phase
          || (apply keeps_returns;
              solve [repeat (set_step || apply settled_launch_browser
                             || apply settled_desktop_query || apply settled_cap_policy
                             || (intros w; unfold settled; simpl; lia))])).
Qed.

End WorkerSessions.

(** X23. No mobile automation session is left open. A worker that comes to
    its end, by completion, by a stop or by an exception, has closed as many
    sessions as it opened: a session is opened only at the head of the
    [with] block of a profile's mobile pass, and whatever ends the block,
    the end of the queries, a stop seen by the loop or an exception, closes
    it before the worker goes on. *)
Theorem mobile_sessions_closed (E : Env) (fruits : list string) (delay : Z)
    (browser : string) (profiles : list ProfileTask) (w : World) :
  let out := worker E fruits delay browser profiles w in
  out.1 <> Hang ->
  (sessions_opened (trace out.2) + sessions_closed (trace w)
   = sessions_opened (trace w) + sessions_closed (trace out.2))%nat.
Proof.
  cbn zeta. revert w.
  change (returns settled (worker E fruits delay browser profiles)).
  unfold worker, automation_worker. cbv zeta.
  repeat (ret_step || apply returns_run_profile
          || (apply keeps_returns;
              solve [repeat (set_step || apply settled_teardown
                             || (intros w; unfold settled; simpl; lia))])).
Qed.

Lemma mobile_sessions_closed_witness :
  (sessions_opened (trace (worker E_playwright ["apple"] 500 "chrome"
                             [profile_named "A"] mobile_world).2) + 0
   = 0 + sessions_closed (trace (worker E_playwright ["apple"] 500 "chrome"
                                   [profile_named "A"] mobile_world).2))%nat.
Proof.
  apply (mobile_sessions_closed E_playwright ["apple"] 500 "chrome"
           [profile_named "A"] mobile_world).
  vm_compute. discriminate.
Defined.
